(** * The COS storage driver: a shallow embedding and its properties

    Source: [registry/storage/driver/cos/cos.go].

    The driver talks to a remote object store through the SDK client
    [d.Client].  The store is outside the repository, so the client is
    modelled as an arbitrary deterministic transport: every SDK call the
    driver makes is appended to a chronological [History], and the answer
    to a call is a function of the history before it and of the call's
    arguments.  Every driver function is a computation [M A] over that
    history which either returns, panics (nil dereference, index out of
    range, negative [make]) or exhausts the fuel of one of its loops.

    Go's [int] and [int64] are 64-bit; values are carried as [Z] and the
    wrap-around of the arithmetic the driver performs on [int64] is
    written out with [wrap64].  Byte slices are [list byte], strings are
    [string] (sequences of 8-bit characters, as in Go). *)

From Stdlib Require Import ZArith String Ascii List Lia.
From Stdlib.Strings Require Import Byte.
From stdpp Require Import base option list gmap strings pretty.

Open Scope Z_scope.

(** ** Integers *)

Definition wrap64 (z : Z) : Z := (z + 2 ^ 63) mod 2 ^ 64 - 2 ^ 63.

Definition maxInt64 : Z := 2 ^ 63 - 1.

(** [len(x)] of a slice, as a Go [int]. *)
Definition len {A : Type} (l : list A) : Z := Z.of_nat (length l).

(** [len(s)] of a string: its number of bytes. *)
Definition slen (s : string) : Z := Z.of_nat (String.length s).

(** ** Constants (cos.go, lines 23-40) *)

Definition listMax : Z := 1000.
Definition minChunkSize : Z := Z.shiftl 1 20.
Definition defaultChunkSize : Z := 2 * minChunkSize.
Definition multipartCopyMaxConcurrency : Z := 10.
Definition multipartCopyThresholdSize : Z := Z.shiftl 128 20.
Definition multipartCopyChunkSize : Z := Z.shiftl 128 20.

(** ** Values exchanged with the SDK *)

(** Go [error] values: the two kinds the driver builds itself, and the
    opaque errors handed back by the SDK and the standard library. *)
Inductive error : Type :=
| PathNotFoundError (Path : string)
| Errorf (msg : string)
| ExternalError (msg : string).

(** A call that the driver inspects only after checking [err]. *)
Inductive Result (A : Type) : Type :=
| Ok (a : A)
| Err (e : error).
Arguments Ok {A} a.
Arguments Err {A} e.

(** [cos.Object], with the fields the driver reads or writes. *)
Record Object : Type := mkObject {
  Key : string;
  ETag : string;
  Size : Z;
  PartNumber : Z;
  LastModified : string
}.

(** The zero value of [cos.Object]. *)
Definition zeroObject : Object := mkObject "" "" 0 0 "".

(** An [io.ReadCloser] response body, seen through [ioutil.ReadAll]: the
    bytes that could be read and the error that stopped the read. *)
Record ReadCloser : Type := mkBody {
  body_data : list byte;
  body_err : option error
}.

Definition ReadAll (b : ReadCloser) : list byte * option error :=
  (body_data b, body_err b).

(** [cos.Response]: [resp.Header.Get] and [resp.Body]. *)
Record Response : Type := mkResponse {
  Header_Get : string -> string;
  Body : ReadCloser
}.

Record InitiateMultipartUploadResult : Type := mkInitiate {
  v_Key : string;
  v_UploadID : string
}.

Record BucketGetOptions : Type := mkBucketGetOptions {
  Prefix : string;
  Delimiter : string;
  Marker : string;
  MaxKeys : Z
}.

Record BucketGetResult : Type := mkBucketGetResult {
  Contents : list Object;
  CommonPrefixes : list string;
  IsTruncated : bool;
  NextMarker : string
}.

Record MultipartUpload : Type := mkMultipartUpload {
  upload_Key : string;
  upload_UploadID : string
}.

Record CopyPartHeaderOptions : Type := mkCopyPartHeaderOptions {
  XCosCopySource : string;
  XCosCopySourceRange : string
}.

Record ObjectPutHeaderOptions : Type := mkObjectPutHeaderOptions {
  XCosACL : string;
  ContentType : string
}.

(** ** The transport *)

(** One SDK call with its arguments. *)
Inductive Call : Type :=
| Call_Object_Get (key : string) (range : option string)
| Call_Object_Delete (key : string)
| Call_Object_DeleteMulti (objects : list Object) (quiet : bool)
| Call_Object_Copy (dest : string) (sourceURL : string)
| Call_Object_InitiateMultipartUpload (key : string) (opt : option ObjectPutHeaderOptions)
| Call_Object_UploadPart (key uploadID : string) (partNumber : Z) (body : list byte)
| Call_Object_UploadPartCopy (dest source uploadID : string) (partNumber : Z)
    (opt : option CopyPartHeaderOptions)
| Call_Object_CompleteMultipartUpload (key uploadID : string) (parts : list Object)
| Call_Object_AbortMultipartUpload (key uploadID : string)
| Call_Object_ListParts (key uploadID : string)
| Call_Bucket_ListMultipartUploads (prefix : string)
| Call_Bucket_Get (opt : BucketGetOptions).

Definition History : Type := list Call.

(** [cos.Client]: what the store answers to each call, given the calls
    made so far.  [InitiateMultipartUpload] answers with Go's pair of a
    possibly nil pointer and an error, because [Writer] reads the pointer
    before it looks at the error; the other calls are inspected only after
    the error check and answer with a value or an error. *)
Record cos_Client : Type := mkClient {
  BucketURL_Host : string;
  answer_Object_Get : History -> string -> option string -> Result Response;
  answer_Object_Delete : History -> string -> option error;
  answer_Object_DeleteMulti : History -> list Object -> bool -> option error;
  answer_Object_Copy : History -> string -> string -> option error;
  answer_Object_InitiateMultipartUpload :
    History -> string -> option ObjectPutHeaderOptions ->
    option InitiateMultipartUploadResult * option error;
  answer_Object_UploadPart :
    History -> string -> string -> Z -> list byte -> Result Response;
  answer_Object_UploadPartCopy :
    History -> string -> string -> string -> Z -> option CopyPartHeaderOptions ->
    Result Object;
  answer_Object_CompleteMultipartUpload :
    History -> string -> string -> list Object -> option error;
  answer_Object_AbortMultipartUpload : History -> string -> string -> option error;
  answer_Object_ListParts : History -> string -> string -> Result (list Object);
  answer_Bucket_ListMultipartUploads : History -> string -> Result (list MultipartUpload);
  answer_Bucket_Get : History -> BucketGetOptions -> Result BucketGetResult
}.

(** ** Computations over the call history *)

Inductive outcome (A : Type) : Type :=
| Done (a : A) (h : History)
| Panic (h : History)
| OutOfFuel (h : History).
Arguments Done {A} a h.
Arguments Panic {A} h.
Arguments OutOfFuel {A} h.

Definition M (A : Type) : Type := History -> outcome A.

Definition ret {A : Type} (a : A) : M A := fun h => Done a h.

Definition bind {A B : Type} (m : M A) (f : A -> M B) : M B :=
  fun h =>
    match m h with
    | Done a h' => f a h'
    | Panic h' => Panic h'
    | OutOfFuel h' => OutOfFuel h'
    end.

Definition panic {A : Type} : M A := fun h => Panic h.
Definition out_of_fuel {A : Type} : M A := fun h => OutOfFuel h.

Notation "'let*' x ':=' m 'in' f" := (bind m (fun x => f))
  (at level 10, x name, m at level 100, f at level 200, only parsing).
Notation "'let*' ' p ':=' m 'in' f" := (bind m (fun x => match x with p => f end))
  (at level 10, p pattern, m at level 100, f at level 200, only parsing).

(** The history of a finished, panicked or starved computation. *)
Definition history_of {A : Type} (o : outcome A) : History :=
  match o with
  | Done _ h => h
  | Panic h => h
  | OutOfFuel h => h
  end.

(** Issue a call: record it and return the store's answer. *)
Definition issue {A : Type} (answer : History -> A) (c : Call) : M A :=
  fun h => Done (answer h) (h ++ [c]).

Section SDK.
Variable c : cos_Client.

Definition Object_Get (key : string) (range : option string) : M (Result Response) :=
  issue (fun h => answer_Object_Get c h key range) (Call_Object_Get key range).

Definition Object_Delete (key : string) : M (option error) :=
  issue (fun h => answer_Object_Delete c h key) (Call_Object_Delete key).

Definition Object_DeleteMulti (objects : list Object) (quiet : bool) : M (option error) :=
  issue (fun h => answer_Object_DeleteMulti c h objects quiet)
        (Call_Object_DeleteMulti objects quiet).

Definition Object_Copy (dest sourceURL : string) : M (option error) :=
  issue (fun h => answer_Object_Copy c h dest sourceURL) (Call_Object_Copy dest sourceURL).

Definition Object_InitiateMultipartUpload (key : string)
    (opt : option ObjectPutHeaderOptions)
  : M (option InitiateMultipartUploadResult * option error) :=
  issue (fun h => answer_Object_InitiateMultipartUpload c h key opt)
        (Call_Object_InitiateMultipartUpload key opt).

Definition Object_UploadPart (key uploadID : string) (partNumber : Z) (body : list byte)
  : M (Result Response) :=
  issue (fun h => answer_Object_UploadPart c h key uploadID partNumber body)
        (Call_Object_UploadPart key uploadID partNumber body).

Definition Object_UploadPartCopy (dest source uploadID : string) (partNumber : Z)
    (opt : option CopyPartHeaderOptions) : M (Result Object) :=
  issue (fun h => answer_Object_UploadPartCopy c h dest source uploadID partNumber opt)
        (Call_Object_UploadPartCopy dest source uploadID partNumber opt).

Definition Object_CompleteMultipartUpload (key uploadID : string) (parts : list Object)
  : M (option error) :=
  issue (fun h => answer_Object_CompleteMultipartUpload c h key uploadID parts)
        (Call_Object_CompleteMultipartUpload key uploadID parts).

Definition Object_AbortMultipartUpload (key uploadID : string) : M (option error) :=
  issue (fun h => answer_Object_AbortMultipartUpload c h key uploadID)
        (Call_Object_AbortMultipartUpload key uploadID).

Definition Object_ListParts (key uploadID : string) : M (Result (list Object)) :=
  issue (fun h => answer_Object_ListParts c h key uploadID)
        (Call_Object_ListParts key uploadID).

Definition Bucket_ListMultipartUploads (prefix : string)
  : M (Result (list MultipartUpload)) :=
  issue (fun h => answer_Bucket_ListMultipartUploads c h prefix)
        (Call_Bucket_ListMultipartUploads prefix).

Definition Bucket_Get (opt : BucketGetOptions) : M (Result BucketGetResult) :=
  issue (fun h => answer_Bucket_Get c h opt) (Call_Bucket_Get opt).

End SDK.

(** ** The driver (cos.go, lines 51-68 and 163-186) *)

Record driver : Type := mkDriver {
  Client : cos_Client;
  SecretID : string;
  SecretKey : string;
  RootDirectory : string;
  ChunkSize : Z
}.

Record DriverParameters : Type := mkDriverParameters {
  params_SecretID : string;
  params_SecretKey : string;
  params_Bucket : string;
  params_Region : string;
  params_Secure : bool;
  params_ChunkSize : Z;
  params_RootDirectory : string
}.

(** [New]; the SDK's client constructor ([cos.NewClient] over
    [cos.NewBucketURL] and the authorization transport) is a parameter. *)
Definition New
    (NewClient : string -> string -> bool -> string -> string -> cos_Client)
    (params : DriverParameters) : driver * option error :=
  let client :=
    NewClient (params_Bucket params) (params_Region params) (params_Secure params)
              (params_SecretID params) (params_SecretKey params) in
  (mkDriver client (params_SecretID params) (params_SecretKey params) ""
            (params_ChunkSize params),
   None).

(** ** Path mapping (cos.go, lines 680-682) *)

(** Go's [strings.TrimLeft] and [strings.TrimRight], on bytes: the cut set
    the driver passes is the single ASCII character "/", which no
    multi-byte UTF-8 sequence contains. *)
Fixpoint inCutset (a : ascii) (cutset : string) : bool :=
  match cutset with
  | EmptyString => false
  | String b rest => if Ascii.eqb a b then true else inCutset a rest
  end.

Fixpoint TrimLeft (s cutset : string) : string :=
  match s with
  | EmptyString => EmptyString
  | String a rest => if inCutset a cutset then TrimLeft rest cutset else s
  end.

Fixpoint TrimRight (s cutset : string) : string :=
  match s with
  | EmptyString => EmptyString
  | String a rest =>
      match TrimRight rest cutset with
      | EmptyString => if inCutset a cutset then EmptyString else String a EmptyString
      | t => String a t
      end
  end.

Definition cosPath (d : driver) (path : string) : string :=
  TrimLeft (TrimRight (RootDirectory d) "/" ++ path) "/".

(** ** Reading content (cos.go, lines 192-201) *)

(** [GetContent] returns Go's pair of a byte slice and an error. *)
Definition GetContent (d : driver) (path : string) : M (list byte * option error) :=
  let* r := Object_Get (Client d) (cosPath d path) None in
  match r with
  | Err err => ret ([], Some err)
  | Ok resp =>
      let '(bs, _) := ReadAll (Body resp) in
      ret (bs, None)
  end.

(** ** The writer (cos.go, lines 477-678) *)

Record writer : Type := mkWriter {
  w_driver : driver;
  w_key : string;
  w_uploadID : string;
  w_parts : list Object;
  w_size : Z;
  w_readyPart : list byte;
  w_pendingPart : list byte;
  w_closed : bool;
  w_committed : bool;
  w_cancelled : bool
}.

(** Assignments to the fields of [*writer]. *)
Definition set_uploadID (w : writer) (x : string) : writer :=
  mkWriter (w_driver w) (w_key w) x (w_parts w) (w_size w) (w_readyPart w)
           (w_pendingPart w) (w_closed w) (w_committed w) (w_cancelled w).
Definition set_parts (w : writer) (x : list Object) : writer :=
  mkWriter (w_driver w) (w_key w) (w_uploadID w) x (w_size w) (w_readyPart w)
           (w_pendingPart w) (w_closed w) (w_committed w) (w_cancelled w).
Definition set_size (w : writer) (x : Z) : writer :=
  mkWriter (w_driver w) (w_key w) (w_uploadID w) (w_parts w) x (w_readyPart w)
           (w_pendingPart w) (w_closed w) (w_committed w) (w_cancelled w).
Definition set_readyPart (w : writer) (x : list byte) : writer :=
  mkWriter (w_driver w) (w_key w) (w_uploadID w) (w_parts w) (w_size w) x
           (w_pendingPart w) (w_closed w) (w_committed w) (w_cancelled w).
Definition set_pendingPart (w : writer) (x : list byte) : writer :=
  mkWriter (w_driver w) (w_key w) (w_uploadID w) (w_parts w) (w_size w) (w_readyPart w)
           x (w_closed w) (w_committed w) (w_cancelled w).
Definition set_closed (w : writer) (x : bool) : writer :=
  mkWriter (w_driver w) (w_key w) (w_uploadID w) (w_parts w) (w_size w) (w_readyPart w)
           (w_pendingPart w) x (w_committed w) (w_cancelled w).
Definition set_committed (w : writer) (x : bool) : writer :=
  mkWriter (w_driver w) (w_key w) (w_uploadID w) (w_parts w) (w_size w) (w_readyPart w)
           (w_pendingPart w) (w_closed w) x (w_cancelled w).
Definition set_cancelled (w : writer) (x : bool) : writer :=
  mkWriter (w_driver w) (w_key w) (w_uploadID w) (w_parts w) (w_size w) (w_readyPart w)
           (w_pendingPart w) (w_closed w) (w_committed w) x.

(** [newWriter]: the size is the [int64] sum of the given parts' sizes. *)
Definition newWriter (d : driver) (key uploadID : string) (parts : list Object) : writer :=
  let size := fold_left (fun size part => wrap64 (size + Size part)) parts 0 in
  mkWriter d key uploadID parts size [] [] false false false.

(** [Writer] (lines 237-274).  Without [append] the upload id is read from
    the pointer that [InitiateMultipartUpload] returned before [err] is
    looked at; reading it through a nil pointer panics. *)
Definition Writer (d : driver) (path : string) (append : bool) : M (Result writer) :=
  let key := cosPath d path in
  if negb append then
    let* '(multi, err) := Object_InitiateMultipartUpload (Client d) key None in
    match multi with
    | None => panic
    | Some multi =>
        let uploadID := v_UploadID multi in
        match err with
        | Some err => ret (Err err)
        | None => ret (Ok (newWriter d key uploadID []))
        end
    end
  else
    let* r := Bucket_ListMultipartUploads (Client d) key in
    match r with
    | Err err => ret (Err err)
    | Ok uploads =>
        match List.find (fun upload => String.eqb key (upload_Key upload)) uploads with
        | None => ret (Err (PathNotFoundError path))
        | Some upload =>
            let uploadID := upload_UploadID upload in
            let* r := Object_ListParts (Client d) key uploadID in
            match r with
            | Err err => ret (Err err)
            | Ok parts => ret (Ok (newWriter d key uploadID parts))
            end
        end
    end.

(** [flushPart] (lines 646-678). *)
Definition flushPart (w : writer) : M (writer * option error) :=
  if (len (w_readyPart w) =? 0) && (len (w_pendingPart w) =? 0) then
    ret (w, None)
  else
    let w :=
      if len (w_pendingPart w) <? ChunkSize (w_driver w) then
        set_pendingPart (set_readyPart w (w_readyPart w ++ w_pendingPart w)) []
      else w in
    let partNumber := len (w_parts w) + 1 in
    let* r := Object_UploadPart (Client (w_driver w)) (w_key w) (w_uploadID w)
                                partNumber (w_readyPart w) in
    match r with
    | Err err => ret (w, Some err)
    | Ok resp =>
        let etag := Header_Get resp "Etag" in
        let w := set_parts w (w_parts w ++ [mkObject "" etag 0 partNumber ""]) in
        let w := set_readyPart w (w_pendingPart w) in
        let w := set_pendingPart w [] in
        ret (w, None)
    end.

(** The part list sent by the repair of [Write]: part number and entity
    tag of every recorded part. *)
Definition completeOptions (parts : list Object) : list Object :=
  map (fun p => mkObject "" (ETag p) 0 (PartNumber p) "") parts.

(** Modelled from the spec: [sort.Sort(cos.ObjectList(...))]; the SDK's
    [ObjectList] is not in the repository, and the spec has parts
    "sorted ascending by part number".  Insertion sort on [PartNumber]. *)
Fixpoint insertByPartNumber (o : Object) (l : list Object) : list Object :=
  match l with
  | [] => [o]
  | o' :: rest =>
      if PartNumber o <=? PartNumber o' then o :: l
      else o' :: insertByPartNumber o rest
  end.

Definition sortObjectList (l : list Object) : list Object :=
  fold_right insertByPartNumber [] l.

(** [len(w.parts) > 0 && int(w.parts[len(w.parts)-1].Size) < minChunkSize]
    (line 515). *)
Definition lastPartIsSmall (w : writer) : bool :=
  match last (w_parts w) with
  | Some part => Size part <? minChunkSize
  | None => false
  end.

(** The body of the repair (lines 516-556): [Some err] is [return 0, err]. *)
Definition repairUpload (w : writer) : M (writer * option error) :=
  let opt_Parts := sortObjectList (completeOptions (w_parts w)) in
  let* err := Object_CompleteMultipartUpload (Client (w_driver w)) (w_key w)
                                             (w_uploadID w) opt_Parts in
  match err with
  | Some err =>
      let* _ := Object_AbortMultipartUpload (Client (w_driver w)) (w_key w)
                                            (w_uploadID w) in
      ret (w, Some err)
  | None =>
      let* '(v, err) := Object_InitiateMultipartUpload (Client (w_driver w))
                                                       (w_key w) None in
      match err with
      | Some err => ret (w, Some err)
      | None =>
          match v with
          | None => panic
          | Some v =>
              let w := set_uploadID w (v_UploadID v) in
              if w_size w <? minChunkSize then
                let* r := Object_Get (Client (w_driver w)) (w_key w) None in
                match r with
                | Err err => ret (w, Some err)
                | Ok resp =>
                    let w := set_parts w [] in
                    let '(bs, err) := ReadAll (Body resp) in
                    let w := set_readyPart w bs in
                    ret (w, err)
                end
              else
                let* r := Object_UploadPartCopy (Client (w_driver w)) (v_Key v)
                                                (w_key w) (v_UploadID v) 1 None in
                match r with
                | Err err => ret (w, Some err)
                | Ok part => ret (set_parts w [part], None)
                end
          end
      end
  end.

(** The first half of the loop body of [Write] (lines 563-573): top up the
    ready buffer.  The buffers are compared with [int(w.driver.ChunkSize)];
    slice lengths are below [2^63], so these subtractions do not wrap for a
    chunk size that is not negative. *)
Definition fillReady (w : writer) (p : list byte) (n : Z) : writer * list byte * Z :=
  let neededBytes := ChunkSize (w_driver w) - len (w_readyPart w) in
  if 0 <? neededBytes then
    if neededBytes <=? len p then
      (set_readyPart w (w_readyPart w ++ take (Z.to_nat neededBytes) p),
       drop (Z.to_nat neededBytes) p, n + neededBytes)
    else
      (set_readyPart w (w_readyPart w ++ p), [], n + len p)
  else (w, p, n).

(** The loop of [Write] (lines 561-591), one unit of fuel per iteration of
    its body. *)
Fixpoint writeLoop (fuel : nat) (w : writer) (p : list byte) (n : Z)
  : M (writer * Z * option error) :=
  match p with
  | [] => ret (set_size w (wrap64 (w_size w + n)), n, None)
  | _ :: _ =>
      match fuel with
      | O => out_of_fuel
      | S fuel =>
          let '(w, p, n) := fillReady w p n in
          let neededBytes := ChunkSize (w_driver w) - len (w_pendingPart w) in
          if 0 <? neededBytes then
            if neededBytes <=? len p then
              let w := set_pendingPart w (w_pendingPart w ++ take (Z.to_nat neededBytes) p) in
              let n := n + neededBytes in
              let p := drop (Z.to_nat neededBytes) p in
              let* '(w, err) := flushPart w in
              match err with
              | Some err => ret (set_size w (wrap64 (w_size w + n)), n, Some err)
              | None => writeLoop fuel w p n
              end
            else
              let w := set_pendingPart w (w_pendingPart w ++ p) in
              writeLoop fuel w [] (n + len p)
          else writeLoop fuel w p n
      end
  end.

(** [Write] (lines 504-595) returns the writer as the call left it, the
    count [n] and the error. *)
Definition Write (fuel : nat) (w : writer) (p : list byte) : M (writer * Z * option error) :=
  if w_closed w then ret (w, 0, Some (Errorf "already closed"))
  else if w_committed w then ret (w, 0, Some (Errorf "already committed"))
  else if w_cancelled w then ret (w, 0, Some (Errorf "already cancelled"))
  else
    let* '(w, err) :=
      if lastPartIsSmall w then repairUpload w else ret (w, None) in
    match err with
    | Some err => ret (w, 0, Some err)
    | None => writeLoop fuel w p 0
    end.

(** [Close], [Cancel], [Commit] (lines 601-642). *)
Definition Close (w : writer) : M (writer * option error) :=
  if w_closed w then ret (w, Some (Errorf "already closed"))
  else flushPart (set_closed w true).

Definition Cancel (w : writer) : M (writer * option error) :=
  if w_closed w then ret (w, Some (Errorf "already closed"))
  else if w_committed w then ret (w, Some (Errorf "already committed"))
  else
    let w := set_cancelled w true in
    let* err := Object_AbortMultipartUpload (Client (w_driver w)) (w_key w)
                                            (w_uploadID w) in
    ret (w, err).

Definition Commit (w : writer) : M (writer * option error) :=
  if w_closed w then ret (w, Some (Errorf "already closed"))
  else if w_committed w then ret (w, Some (Errorf "already committed"))
  else if w_cancelled w then ret (w, Some (Errorf "already cancelled"))
  else
    let* '(w, err) := flushPart w in
    match err with
    | Some err => ret (w, Some err)
    | None =>
        let w := set_committed w true in
        let* err := Object_CompleteMultipartUpload (Client (w_driver w)) (w_key w)
                                                   (w_uploadID w) (w_parts w) in
        match err with
        | Some err =>
            let* _ := Object_AbortMultipartUpload (Client (w_driver w)) (w_key w)
                                                  (w_uploadID w) in
            ret (w, Some err)
        | None => ret (w, None)
        end
    end.

(** ** Metadata operations (cos.go, lines 344-443) and copy (lines 684-758) *)

(** [storagedriver.FileInfoFields]; [Time] stands for Go's [time.Time]. *)
Record FileInfoFields (Time : Type) : Type := mkFileInfoFields {
  fi_Path : string;
  fi_Size : Z;
  fi_ModTime : Time;
  fi_IsDir : bool
}.
Arguments mkFileInfoFields {Time} _ _ _ _.
Arguments fi_Path {Time} _.
Arguments fi_Size {Time} _.
Arguments fi_ModTime {Time} _.
Arguments fi_IsDir {Time} _.

(** [time.RFC3339Nano]. *)
Definition RFC3339Nano : string := "2006-01-02T15:04:05.999999999Z07:00".

(** [fmt.Sprintf("%d", z)]. *)
Definition formatInt (z : Z) : string := pretty z.

(** One way for the goroutines of [copy] to run.  Each of the [choices]
    names, among the goroutines that have not sent their request yet,
    taken in index order, the one whose request reaches the store next
    (counted modulo their number); when the choices run out the others
    follow in index order.  [patience] is the number of requests that
    still reach the store between the first failed request and the abort
    of the main goroutine, and [pick] says which of the errors sent on
    [errChan] the main goroutine receives first.  The limiter of capacity
    [multipartCopyMaxConcurrency] (line 718) bounds the number of requests
    in flight; a request and its answer are one step of the history, so
    the limiter puts no bound on the order, on [patience] or on [pick]. *)
Record Scheduler : Type := mkScheduler {
  choices : list nat;
  patience : nat;
  pick : nat
}.

(** The goroutines run one after the other in index order, and the main
    goroutine aborts at the first failure. *)
Definition inOrder : Scheduler := mkScheduler [] 0 0.

Fixpoint requestOrder (choices : list nat) (waiting : list Z) : list Z :=
  match choices with
  | [] => waiting
  | c :: cs =>
      let k := (c mod length waiting)%nat in
      match waiting !! k with
      | Some i => i :: requestOrder cs (delete k waiting)
      | None => waiting
      end
  end.

Section Metadata.

(** Go's [time] package: the zero [time.Time] and [time.Parse layout value]. *)
Context {Time : Type}.
Variable zeroTime : Time.
Variable time_Parse : string -> string -> Result Time.

(** The schedule of the goroutines of [copy]. *)
Variable sched : Scheduler.

(** [Stat] (lines 344-378). *)
Definition Stat (d : driver) (path : string) : M (Result (FileInfoFields Time)) :=
  let opt := mkBucketGetOptions (cosPath d path) "" "" 1 in
  let* r := Bucket_Get (Client d) opt in
  match r with
  | Err err => ret (Err err)
  | Ok listResponse =>
      match Contents listResponse with
      | [entry] =>
          if negb (String.eqb (Key entry) (cosPath d path)) then
            ret (Ok (mkFileInfoFields path 0 zeroTime true))
          else
            match time_Parse RFC3339Nano (LastModified entry) with
            | Err err => ret (Err err)
            | Ok timestamp => ret (Ok (mkFileInfoFields path (Size entry) timestamp false))
            end
      | _ =>
          match CommonPrefixes listResponse with
          | [_] => ret (Ok (mkFileInfoFields path 0 zeroTime true))
          | _ => ret (Err (PathNotFoundError path))
          end
      end
  end.

(** The body of one goroutine of [copy] (lines 723-741): the byte range of
    part [i] in [int64] arithmetic, and the part-copy request. *)
Definition firstByteOf (i : Z) : Z := wrap64 (i * multipartCopyChunkSize).

Definition lastByteOf (size i : Z) : Z :=
  let lastByte := wrap64 (wrap64 (firstByteOf i + multipartCopyChunkSize) - 1) in
  if size <=? lastByte then wrap64 (size - 1) else lastByte.

Definition copyPartOptions (d : driver) (sourcePath : string) (size i : Z)
  : CopyPartHeaderOptions :=
  mkCopyPartHeaderOptions
    (BucketURL_Host (Client d) +:+ "/" +:+ cosPath d sourcePath)
    ("bytes=" +:+ formatInt (firstByteOf i) +:+ "-" +:+ formatInt (lastByteOf size i)).

Definition copyPart (d : driver) (sourcePath destPath uploadID : string) (size i : Z)
  : M (Object * option error) :=
  let* r := Object_UploadPartCopy (Client d) (cosPath d destPath) (cosPath d sourcePath)
                                  uploadID (wrap64 (i + 1))
                                  (Some (copyPartOptions d sourcePath size i)) in
  match r with
  | Err err => ret (zeroObject, Some err)
  | Ok uploadResp => ret (mkObject "" (ETag uploadResp) 0 (wrap64 (i + 1)) "", None)
  end.

(** The goroutines of [copy] (lines 720-743) send their requests in an
    order that the Go scheduler decides, and the main goroutine stops at
    the first error it receives from [errChan] (lines 745-751), while
    goroutines may still be waiting.  [copyParts] sends the requests in
    the order [order]; once a request has failed, [left] counts the
    requests that still reach the store before the main goroutine sends
    its abort.  The result lists, for every request sent, the index, what
    the goroutine stored in [parts[i]] (the zero value after a failure)
    and what it sent on [errChan].  Requests that goroutines send after
    [copy] has returned are not part of the history of the call. *)
Fixpoint copyParts (d : driver) (sourcePath destPath uploadID : string) (size : Z)
    (patience : nat) (order : list Z) (left : option nat)
  : M (list (Z * Object * option error)) :=
  match order with
  | [] => ret []
  | i :: rest =>
      match left with
      | Some O => ret []
      | _ =>
          let* '(part, err) := copyPart d sourcePath destPath uploadID size i in
          let left :=
            match left, err with
            | Some n, _ => Some (Nat.pred n)
            | None, Some _ => Some patience
            | None, None => None
            end in
          let* results :=
            copyParts d sourcePath destPath uploadID size patience rest left in
          ret ((i, part, err) :: results)
      end
  end.

(** The error that the main goroutine receives first (lines 745-751): one
    of the errors sent, the one numbered [pick] among them when there are
    that many, else the first; [None] when every goroutine sent nil. *)
Definition receivedError (pick : nat) (results : list (Z * Object * option error))
  : option error :=
  let errs := omap snd results in
  match errs !! pick with
  | Some err => Some err
  | None => head errs
  end.

(** The [parts] array after the goroutines have run (line 715 and lines
    734-739). *)
Definition partsArray (results : list (Z * Object * option error)) (indices : list Z)
  : list Object :=
  map (fun i =>
         match List.find (fun r => Z.eqb (fst (fst r)) i) results with
         | Some (_, part, _) => part
         | None => zeroObject
         end)
      indices.

(** The indices [0 .. numParts-1] of [for i := range parts]. *)
Definition partIndices (numParts : Z) : list Z :=
  map Z.of_nat (seq 0 (Z.to_nat numParts)).

(** [copy] (lines 685-758).  [make] panics on a negative length; reading
    [createResp.UploadID] panics on a nil [createResp]. *)
Definition copy (d : driver) (sourcePath destPath : string) : M (option error) :=
  let* r := Stat d sourcePath in
  match r with
  | Err err => ret (Some err)
  | Ok fileInfo =>
      let soruceURL := BucketURL_Host (Client d) +:+ "/" +:+ sourcePath in
      if fi_Size fileInfo <=? multipartCopyThresholdSize then
        Object_Copy (Client d) (cosPath d destPath) soruceURL
      else
        let* '(createResp, err) :=
          Object_InitiateMultipartUpload (Client d) (cosPath d destPath)
            (Some (mkObjectPutHeaderOptions "private" "application/octet-stream")) in
        match err with
        | Some err => ret (Some err)
        | None =>
            let numParts :=
              Z.quot (wrap64 (wrap64 (fi_Size fileInfo + multipartCopyChunkSize) - 1))
                     multipartCopyChunkSize in
            if numParts <? 0 then panic
            else
              match createResp with
              | None => panic
              | Some createResp =>
                  let indices := partIndices numParts in
                  let* results :=
                    copyParts d sourcePath destPath (v_UploadID createResp)
                              (fi_Size fileInfo) (patience sched)
                              (requestOrder (choices sched) indices) None in
                  match receivedError (pick sched) results with
                  | Some err =>
                      let* _ := Object_AbortMultipartUpload (Client d) (cosPath d destPath)
                                                            (v_UploadID createResp) in
                      ret (Some err)
                  | None =>
                      Object_CompleteMultipartUpload (Client d) (cosPath d destPath)
                                                     (v_UploadID createResp)
                                                     (partsArray results indices)
                  end
              end
        end
  end.

(** [Move] (lines 380-388). *)
Definition Move (d : driver) (sourcePath destPath : string) : M (option error) :=
  let* err := copy d (cosPath d sourcePath) (cosPath d destPath) in
  match err with
  | Some _ => ret None
  | None => Object_Delete (Client d) (cosPath d sourcePath)
  end.

End Metadata.

(** [Delete] (lines 390-443). *)

(** [len(key) > len(cosPath) && key[len(cosPath)] != '/'] (line 408). *)
Definition notSubpath (cosPath key : string) : bool :=
  (slen cosPath <? slen key) &&
  match String.get (String.length cosPath) key with
  | Some a => negb (Ascii.eqb a "/")
  | None => false
  end.

Definition set_Key (o : Object) (k : string) : Object :=
  mkObject k (ETag o) (Size o) (PartNumber o) (LastModified o).

(** The inner loop over one page (lines 405-413), from position [index]:
    the new [numOssObjects] and [cosObjects], or [None] when
    [cosObjects[index]] is out of range. *)
Fixpoint scanPage (cosPath : string) (contents : list Object) (index : nat)
    (numOssObjects : Z) (cosObjects : list Object) : option (Z * list Object) :=
  match contents with
  | [] => Some (numOssObjects, cosObjects)
  | key :: rest =>
      if notSubpath cosPath (Key key) then Some (Z.of_nat index, cosObjects)
      else
        match cosObjects !! index with
        | None => None
        | Some o =>
            scanPage cosPath rest (S index) numOssObjects
                     (<[index := set_Key o (Key key)]> cosObjects)
        end
  end.

(** The outer loop (lines 404-441), one unit of fuel per page. *)
Fixpoint deletePages (fuel : nat) (d : driver) (path cosPath' : string)
    (contents : list Object) (cosObjects : list Object) : M (option error) :=
  match contents with
  | [] => ret None
  | _ :: _ =>
      match fuel with
      | O => out_of_fuel
      | S fuel =>
          match scanPage cosPath' contents 0 (len contents) cosObjects with
          | None => panic
          | Some (numOssObjects, cosObjects) =>
              let* err := Object_DeleteMulti (Client d)
                            (take (Z.to_nat numOssObjects) cosObjects) false in
              match err with
              | Some _ => ret None
              | None =>
                  if numOssObjects <? len contents then ret None
                  else
                    let* r := Bucket_Get (Client d)
                                (mkBucketGetOptions (cosPath d path) "" "" listMax) in
                    match r with
                    | Err err => ret (Some err)
                    | Ok listResponse =>
                        deletePages fuel d path cosPath' (Contents listResponse) cosObjects
                    end
              end
          end
      end
  end.

Definition Delete (fuel : nat) (d : driver) (path : string) : M (option error) :=
  let cosPath' := cosPath d path in
  let opt := mkBucketGetOptions cosPath' "" "" listMax in
  let* r := Bucket_Get (Client d) opt in
  match r with
  | Err _ => ret (Some (PathNotFoundError path))
  | Ok listResponse =>
      match Contents listResponse with
      | [] => ret (Some (PathNotFoundError path))
      | _ :: _ =>
          let cosObjects := replicate (Z.to_nat listMax) zeroObject in
          deletePages fuel d path cosPath' (Contents listResponse) cosObjects
      end
  end.

(** ** Sequences of writer calls *)

Inductive writerCall : Type :=
| DoWrite (p : list byte)
| DoClose
| DoCommit
| DoCancel.

(** One call on the writer: the writer afterwards and the error returned. *)
Definition callWriter (fuel : nat) (w : writer) (c : writerCall) : M (writer * option error) :=
  match c with
  | DoWrite p => let* '(w, _, err) := Write fuel w p in ret (w, err)
  | DoClose => Close w
  | DoCommit => Commit w
  | DoCancel => Cancel w
  end.

(** A sequence of calls on one writer, with the error each call returned. *)
Fixpoint callsWriter (fuel : nat) (w : writer) (cs : list writerCall)
  : M (writer * list (writerCall * option error)) :=
  match cs with
  | [] => ret (w, [])
  | c :: rest =>
      let* '(w, err) := callWriter fuel w c in
      let* '(w, results) := callsWriter fuel w rest in
      ret (w, (c, err) :: results)
  end.

(** A sequence of [Write] calls, with the count and error of each. *)
Fixpoint writeAll (fuel : nat) (w : writer) (ps : list (list byte))
  : M (writer * list (Z * option error)) :=
  match ps with
  | [] => ret (w, [])
  | p :: rest =>
      let* '(w, n, err) := Write fuel w p in
      let* '(w, results) := writeAll fuel w rest in
      ret (w, (n, err) :: results)
  end.

(** ** An in-memory store

    A transport that keeps objects and multipart uploads in memory and
    never fails for reasons of its own: the store against which the
    writer's multipart protocol is checked.  It accepts parts of any
    size, so that what the writer sends can be observed: [completions]
    lists, for every completed upload, the sizes of its parts in the
    order they were assembled.  Listing calls, single-shot copy and
    ranged requests are not part of it and answer with an error. *)

Record Upload : Type := mkUpload {
  up_key : string;
  up_parts : gmap Z (list byte)
}.

Record Store : Type := mkStore {
  objects : gmap string (list byte);
  uploads : gmap string Upload;
  counter : N;
  completions : list (list Z)
}.

Definition emptyStore : Store := mkStore ∅ ∅ 0 [].

Definition unsupported : error := ExternalError "NotImplemented".
Definition noSuchUpload : error := ExternalError "NoSuchUpload".
Definition noSuchKey : error := ExternalError "NoSuchKey".
Definition invalidPart : error := ExternalError "InvalidPart".

Definition etagOf (data : list byte) : string := "etag-" +:+ pretty (N.of_nat (length data)).

Definition etagResponse (etag : string) : Response :=
  mkResponse (fun name => if String.eqb name "Etag" then etag else "") (mkBody [] None).

(** The upload [uploadID], when it exists and was initiated for [key]. *)
Definition findUpload (s : Store) (key uploadID : string) : option Upload :=
  match uploads s !! uploadID with
  | Some u => if String.eqb (up_key u) key then Some u else None
  | None => None
  end.

Definition store_Initiate (s : Store) (key : string)
  : (option InitiateMultipartUploadResult * option error) * Store :=
  let uploadID := "upload-" +:+ pretty (counter s) in
  ((Some (mkInitiate key uploadID), None),
   mkStore (objects s) (<[uploadID := mkUpload key ∅]> (uploads s))
           (counter s + 1)%N (completions s)).

Definition store_UploadPart (s : Store) (key uploadID : string) (partNumber : Z)
    (body : list byte) : Result Response * Store :=
  match findUpload s key uploadID with
  | None => (Err noSuchUpload, s)
  | Some u =>
      (Ok (etagResponse (etagOf body)),
       mkStore (objects s)
               (<[uploadID := mkUpload key (<[partNumber := body]> (up_parts u))]> (uploads s))
               (counter s) (completions s))
  end.

Definition store_UploadPartCopy (s : Store) (dest source uploadID : string)
    (partNumber : Z) (opt : option CopyPartHeaderOptions) : Result Object * Store :=
  match opt with
  | Some _ => (Err unsupported, s)
  | None =>
      match findUpload s dest uploadID, objects s !! source with
      | Some u, Some data =>
          (Ok (mkObject "" (etagOf data) (len data) partNumber ""),
           mkStore (objects s)
                   (<[uploadID := mkUpload dest (<[partNumber := data]> (up_parts u))]> (uploads s))
                   (counter s) (completions s))
      | None, _ => (Err noSuchUpload, s)
      | _, None => (Err noSuchKey, s)
      end
  end.

Definition store_Complete (s : Store) (key uploadID : string) (parts : list Object)
  : option error * Store :=
  match findUpload s key uploadID with
  | None => (Some noSuchUpload, s)
  | Some u =>
      match mapM (fun part => up_parts u !! PartNumber part) parts with
      | None => (Some invalidPart, s)
      | Some datas =>
          (None,
           mkStore (<[key := concat datas]> (objects s)) (delete uploadID (uploads s))
                   (counter s) (completions s ++ [map len datas]))
      end
  end.

Definition store_Abort (s : Store) (key uploadID : string) : option error * Store :=
  match findUpload s key uploadID with
  | None => (Some noSuchUpload, s)
  | Some _ =>
      (None, mkStore (objects s) (delete uploadID (uploads s)) (counter s) (completions s))
  end.

Definition store_Get (s : Store) (key : string) (range : option string) : Result Response :=
  match range with
  | Some _ => Err unsupported
  | None =>
      match objects s !! key with
      | Some data => Ok (mkResponse (fun _ => "") (mkBody data None))
      | None => Err noSuchKey
      end
  end.

Definition store_Delete (s : Store) (key : string) : option error * Store :=
  (None, mkStore (delete key (objects s)) (uploads s) (counter s) (completions s)).

Definition store_DeleteMulti (s : Store) (objs : list Object) : option error * Store :=
  (None,
   mkStore (fold_right (fun o m => delete (Key o) m) (objects s) objs) (uploads s)
           (counter s) (completions s)).

(** The store after a call. *)
Definition store_step (s : Store) (c : Call) : Store :=
  match c with
  | Call_Object_Get _ _ => s
  | Call_Object_Delete key => snd (store_Delete s key)
  | Call_Object_DeleteMulti objs _ => snd (store_DeleteMulti s objs)
  | Call_Object_Copy _ _ => s
  | Call_Object_InitiateMultipartUpload key _ => snd (store_Initiate s key)
  | Call_Object_UploadPart key uploadID partNumber body =>
      snd (store_UploadPart s key uploadID partNumber body)
  | Call_Object_UploadPartCopy dest source uploadID partNumber opt =>
      snd (store_UploadPartCopy s dest source uploadID partNumber opt)
  | Call_Object_CompleteMultipartUpload key uploadID parts =>
      snd (store_Complete s key uploadID parts)
  | Call_Object_AbortMultipartUpload key uploadID => snd (store_Abort s key uploadID)
  | Call_Object_ListParts _ _ => s
  | Call_Bucket_ListMultipartUploads _ => s
  | Call_Bucket_Get _ => s
  end.

(** The store after a history of calls. *)
Definition replay (h : History) : Store := fold_left store_step h emptyStore.

Definition memClient : cos_Client :=
  mkClient "bucket.cos.example"
    (fun h key range => store_Get (replay h) key range)
    (fun h key => fst (store_Delete (replay h) key))
    (fun h objs _ => fst (store_DeleteMulti (replay h) objs))
    (fun _ _ _ => Some unsupported)
    (fun h key _ => fst (store_Initiate (replay h) key))
    (fun h key uploadID partNumber body =>
       fst (store_UploadPart (replay h) key uploadID partNumber body))
    (fun h dest source uploadID partNumber opt =>
       fst (store_UploadPartCopy (replay h) dest source uploadID partNumber opt))
    (fun h key uploadID parts => fst (store_Complete (replay h) key uploadID parts))
    (fun h key uploadID => fst (store_Abort (replay h) key uploadID))
    (fun _ _ _ => Err unsupported)
    (fun _ _ => Err unsupported)
    (fun _ _ => Err unsupported).

Definition memDriver (chunkSize : Z) : driver := mkDriver memClient "id" "key" "" chunkSize.

(** A completed upload obeys the minimum part size when every part but
    the last has at least [minChunkSize] bytes. *)
Definition nonFinalPartsLarge (sizes : list Z) : Prop :=
  Forall (fun size => minChunkSize <= size) (removelast sizes).

(** ** Transports with fixed answers *)

Definition transportError : error := ExternalError "connection reset".

(** Every call fails; [InitiateMultipartUpload] returns a nil result with
    its error. *)
Definition failingClient : cos_Client :=
  mkClient "bucket.cos.example"
    (fun _ _ _ => Err transportError)
    (fun _ _ => Some transportError)
    (fun _ _ _ => Some transportError)
    (fun _ _ _ => Some transportError)
    (fun _ _ _ => (None, Some transportError))
    (fun _ _ _ _ _ => Err transportError)
    (fun _ _ _ _ _ _ => Err transportError)
    (fun _ _ _ _ => Some transportError)
    (fun _ _ _ => Some transportError)
    (fun _ _ _ => Err transportError)
    (fun _ _ => Err transportError)
    (fun _ _ => Err transportError).

(** Listings answer with the given result, reads with the given response;
    every other call fails. *)
Definition listingClient (listing : BucketGetResult) (resp : Response) : cos_Client :=
  mkClient "bucket.cos.example"
    (fun _ _ _ => Ok resp)
    (fun _ _ => Some transportError)
    (fun _ _ _ => Some transportError)
    (fun _ _ _ => Some transportError)
    (fun _ _ _ => (None, Some transportError))
    (fun _ _ _ _ _ => Err transportError)
    (fun _ _ _ _ _ _ => Err transportError)
    (fun _ _ _ _ => Some transportError)
    (fun _ _ _ => Some transportError)
    (fun _ _ _ => Err transportError)
    (fun _ _ => Err transportError)
    (fun _ _ => Ok listing).

(** Every call succeeds; listings answer with the given result, and a
    multipart upload is always given the id "upload-0". *)
Definition agreeingClient (listing : BucketGetResult) : cos_Client :=
  mkClient "bucket.cos.example"
    (fun _ _ _ => Ok (mkResponse (fun _ => "") (mkBody [] None)))
    (fun _ _ => None)
    (fun _ _ _ => None)
    (fun _ _ _ => None)
    (fun _ key _ => (Some (mkInitiate key "upload-0"), None))
    (fun _ _ _ _ _ => Ok (etagResponse "etag"))
    (fun _ _ _ _ partNumber _ => Ok (mkObject "" "etag" 0 partNumber ""))
    (fun _ _ _ _ => None)
    (fun _ _ _ => None)
    (fun _ _ _ => Ok [])
    (fun _ _ => Ok [])
    (fun _ _ => Ok listing).

(** ** Vocabulary of the statements *)

(** The keys of a page that come before its first key that is not a
    subpath of the prefix. *)
Fixpoint accumulated (prefix : string) (contents : list Object) : list string :=
  match contents with
  | [] => []
  | key :: rest =>
      if notSubpath prefix (Key key) then [] else Key key :: accumulated prefix rest
  end.

(** A call that asks the store to delete the key [k]. *)
Definition deletesKey (k : string) (c : Call) : Prop :=
  match c with
  | Call_Object_DeleteMulti objs _ => In k (map Key objs)
  | Call_Object_Delete key => key = k
  | _ => False
  end.

Definition isUploadPart (c : Call) : Prop :=
  match c with
  | Call_Object_UploadPart _ _ _ _ => True
  | _ => False
  end.

Definition isListing (c : Call) : Prop :=
  match c with
  | Call_Bucket_Get _ => True
  | _ => False
  end.

(** An "already closed", "already committed" or "already cancelled" error. *)
Definition alreadyError (err : option error) : Prop :=
  err = Some (Errorf "already closed") \/
  err = Some (Errorf "already committed") \/
  err = Some (Errorf "already cancelled").

(** One of the three terminal flags is set. *)
Definition terminal (w : writer) : bool :=
  w_closed w || w_committed w || w_cancelled w.

(** The three flags of two writers agree. *)
Definition sameFlags (w w' : writer) : Prop :=
  w_closed w' = w_closed w /\ w_committed w' = w_committed w /\
  w_cancelled w' = w_cancelled w.

(** A flag that is set stays set. *)
Definition flagsKept (w w' : writer) : Prop :=
  (w_closed w = true -> w_closed w' = true) /\
  (w_committed w = true -> w_committed w' = true) /\
  (w_cancelled w = true -> w_cancelled w' = true).


(** A part of at least the minimum size. *)
Definition large (data : list byte) : Prop := minChunkSize <= len data.

(** The writer and the in-memory store agree: the writer's upload exists
    under the writer's key, every recorded part is stored there under its
    number with at least the minimum size, and the numbers leave room for
    the next part. *)
Definition recordedParts (w : writer) (s : Store) : Prop :=
  exists u,
    findUpload s (w_key w) (w_uploadID w) = Some u /\
    Forall (fun part =>
              PartNumber part <= len (w_parts w) /\
              exists data, up_parts u !! PartNumber part = Some data /\ large data)
           (w_parts w).

Definition writerInv (w : writer) (s : Store) : Prop :=
  Client (w_driver w) = memClient /\
  minChunkSize <= ChunkSize (w_driver w) /\
  terminal w = false /\
  len (w_pendingPart w) < ChunkSize (w_driver w) /\
  recordedParts w s.

(** The uploads completed between two states of the store all obey the
    minimum part size. *)
Definition completedSince (s s' : Store) (new : list (list Z)) : Prop :=
  completions s' = completions s ++ new /\ Forall nonFinalPartsLarge new.

(** The third call of the repair in [Write]. *)
Definition reseedCall (w : writer) (v : InitiateMultipartUploadResult) : Call :=
  if w_size w <? minChunkSize then Call_Object_Get (w_key w) None
  else Call_Object_UploadPartCopy (v_Key v) (w_key w) (v_UploadID v) 1 None.

(** ** What the writer has written

    The bytes a writer holds on the in-memory store: the recorded parts,
    as the store keeps them, followed by the two buffers. *)

(** The store keeps [datas] under the numbers of [parts], in that order. *)
Definition storedAs (u : Upload) (parts : list Object) (datas : list (list byte)) : Prop :=
  Forall2 (fun part data => up_parts u !! PartNumber part = Some data) parts datas.

(** The parts are numbered [k], [k+1], ... in the order of the list. *)
Fixpoint numberedFrom (k : Z) (parts : list Object) : Prop :=
  match parts with
  | [] => True
  | part :: rest => PartNumber part = k /\ numberedFrom (k + 1) rest
  end.

(** The writer is writable on the in-memory store and holds [data]: its
    parts are numbered from 1 and stored with at least the minimum size,
    the pending buffer is short of a chunk and empty unless the ready
    buffer is full, and parts and buffers together spell [data]. *)
Definition writerData (w : writer) (s : Store) (data : list byte) : Prop :=
  Client (w_driver w) = memClient /\
  minChunkSize <= ChunkSize (w_driver w) /\
  terminal w = false /\
  len (w_pendingPart w) < ChunkSize (w_driver w) /\
  (w_pendingPart w <> [] -> ChunkSize (w_driver w) <= len (w_readyPart w)) /\
  numberedFrom 1 (w_parts w) /\
  exists u datas,
    findUpload s (w_key w) (w_uploadID w) = Some u /\
    storedAs u (w_parts w) datas /\
    Forall large datas /\
    data = concat datas ++ w_readyPart w ++ w_pendingPart w.

(** The listing [parts] of an upload is truthful: the parts are numbered
    from 1 in the order of the list, the store keeps [datas] under their
    numbers, and every part is listed with the size of its data. *)
Definition listedAs (u : Upload) (parts : list Object) (datas : list (list byte)) : Prop :=
  numberedFrom 1 parts /\
  Forall2 (fun part data =>
             up_parts u !! PartNumber part = Some data /\ Size part = len data)
          parts datas.

(** ** Listing (cos.go, lines 276-342) *)

(** [s[len(s)-1]]; [None] is the index out of range of an empty string. *)
Fixpoint lastByte (s : string) : option ascii :=
  match s with
  | EmptyString => None
  | String a EmptyString => Some a
  | String _ rest => lastByte rest
  end.

(** [s[0:len(s)-1]]; [None] is the slice bound out of range of an empty
    string. *)
Fixpoint trimLastByte (s : string) : option string :=
  match s with
  | EmptyString => None
  | String a rest =>
      match rest with
      | EmptyString => Some EmptyString
      | String _ _ => option_map (String a) (trimLastByte rest)
      end
  end.

Fixpoint dropString (n : nat) (s : string) : string :=
  match n, s with
  | O, _ => s
  | S n, String _ rest => dropString n rest
  | S _, EmptyString => EmptyString
  end.

(** The leftmost occurrence of a non-empty [old] in [s] replaced by [new]. *)
Fixpoint replaceFirst (s old new : string) : string :=
  match s with
  | EmptyString => EmptyString
  | String a rest =>
      if String.prefix old s then new +:+ dropString (String.length old) s
      else String a (replaceFirst rest old new)
  end.

(** Go's [strings.Replace(s, old, new, 1)]: [s] itself when [old] and
    [new] are equal or [old] does not occur; an empty [old] matches at the
    start of [s]. *)
Definition strings_Replace1 (s old new : string) : string :=
  if String.eqb old new then s
  else
    match old with
    | EmptyString => new +:+ s
    | String _ _ => replaceFirst s old new
    end.

(** [strings.Replace(name, d.cosPath(""), prefix, 1)] (lines 306, 310, 329). *)
Definition listedName (d : driver) (prefix name : string) : string :=
  strings_Replace1 name (cosPath d "") prefix.

(** What one page adds to [files] (lines 305-307) and to [directories]
    (lines 309-311); [None] when a common prefix is empty. *)
Definition pageFiles (d : driver) (prefix : string) (page : BucketGetResult) : list string :=
  map (fun key => listedName d prefix (Key key)) (Contents page).

Definition pageDirectories (d : driver) (prefix : string) (page : BucketGetResult)
  : option (list string) :=
  mapM (fun commonPrefix => option_map (listedName d prefix) (trimLastByte commonPrefix))
       (CommonPrefixes page).

(** The loop over the pages (lines 304-326), one unit of fuel per page. *)
Fixpoint listLoop (fuel : nat) (d : driver) (cosPath' prefix : string)
    (listResponse : BucketGetResult) (files directories : list string)
  : M (Result (list string * list string)) :=
  match fuel with
  | O => out_of_fuel
  | S fuel =>
      let files := files ++ pageFiles d prefix listResponse in
      match pageDirectories d prefix listResponse with
      | None => panic
      | Some dirs =>
          let directories := directories ++ dirs in
          if IsTruncated listResponse then
            let* r := Bucket_Get (Client d)
                        (mkBucketGetOptions cosPath' "/" (NextMarker listResponse) listMax) in
            match r with
            | Err err => ret (Err err)
            | Ok listResponse => listLoop fuel d cosPath' prefix listResponse files directories
            end
          else ret (Ok (files, directories))
      end
  end.

(** Lines 328-341: the first file is dropped when it is the listed prefix
    itself; an empty result is a missing directory, except for "/". *)
Definition listResult (d : driver) (opath cosPath' prefix : string)
    (files directories : list string) : Result (list string) :=
  let files :=
    match files with
    | first :: rest => if String.eqb first (listedName d prefix cosPath') then rest else files
    | [] => files
    end in
  if negb (String.eqb opath "/") && (len files =? 0) && (len directories =? 0)
  then Err (PathNotFoundError opath)
  else Ok (files ++ directories).

(** Lines 277-280: the path with a "/" at its end. *)
Definition listPath (opath : string) : option string :=
  if String.eqb opath "/" then Some opath
  else
    match lastByte opath with
    | None => None
    | Some c => Some (if negb (Ascii.eqb c "/") then opath +:+ "/" else opath)
    end.

(** Lines 285-288. *)
Definition listPrefix (d : driver) : string :=
  if String.eqb (cosPath d "") "" then "/" else "".

Definition List (fuel : nat) (d : driver) (opath : string) : M (Result (list string)) :=
  match listPath opath with
  | None => panic
  | Some path =>
      let prefix := listPrefix d in
      let cosPath' := cosPath d path in
      let* r := Bucket_Get (Client d) (mkBucketGetOptions cosPath' "/" "" listMax) in
      match r with
      | Err err => ret (Err err)
      | Ok listResponse =>
          let* r := listLoop fuel d cosPath' prefix listResponse [] [] in
          match r with
          | Err err => ret (Err err)
          | Ok (files, directories) =>
              ret (listResult d opath cosPath' prefix files directories)
          end
      end
  end.

(** The pages a transport answers to the requests of one [List]: each is
    requested with the marker the page before it returned, and all but
    the last are truncated. *)
Fixpoint pagesAnswered (cl : cos_Client) (prefix marker : string) (h : History)
    (pages : list BucketGetResult) : Prop :=
  match pages with
  | [] => False
  | page :: rest =>
      let opt := mkBucketGetOptions prefix "/" marker listMax in
      answer_Bucket_Get cl h opt = Ok page /\
      match rest with
      | [] => IsTruncated page = false
      | _ :: _ =>
          IsTruncated page = true /\
          pagesAnswered cl prefix (NextMarker page) (h ++ [Call_Bucket_Get opt]) rest
      end
  end.

(** The requests for these pages. *)
Fixpoint listingCalls (prefix marker : string) (pages : list BucketGetResult) : list Call :=
  match pages with
  | [] => []
  | page :: rest =>
      Call_Bucket_Get (mkBucketGetOptions prefix "/" marker listMax) ::
      listingCalls prefix (NextMarker page) rest
  end.

(** A [Bucket.Get] for the given prefix with the delimiter "/" and at
    most [listMax] keys. *)
Definition listsUnder (prefix : string) (c : Call) : Prop :=
  exists marker, c = Call_Bucket_Get (mkBucketGetOptions prefix "/" marker listMax).

(** ** Reading from an offset (cos.go, lines 226-235) *)

(** [Reader]; [strconv.FormatInt(offset, 10)] is [formatInt]. *)
Definition Reader (d : driver) (path : string) (offset : Z) : M (Result ReadCloser) :=
  let range := "bytes=" +:+ formatInt offset +:+ "-" in
  let* r := Object_Get (Client d) (cosPath d path) (Some range) in
  match r with
  | Err err => ret (Err err)
  | Ok resp => ret (Ok (Body resp))
  end.

(** ** Construction from a parameter map (cos.go, lines 76-160) *)

Definition driverName : string := "cos".

Definition Name (d : driver) : string := driverName.

Definition getContentType (d : driver) : string := "application/octet-stream".

(** A value of Go's [interface{}] as the type switches of
    [FromParameters] see it.  [V_other] is a value of any other dynamic
    type, with the texts that [fmt.Sprint] and the verb [%#v] print for
    it. *)
Inductive Value : Type :=
| V_nil
| V_string (s : string)
| V_bool (b : bool)
| V_int64 (z : Z)
| V_int (z : Z)
| V_uint (z : Z)
| V_int32 (z : Z)
| V_uint32 (z : Z)
| V_uint64 (z : Z)
| V_other (text goSyntax : string).

Definition formatBool (b : bool) : string := if b then "true" else "false".

(** [fmt.Sprint] of one value. *)
Definition Sprint (v : Value) : string :=
  match v with
  | V_nil => "<nil>"
  | V_string s => s
  | V_bool b => formatBool b
  | V_int64 z | V_int z | V_uint z | V_int32 z | V_uint32 z | V_uint64 z => formatInt z
  | V_other text _ => text
  end.

(** [strconv.ParseBool]. *)
Definition ParseBool (str : string) : option bool :=
  if existsb (String.eqb str) ["1"; "t"; "T"; "true"; "TRUE"; "True"]%string then Some true
  else if existsb (String.eqb str) ["0"; "f"; "F"; "false"; "FALSE"; "False"]%string
       then Some false
       else None.

Section Construction.

(** [cos.NewClient] as in [New], and [strconv.ParseInt(v, 0, 64)]. *)
Variable NewClient : string -> string -> bool -> string -> string -> cos_Client.
Variable ParseInt : string -> Result Z.

(** Lines 110-125. *)
Definition secureOf (parameters : gmap string Value) : Result bool :=
  match parameters !! "secure" with
  | Some (V_string secure) =>
      match ParseBool secure with
      | None => Err (Errorf "the secure parameter should be a boolean")
      | Some b => Ok b
      end
  | Some (V_bool secure) => Ok secure
  | None | Some V_nil => Ok true
  | Some _ => Err (Errorf "the secure parameter should be a boolean")
  end.

(** Lines 127-148. *)
Definition chunkSizeOf (parameters : gmap string Value) : Result Z :=
  match parameters !! "chunksize" with
  | None => Ok defaultChunkSize
  | Some chunkSizeParam =>
      let checked (chunkSize : Z) : Result Z :=
        if chunkSize <? minChunkSize then
          Err (Errorf ("The chunksize " +:+ formatInt chunkSize +:+
                       " parameter should be a number that is larger than or equal to " +:+
                       formatInt minChunkSize))
        else Ok chunkSize in
      let invalid (goSyntax : string) : Result Z :=
        Err (Errorf ("invalid valud for chunksize: " +:+ goSyntax)) in
      match chunkSizeParam with
      | V_string v =>
          match ParseInt v with
          | Err _ =>
              Err (Errorf ("chunksize parameter must be an integer, " +:+ v +:+ " invalid"))
          | Ok vv => checked vv
          end
      | V_int64 v => checked v
      | V_int v | V_uint v | V_int32 v | V_uint32 v | V_uint64 v => checked (wrap64 v)
      | V_nil => invalid "<nil>"
      | V_bool b => invalid (formatBool b)
      | V_other _ goSyntax => invalid goSyntax
      end
  end.

(** [FromParameters] (lines 92-160); [Create] (lines 76-78) is the same
    function. *)
Definition FromParameters (parameters : gmap string Value) : Result driver :=
  match parameters !! "secretid" with
  | None => Err (Errorf "No secretid parameter provided")
  | Some secretID =>
      match parameters !! "secretkey" with
      | None => Err (Errorf "No secretkey parameter provided")
      | Some secretKey =>
          match parameters !! "region" with
          | None => Err (Errorf "No region parameter provided")
          | Some regionName =>
              if String.eqb (Sprint regionName) "" then
                Err (Errorf "No region parameter provided")
              else
                match parameters !! "bucket" with
                | None => Err (Errorf "No bucket parameter provided")
                | Some bucket =>
                    if String.eqb (Sprint bucket) "" then
                      Err (Errorf "No bucket parameter provided")
                    else
                      match secureOf parameters with
                      | Err err => Err err
                      | Ok secureBool =>
                          match chunkSizeOf parameters with
                          | Err err => Err err
                          | Ok chunkSize =>
                              let params :=
                                mkDriverParameters (Sprint secretID) (Sprint secretKey)
                                  (Sprint bucket) (Sprint regionName) secureBool
                                  chunkSize "" in
                              match New NewClient params with
                              | (d, None) => Ok d
                              | (_, Some err) => Err err
                              end
                          end
                      end
                end
          end
      end
  end.

Definition Create (parameters : gmap string Value) : Result driver :=
  FromParameters parameters.

End Construction.

(** ** Signed URLs (cos.go, lines 445-471) *)

(** A value of the options map as [URLFor] sees it: a string, a
    [time.Time] (in nanoseconds), or a value of another type. *)
Inductive OptionValue : Type :=
| O_string (s : string)
| O_time (t : Z)
| O_other.

(** The results of [URLFor]: the signed URL, [ErrUnsupportedMethod], or
    the error of the signing function. *)
Inductive URLForResult : Type :=
| SignedURL (url : string)
| ErrUnsupportedMethod
| SigningError (err : error).

(** [20 * time.Minute], in nanoseconds. *)
Definition twentyMinutes : Z := 20 * 60 * 1000000000.

Definition minInt64 : Z := - 2 ^ 63.

(** [t.Sub(u)]: the difference in nanoseconds, or the largest or smallest
    [time.Duration] when the difference does not fit. *)
Definition time_Sub (t u : Z) : Z := Z.max minInt64 (Z.min maxInt64 (t - u)).

Section SignedURLs.

(** [d.Client.Object.GetPresignedURL] with the method, the key, the two
    secrets and the duration; it computes a signature and sends nothing. *)
Variable GetPresignedURL : string -> string -> string -> string -> Z -> Result string.

(** Lines 446-453: [None] is [ErrUnsupportedMethod]. *)
Definition methodOf (options : gmap string OptionValue) : option string :=
  match options !! "method" with
  | None => Some "GET"
  | Some (O_string methodString) =>
      if negb (String.eqb methodString "GET") && negb (String.eqb methodString "HEAD")
      then None
      else Some methodString
  | Some _ => None
  end.

(** Lines 454-463, at the time [now]. *)
Definition durationOf (now : Z) (options : gmap string OptionValue) : Z :=
  let expiresTime :=
    match options !! "expiry" with
    | Some (O_time et) => et
    | _ => now + twentyMinutes
    end in
  time_Sub expiresTime now.

Definition URLFor (now : Z) (d : driver) (path : string)
    (options : gmap string OptionValue) : URLForResult :=
  match methodOf options with
  | None => ErrUnsupportedMethod
  | Some methodString =>
      match GetPresignedURL methodString (cosPath d path) (SecretID d) (SecretKey d)
                            (durationOf now options) with
      | Err err => SigningError err
      | Ok url => SignedURL url
      end
  end.

End SignedURLs.

(** ** Vocabulary of the listing statements *)

(** A string without its last byte; the empty string stays empty. *)
Definition dropLastByte (s : string) : string :=
  match trimLastByte s with
  | Some t => t
  | None => EmptyString
  end.

(** The directory names of one page whose common prefixes are not empty. *)
Definition pageDirs (d : driver) (prefix : string) (page : BucketGetResult) : list string :=
  map (fun commonPrefix => listedName d prefix (dropLastByte commonPrefix))
      (CommonPrefixes page).

Definition startsWithSlash (name : string) : Prop := String.prefix "/" name = true.

(** ** Signers and stores of the examples *)

(** A signer that shows what it was asked to sign. *)
Definition echoSigner (methodString key secretID secretKey : string) (duration : Z)
  : Result string :=
  Ok (methodString +:+ " " +:+ key +:+ " " +:+ secretID +:+ " " +:+ secretKey +:+ " " +:+
      formatInt duration).

(** The store that accepts every part copy but those numbered [refused]. *)
Definition refusingClient (listing : BucketGetResult) (refused : Z) : cos_Client :=
  mkClient "bucket.cos.example"
    (fun _ _ _ => Err transportError) (fun _ _ => None) (fun _ _ _ => None)
    (fun _ _ _ => None) (fun _ key _ => (Some (mkInitiate key "upload-0"), None))
    (fun _ _ _ _ _ => Err transportError)
    (fun _ _ _ _ partNumber _ =>
       if partNumber =? refused then Err transportError
       else Ok (mkObject "" "etag" 0 partNumber ""))
    (fun _ _ _ _ => None) (fun _ _ _ => None)
    (fun _ _ _ => Err transportError) (fun _ _ => Err transportError)
    (fun _ _ => Ok listing).

(** ** Path mapping: properties *)

Example TrimLeft_slashes : TrimLeft "//a/b/" "/" = "a/b/".
Proof. reflexivity. Qed.

Example TrimRight_slashes : TrimRight "/root//" "/" = "/root".
Proof. reflexivity. Qed.

Lemma TrimLeft_idempotent (s cutset : string) :
  TrimLeft (TrimLeft s cutset) cutset = TrimLeft s cutset.
Proof.
  induction s as [|a rest IH]; simpl; [reflexivity|].
  destruct (inCutset a cutset) eqn:Ha; [exact IH|].
  simpl. rewrite Ha. reflexivity.
Qed.

Lemma cosPath_empty_root (d : driver) (path : string) :
  RootDirectory d = "" -> cosPath d path = TrimLeft path "/".
Proof. intros Hroot. unfold cosPath. rewrite Hroot. reflexivity. Qed.

(** C9. The key of a path is [TrimLeft (TrimRight root "/" ++ path) "/"],
    a function of the driver's root directory and the path alone (it is
    not a computation over the call history); and for the driver that
    [New] constructs, whose root directory is the empty string, mapping a
    path twice gives the same key as mapping it once. *)
Theorem cosPath_pure_idempotent :
  (forall (d : driver) (path : string),
      cosPath d path = TrimLeft (TrimRight (RootDirectory d) "/" ++ path) "/") /\
  (forall NewClient (params : DriverParameters) (path : string),
      let d := fst (New NewClient params) in
      snd (New NewClient params) = None /\
      RootDirectory d = "" /\
      cosPath d (cosPath d path) = cosPath d path).
Proof.
  split; [reflexivity|].
  intros NewClient params path d.
  split; [reflexivity|]. split; [reflexivity|].
  rewrite !(cosPath_empty_root d) by reflexivity.
  apply TrimLeft_idempotent.
Qed.
(** ** Computations: basic facts *)

Lemma bind_Done {A B : Type} (m : M A) (f : A -> M B) (h h' : History) (a : A) :
  m h = Done a h' -> bind m f h = f a h'.
Proof. intros Hm. unfold bind. rewrite Hm. reflexivity. Qed.

Lemma bind_issue {A B : Type} (answer : History -> A) (c : Call) (f : A -> M B) (h : History) :
  bind (issue answer c) f h = f (answer h) (h ++ [c]).
Proof. reflexivity. Qed.

Lemma bind_ret {A B : Type} (a : A) (f : A -> M B) (h : History) :
  bind (ret a) f h = f a h.
Proof. reflexivity. Qed.

(** Unfolds the SDK wrappers so that [bind_issue] applies. *)
Ltac sdk :=
  unfold Object_Get, Object_Delete, Object_DeleteMulti, Object_Copy,
    Object_InitiateMultipartUpload, Object_UploadPart, Object_UploadPartCopy,
    Object_CompleteMultipartUpload, Object_AbortMultipartUpload, Object_ListParts,
    Bucket_ListMultipartUploads, Bucket_Get in *.

Ltac step := sdk; repeat (rewrite ?bind_issue, ?bind_ret; cbv beta iota).

Lemma writer_eta (w : writer) :
  mkWriter (w_driver w) (w_key w) (w_uploadID w) (w_parts w) (w_size w) (w_readyPart w)
           (w_pendingPart w) (w_closed w) (w_committed w) (w_cancelled w) = w.
Proof. destruct w; reflexivity. Qed.

(** ** Writer construction *)

Lemma Writer_unfold (d : driver) (path : string) (h : History) :
  Writer d path false h =
  let key := cosPath d path in
  let h' := h ++ [Call_Object_InitiateMultipartUpload key None] in
  match answer_Object_InitiateMultipartUpload (Client d) h key None with
  | (None, _) => Panic h'
  | (Some multi, Some err) => Done (Err err) h'
  | (Some multi, None) => Done (Ok (newWriter d key (v_UploadID multi) [])) h'
  end.
Proof.
  unfold Writer. cbn [negb]. cbv zeta. step.
  destruct (answer_Object_InitiateMultipartUpload (Client d) h (cosPath d path) None)
    as [[multi|] [err|]]; reflexivity.
Qed.

(** C10. [Writer] without [append] issues one [InitiateMultipartUpload]
    and reads the upload id from the returned pointer before it looks at
    the error: when the pointer is nil the call panics, whatever the
    error; the error is returned only when the pointer is not nil. *)
Theorem Writer_reads_upload_id_before_error (d : driver) (path : string) (h : History) :
  let key := cosPath d path in
  let h' := h ++ [Call_Object_InitiateMultipartUpload key None] in
  match answer_Object_InitiateMultipartUpload (Client d) h key None with
  | (None, _) => Writer d path false h = Panic h'
  | (Some multi, Some err) => Writer d path false h = Done (Err err) h'
  | (Some multi, None) =>
      Writer d path false h = Done (Ok (newWriter d key (v_UploadID multi) [])) h'
  end.
Proof.
  intros key h'. rewrite Writer_unfold. cbv zeta. fold key h'.
  destruct (answer_Object_InitiateMultipartUpload (Client d) h key None) as [[multi|] [err|]];
    reflexivity.
Qed.

(** The failing input of C10: the transport fails and returns no result. *)
Example Writer_panics_on_failed_initiate :
  Writer (mkDriver failingClient "id" "key" "" defaultChunkSize) "/blob" false [] =
  Panic [Call_Object_InitiateMultipartUpload "blob" None].
Proof. reflexivity. Qed.

(** ** Reading content *)

Lemma GetContent_ok (d : driver) (path : string) (h : History) (resp : Response) :
  answer_Object_Get (Client d) h (cosPath d path) None = Ok resp ->
  GetContent d path h =
  Done (body_data (Body resp), None) (h ++ [Call_Object_Get (cosPath d path) None]).
Proof. intros Hget. unfold GetContent. step. rewrite Hget. reflexivity. Qed.

(** ** Stat *)

Section StatProperties.
Context {Time : Type}.
Variable zeroTime : Time.
Variable time_Parse : string -> string -> Result Time.
Variable sched : Scheduler.

Lemma Stat_unfold (d : driver) (path : string) (h : History) :
  Stat zeroTime time_Parse d path h =
  let h' := h ++ [Call_Bucket_Get (mkBucketGetOptions (cosPath d path) "" "" 1)] in
  match answer_Bucket_Get (Client d) h (mkBucketGetOptions (cosPath d path) "" "" 1) with
  | Err err => Done (Err err) h'
  | Ok listResponse =>
      match Contents listResponse with
      | [entry] =>
          if negb (String.eqb (Key entry) (cosPath d path)) then
            Done (Ok (mkFileInfoFields path 0 zeroTime true)) h'
          else
            match time_Parse RFC3339Nano (LastModified entry) with
            | Err err => Done (Err err) h'
            | Ok timestamp => Done (Ok (mkFileInfoFields path (Size entry) timestamp false)) h'
            end
      | _ =>
          match CommonPrefixes listResponse with
          | [_] => Done (Ok (mkFileInfoFields path 0 zeroTime true)) h'
          | _ => Done (Err (PathNotFoundError path)) h'
          end
      end
  end.
Proof.
  unfold Stat. step.
  destruct (answer_Bucket_Get _ _ _) as [listResponse|err]; [|reflexivity].
  destruct (Contents listResponse) as [|entry [|entry' rest]].
  - destruct (CommonPrefixes listResponse) as [|x [|y l]]; reflexivity.
  - destruct (negb _); [reflexivity|].
    destruct (time_Parse _ _); reflexivity.
  - destruct (CommonPrefixes listResponse) as [|x [|y l]]; reflexivity.
Qed.

(** C8. [Stat] issues one listing with the mapped path as prefix and a
    limit of one key.  When the listing fails, [Stat] returns its error.
    Otherwise: one key equal to the mapped path gives a file with the
    entry's size and its [LastModified] parsed against [RFC3339Nano], or
    the parse error; one key that differs gives a directory; with a
    number of keys other than one, exactly one common prefix gives a
    directory and anything else is not-found. *)
Theorem Stat_cases (d : driver) (path : string) (h : History) (listing : BucketGetResult) :
  let opt := mkBucketGetOptions (cosPath d path) "" "" 1 in
  let h' := h ++ [Call_Bucket_Get opt] in
  let directory := mkFileInfoFields path 0 zeroTime true in
  answer_Bucket_Get (Client d) h opt = Ok listing ->
  (forall entry, Contents listing = [entry] -> Key entry = cosPath d path ->
     Stat zeroTime time_Parse d path h =
     match time_Parse RFC3339Nano (LastModified entry) with
     | Ok timestamp => Done (Ok (mkFileInfoFields path (Size entry) timestamp false)) h'
     | Err err => Done (Err err) h'
     end) /\
  (forall entry, Contents listing = [entry] -> Key entry <> cosPath d path ->
     Stat zeroTime time_Parse d path h = Done (Ok directory) h') /\
  (length (Contents listing) <> 1%nat -> length (CommonPrefixes listing) = 1%nat ->
     Stat zeroTime time_Parse d path h = Done (Ok directory) h') /\
  (length (Contents listing) <> 1%nat -> length (CommonPrefixes listing) <> 1%nat ->
     Stat zeroTime time_Parse d path h = Done (Err (PathNotFoundError path)) h').
Proof.
  intros opt h' directory Hlist.
  rewrite Stat_unfold. fold opt. rewrite Hlist. cbv zeta. fold h'.
  repeat split.
  - intros entry Hc Hk. rewrite Hc.
    rewrite (proj2 (String.eqb_eq _ _) Hk). simpl.
    destruct (time_Parse _ _); reflexivity.
  - intros entry Hc Hk. rewrite Hc.
    rewrite (proj2 (String.eqb_neq _ _) Hk). reflexivity.
  - intros Hc Hp.
    destruct (CommonPrefixes listing) as [|x [|y l]]; try discriminate Hp.
    destruct (Contents listing) as [|e [|e' rest]]; try reflexivity.
    exfalso. apply Hc. reflexivity.
  - intros Hc Hp.
    destruct (Contents listing) as [|e [|e' rest]];
      [| exfalso; apply Hc; reflexivity |];
      destruct (CommonPrefixes listing) as [|x [|y l]]; try reflexivity;
      exfalso; apply Hp; reflexivity.
Qed.

Lemma Stat_error (d : driver) (path : string) (h : History) (err : error) :
  let opt := mkBucketGetOptions (cosPath d path) "" "" 1 in
  answer_Bucket_Get (Client d) h opt = Err err ->
  Stat zeroTime time_Parse d path h = Done (Err err) (h ++ [Call_Bucket_Get opt]).
Proof. intros opt Hlist. rewrite Stat_unfold. fold opt. rewrite Hlist. reflexivity. Qed.

(** ** Move *)

(** C3. What [Move] does after its copy: when the copy returned an error,
    [Move] issues no further call, so the source is not deleted, and
    returns nil; when the copy succeeded, [Move] issues one [Delete] of
    the source key and returns its error. *)
Theorem Move_after_copy (d : driver) (sourcePath destPath : string) (h : History) :
  match copy zeroTime time_Parse sched d (cosPath d sourcePath) (cosPath d destPath) h with
  | Done (Some _) h' => Move zeroTime time_Parse sched d sourcePath destPath h = Done None h'
  | Done None h' =>
      Move zeroTime time_Parse sched d sourcePath destPath h =
      Done (answer_Object_Delete (Client d) h' (cosPath d sourcePath))
           (h' ++ [Call_Object_Delete (cosPath d sourcePath)])
  | Panic h' => Move zeroTime time_Parse sched d sourcePath destPath h = Panic h'
  | OutOfFuel h' => Move zeroTime time_Parse sched d sourcePath destPath h = OutOfFuel h'
  end.
Proof.
  unfold Move, bind.
  destruct (copy _ _ _ _ _ _ _) as [[err|] h'|h'|h']; reflexivity.
Qed.

End StatProperties.

(** The failing input of C3: the listing behind the copy's [Stat] fails,
    the copy returns that error, and [Move] returns nil. *)
Example Move_returns_nil_when_copy_fails :
  let d := mkDriver failingClient "id" "key" "" defaultChunkSize in
  let time_Parse := fun _ s : string => Ok s in
  copy "" time_Parse inOrder d (cosPath d "/source") (cosPath d "/dest") [] =
    Done (Some transportError) [Call_Bucket_Get (mkBucketGetOptions "source" "" "" 1)] /\
  Move "" time_Parse inOrder d "/source" "/dest" [] =
    Done None [Call_Bucket_Get (mkBucketGetOptions "source" "" "" 1)].
Proof. split; reflexivity. Qed.

(** A file entry named "test" of eight bytes. *)
Lemma Stat_cases_witness :
  let entry := mkObject "test" "" 8 0 "2019-01-01T00:00:00Z" in
  let listing := mkBucketGetResult [entry] [] false "" in
  let d := mkDriver (agreeingClient listing) "id" "key" "" defaultChunkSize in
  Stat "" (fun _ s => Ok s) d "/test" [] =
  Done (Ok (mkFileInfoFields "/test" 8 "2019-01-01T00:00:00Z" false))
       [Call_Bucket_Get (mkBucketGetOptions "test" "" "" 1)].
Proof.
  intros entry listing d.
  exact (proj1 (Stat_cases "" (fun _ s => Ok s) d "/test" [] listing eq_refl)
               entry eq_refl eq_refl).
Defined.

(** ** Delete *)

Lemma In_take_le {A : Type} (x : A) (l : list A) :
  forall a b : nat, (a <= b)%nat -> In x (take a l) -> In x (take b l).
Proof.
  induction l as [|y l IH]; intros a b Hle Hin.
  - destruct a; contradiction.
  - destruct a as [|a]; [contradiction|].
    destruct b as [|b]; [lia|].
    simpl in *. destruct Hin as [->|Hin]; [auto|].
    right. apply (IH a b); [lia|exact Hin].
Qed.

Lemma accumulated_subpaths (prefix : string) (contents : list Object) :
  Forall (fun k => notSubpath prefix k = false) (accumulated prefix contents).
Proof.
  induction contents as [|key rest IH]; simpl; [constructor|].
  destruct (notSubpath prefix (Key key)) eqn:Hk; [constructor|].
  constructor; assumption.
Qed.

Lemma accumulated_length (prefix : string) (contents : list Object) :
  (length (accumulated prefix contents) <= length contents)%nat.
Proof.
  induction contents as [|key rest IH]; simpl; [lia|].
  destruct (notSubpath prefix (Key key)); simpl; lia.
Qed.

(** The inner loop: the slots below the returned count hold the slots that
    were already filled followed by the accumulated keys of the page. *)
Lemma scanPage_spec (prefix : string) (contents : list Object) :
  forall (index : nat) (num : Z) (objs : list Object) (num' : Z) (objs' : list Object),
    scanPage prefix contents index num objs = Some (num', objs') ->
    length objs' = length objs /\
    map Key (take (index + length (accumulated prefix contents)) objs') =
      map Key (take index objs) ++ accumulated prefix contents /\
    num' = (if (length (accumulated prefix contents) =? length contents)%nat
            then num
            else Z.of_nat (index + length (accumulated prefix contents))).
Proof.
  induction contents as [|key rest IH]; intros index num objs num' objs' Hscan; simpl in Hscan.
  - inversion Hscan; subst. simpl. rewrite Nat.add_0_r, app_nil_r. auto.
  - simpl. destruct (notSubpath prefix (Key key)) eqn:Hk.
    + inversion Hscan; subst. simpl. rewrite Nat.add_0_r, app_nil_r. auto.
    + destruct (objs !! index) as [o|] eqn:Ho; [|discriminate].
      apply IH in Hscan as (Hlen & Hkeys & Hnum).
      rewrite length_insert in Hlen.
      assert (Hlt : (index < length objs)%nat) by (eapply lookup_lt_Some; eauto).
      split; [exact Hlen|]. split.
      * simpl. replace (index + S (length (accumulated prefix rest)))%nat
          with (S index + length (accumulated prefix rest))%nat by lia.
        rewrite Hkeys.
        rewrite (take_S_r _ _ (set_Key o (Key key))).
        2:{ apply list_lookup_insert_eq. exact Hlt. }
        rewrite take_insert_ge by lia.
        rewrite map_app. simpl. rewrite <- app_assoc. reflexivity.
      * rewrite Hnum. simpl length.
        pose proof (accumulated_length prefix rest) as Hle.
        destruct (Nat.eqb_spec (length (accumulated prefix rest)) (length rest)) as [E|E].
        -- rewrite E. rewrite Nat.eqb_refl. reflexivity.
        -- destruct (Nat.eqb_spec (S (length (accumulated prefix rest))) (S (length rest)));
             [lia|]. f_equal. lia.
Qed.

Lemma scanPage_total (prefix : string) (contents : list Object) :
  forall (index : nat) (num : Z) (objs : list Object),
    (index + length contents <= length objs)%nat ->
    exists r, scanPage prefix contents index num objs = Some r.
Proof.
  induction contents as [|key rest IH]; intros index num objs Hlen; simpl.
  - eauto.
  - destruct (notSubpath prefix (Key key)); [eauto|].
    simpl in Hlen.
    destruct (lookup_lt_is_Some_2 objs index) as [o Ho]; [lia|].
    rewrite Ho. apply IH. rewrite length_insert. lia.
Qed.

(** One page, scanned from a clean start: the number of keys to delete and
    the keys in the slots below it. *)
Lemma scanPage_page (prefix : string) (contents objs : list Object) :
  (length contents <= length objs)%nat ->
  exists objs',
    scanPage prefix contents 0 (len contents) objs =
      Some (len (accumulated prefix contents), objs') /\
    length objs' = length objs /\
    map Key (take (Z.to_nat (len (accumulated prefix contents))) objs') =
      accumulated prefix contents.
Proof.
  intros Hlen.
  destruct (scanPage_total prefix contents 0 (len contents) objs) as [[num' objs'] Hscan];
    [simpl; lia|].
  pose proof (scanPage_spec _ _ _ _ _ _ _ Hscan) as (Hl & Hkeys & Hnum).
  exists objs'. simpl in Hkeys.
  split; [|split; [exact Hl|unfold len; rewrite Nat2Z.id; exact Hkeys]].
  rewrite Hscan. f_equal. f_equal. rewrite Hnum. unfold len.
  destruct (Nat.eqb_spec (length (accumulated prefix contents)) (length contents)) as [E|E].
  - rewrite E. reflexivity.
  - reflexivity.
Qed.

Lemma Delete_unfold (fuel : nat) (d : driver) (path : string) (h : History) :
  Delete fuel d path h =
  let opt := mkBucketGetOptions (cosPath d path) "" "" listMax in
  let h1 := h ++ [Call_Bucket_Get opt] in
  match answer_Bucket_Get (Client d) h opt with
  | Err _ => Done (Some (PathNotFoundError path)) h1
  | Ok listing =>
      match Contents listing with
      | [] => Done (Some (PathNotFoundError path)) h1
      | _ :: _ =>
          deletePages fuel d path (cosPath d path) (Contents listing)
                      (replicate (Z.to_nat listMax) zeroObject) h1
      end
  end.
Proof.
  unfold Delete. cbv zeta. step.
  destruct (answer_Bucket_Get _ _ _) as [listing|err]; [|reflexivity].
  destruct (Contents listing); reflexivity.
Qed.

Lemma deletePages_unfold (fuel : nat) (d : driver) (path prefix : string)
    (key : Object) (rest objs : list Object) (h : History) :
  deletePages (S fuel) d path prefix (key :: rest) objs h =
  match scanPage prefix (key :: rest) 0 (len (key :: rest)) objs with
  | None => Panic h
  | Some (num, objs') =>
      let deleted := take (Z.to_nat num) objs' in
      let h1 := h ++ [Call_Object_DeleteMulti deleted false] in
      match answer_Object_DeleteMulti (Client d) h deleted false with
      | Some _ => Done None h1
      | None =>
          if num <? len (key :: rest) then Done None h1
          else
            let opt := mkBucketGetOptions (cosPath d path) "" "" listMax in
            match answer_Bucket_Get (Client d) h1 opt with
            | Err err => Done (Some err) (h1 ++ [Call_Bucket_Get opt])
            | Ok listing =>
                deletePages fuel d path prefix (Contents listing) objs'
                            (h1 ++ [Call_Bucket_Get opt])
            end
      end
  end.
Proof.
  cbn [deletePages].
  destruct (scanPage _ _ _ _ _) as [[num objs']|]; [|reflexivity].
  step. destruct (answer_Object_DeleteMulti _ _ _ _); [reflexivity|].
  destruct (num <? _); [reflexivity|].
  step. destruct (answer_Bucket_Get _ _ _); reflexivity.
Qed.

(** No call of [deletePages] deletes a key that is not a subpath. *)
Lemma deletePages_calls (d : driver) (path prefix : string) (fuel : nat) :
  forall (contents objs : list Object) (h : History),
  exists calls,
    history_of (deletePages fuel d path prefix contents objs h) = h ++ calls /\
    forall k c, In c calls -> deletesKey k c -> notSubpath prefix k = false.
Proof.
  induction fuel as [|fuel IH]; intros contents objs h.
  - destruct contents; exists []; rewrite app_nil_r; simpl; split; auto; contradiction.
  - destruct contents as [|key rest].
    { exists []. rewrite app_nil_r. simpl. split; auto. contradiction. }
    rewrite deletePages_unfold.
    destruct (scanPage _ _ _ _ _) as [[num objs']|] eqn:Hscan.
    2:{ exists []. rewrite app_nil_r. simpl. split; auto. contradiction. }
    pose proof (scanPage_spec _ _ _ _ _ _ _ Hscan) as (Hl & Hkeys & Hnum).
    change (map Key (take (length (accumulated prefix (key :: rest))) objs') =
            accumulated prefix (key :: rest)) in Hkeys.
    assert (Hdel : forall k,
               In k (map Key (take (Z.to_nat num) objs')) -> notSubpath prefix k = false).
    { intros k Hin.
      pose proof (accumulated_subpaths prefix (key :: rest)) as Hacc.
      rewrite List.Forall_forall in Hacc. apply Hacc.
      rewrite <- Hkeys.
      assert (Hle : (Z.to_nat num <= length (accumulated prefix (key :: rest)))%nat).
      { rewrite Hnum.
        destruct (Nat.eqb_spec (length (accumulated prefix (key :: rest)))
                               (length (key :: rest))) as [E|E].
        - unfold len. rewrite Nat2Z.id. lia.
        - rewrite Nat2Z.id. lia. }
      apply in_map_iff in Hin as (o & <- & Hin).
      apply in_map. eapply In_take_le; eauto. }
    cbv zeta.
    set (deleted := take (Z.to_nat num) objs') in *.
    set (h1 := h ++ [Call_Object_DeleteMulti deleted false]).
    assert (Hone : forall k c, In c [Call_Object_DeleteMulti deleted false] ->
                               deletesKey k c -> notSubpath prefix k = false).
    { intros k c [<-|[]] Hk. simpl in Hk. apply Hdel. exact Hk. }
    destruct (answer_Object_DeleteMulti _ _ _ _).
    { exists [Call_Object_DeleteMulti deleted false]. split; [reflexivity|exact Hone]. }
    destruct (num <? _).
    { exists [Call_Object_DeleteMulti deleted false]. split; [reflexivity|exact Hone]. }
    set (opt := mkBucketGetOptions (cosPath d path) "" "" listMax).
    destruct (answer_Bucket_Get _ _ _) as [listing|err].
    + destruct (IH (Contents listing) objs' (h1 ++ [Call_Bucket_Get opt])) as (calls & Hh & Hc).
      exists ([Call_Object_DeleteMulti deleted false; Call_Bucket_Get opt] ++ calls).
      split.
      * rewrite Hh. unfold h1. rewrite <- !app_assoc. reflexivity.
      * intros k c Hin Hk. apply in_app_or in Hin as [Hin|Hin]; [|eauto].
        destruct Hin as [<-|[<-|[]]]; [|contradiction]. simpl in Hk. apply Hdel, Hk.
    + exists [Call_Object_DeleteMulti deleted false; Call_Bucket_Get opt].
      split.
      * simpl. unfold h1. rewrite <- app_assoc. reflexivity.
      * intros k c [<-|[<-|[]]] Hk; [|contradiction]. simpl in Hk. apply Hdel, Hk.
Qed.

Lemma deletePages_page (fuel : nat) (d : driver) (path prefix : string)
    (contents objs : list Object) (h : History) :
  contents <> [] ->
  (length contents <= length objs)%nat ->
  exists deleted rest,
    map Key deleted = accumulated prefix contents /\
    history_of (deletePages (S fuel) d path prefix contents objs h) =
      h ++ Call_Object_DeleteMulti deleted false :: rest /\
    (answer_Object_DeleteMulti (Client d) h deleted false <> None \/
     (length (accumulated prefix contents) < length contents)%nat ->
     deletePages (S fuel) d path prefix contents objs h =
       Done None (h ++ [Call_Object_DeleteMulti deleted false])).
Proof.
  intros Hne Hlen.
  destruct contents as [|key rest]; [congruence|].
  destruct (scanPage_page prefix (key :: rest) objs Hlen) as (objs' & Hscan & Hl & Hkeys).
  pose proof (deletePages_calls d path prefix fuel) as Htail.
  rewrite deletePages_unfold, Hscan. cbv zeta.
  set (deleted := take (Z.to_nat (len (accumulated prefix (key :: rest)))) objs') in *.
  set (h1 := h ++ [Call_Object_DeleteMulti deleted false]).
  set (opt := mkBucketGetOptions (cosPath d path) "" "" listMax).
  exists deleted.
  destruct (answer_Object_DeleteMulti (Client d) h deleted false) as [err|] eqn:Hdel.
  { exists []. repeat split; auto. }
  destruct (Z.ltb_spec (len (accumulated prefix (key :: rest))) (len (key :: rest))) as [Hlt|Hge].
  { exists []. repeat split; auto. }
  assert (Hfull : ~ (length (accumulated prefix (key :: rest)) < length (key :: rest))%nat)
    by (unfold len in Hge; lia).
  destruct (answer_Bucket_Get (Client d) h1 opt) as [listing|err].
  - destruct (Htail (Contents listing) objs' (h1 ++ [Call_Bucket_Get opt])) as (calls & Hh & _).
    exists (Call_Bucket_Get opt :: calls). split; [exact Hkeys|]. split.
    + rewrite Hh. unfold h1. rewrite <- !app_assoc. reflexivity.
    + intros [Hc|Hc]; [congruence|contradiction].
  - exists [Call_Bucket_Get opt]. split; [exact Hkeys|]. split.
    + simpl. unfold h1. rewrite <- app_assoc. reflexivity.
    + intros [Hc|Hc]; [congruence|contradiction].
Qed.

Lemma Delete_calls (fuel : nat) (d : driver) (path : string) (h : History) :
  exists calls,
    history_of (Delete fuel d path h) = h ++ calls /\
    forall k c, In c calls -> deletesKey k c -> notSubpath (cosPath d path) k = false.
Proof.
  rewrite Delete_unfold. cbv zeta.
  set (opt := mkBucketGetOptions (cosPath d path) "" "" listMax).
  assert (Hget : forall k c, In c [Call_Bucket_Get opt] -> deletesKey k c ->
                             notSubpath (cosPath d path) k = false).
  { intros k c [<-|[]] Hk. contradiction. }
  destruct (answer_Bucket_Get _ _ _) as [listing|err]; [|exists [Call_Bucket_Get opt]; auto].
  destruct (Contents listing) as [|key rest] eqn:Hc; [exists [Call_Bucket_Get opt]; auto|].
  destruct (deletePages_calls d path (cosPath d path) fuel (key :: rest)
              (replicate (Z.to_nat listMax) zeroObject) (h ++ [Call_Bucket_Get opt]))
    as (calls & Hh & Hcalls).
  exists (Call_Bucket_Get opt :: calls). split.
  - rewrite Hh. rewrite <- app_assoc. reflexivity.
  - intros k c [<-|Hin] Hk; [contradiction|eauto].
Qed.

(** C6. [Delete] lists the keys under the mapped path and, for each page
    it processes ([deletePages], on the array of [listMax] slots), asks
    the store to delete exactly the keys that come before the first key
    which is longer than the prefix and does not continue it with "/";
    when the page holds such a key, the call stops after that request and
    fetches no further page.  So no request of a [Delete] names a key
    that is not a subpath, and deleting "/a" never names "ab".  When the
    first listing holds no key, [Delete] reports not-found. *)
Theorem Delete_boundary (fuel : nat) (d : driver) (path : string) (h : History) :
  let prefix := cosPath d path in
  let opt := mkBucketGetOptions prefix "" "" listMax in
  (forall (contents objs : list Object) (h0 : History),
      contents <> [] -> length objs = Z.to_nat listMax -> len contents <= listMax ->
      exists deleted rest,
        map Key deleted = accumulated prefix contents /\
        history_of (deletePages (S fuel) d path prefix contents objs h0) =
          h0 ++ Call_Object_DeleteMulti deleted false :: rest /\
        ((length (accumulated prefix contents) < length contents)%nat ->
         deletePages (S fuel) d path prefix contents objs h0 =
           Done None (h0 ++ [Call_Object_DeleteMulti deleted false]))) /\
  (forall listing : BucketGetResult,
      answer_Bucket_Get (Client d) h opt = Ok listing ->
      Contents listing <> [] ->
      Delete (S fuel) d path h =
        deletePages (S fuel) d path prefix (Contents listing)
                    (replicate (Z.to_nat listMax) zeroObject) (h ++ [Call_Bucket_Get opt])) /\
  (exists calls,
      history_of (Delete fuel d path h) = h ++ calls /\
      (forall k c, In c calls -> deletesKey k c -> notSubpath prefix k = false) /\
      (RootDirectory d = "" -> path = "/a" -> forall c, In c calls -> ~ deletesKey "ab" c)) /\
  (forall listing : BucketGetResult,
      answer_Bucket_Get (Client d) h opt = Ok listing ->
      Contents listing = [] ->
      Delete fuel d path h = Done (Some (PathNotFoundError path)) (h ++ [Call_Bucket_Get opt])).
Proof.
  intros prefix opt. repeat apply conj.
  - intros contents objs h0 Hne Hobjs Hlen.
    destruct (deletePages_page fuel d path prefix contents objs h0 Hne)
      as (deleted & rest & Hkeys & Hh & Hstop).
    { unfold len, listMax in *. lia. }
    exists deleted, rest. repeat split; auto.
  - intros listing Hlist Hne. rewrite Delete_unfold. cbv zeta. subst prefix opt.
    rewrite Hlist.
    destruct (Contents listing); [congruence|reflexivity].
  - destruct (Delete_calls fuel d path h) as (calls & Hh & Hcalls).
    exists calls. repeat split; auto.
    intros Hroot -> c Hin Hk.
    specialize (Hcalls "ab" c Hin Hk).
    rewrite cosPath_empty_root in Hcalls by exact Hroot.
    discriminate Hcalls.
  - intros listing Hlist Hnil. rewrite Delete_unfold. cbv zeta. subst prefix opt.
    rewrite Hlist, Hnil. reflexivity.
Qed.

(** A page with the keys "a", "a/b" and "ab" under the prefix "a": the
    first two are deleted, "ab" stops the page and the call. *)
Example Delete_a_keeps_ab :
  let listing :=
    mkBucketGetResult [mkObject "a" "" 1 0 ""; mkObject "a/b" "" 1 0 ""; mkObject "ab" "" 1 0 ""]
                      [] false "" in
  let d := mkDriver (agreeingClient listing) "id" "key" "" defaultChunkSize in
  Delete 1 d "/a" [] =
  Done None [Call_Bucket_Get (mkBucketGetOptions "a" "" "" listMax);
             Call_Object_DeleteMulti [mkObject "a" "" 0 0 ""; mkObject "a/b" "" 0 0 ""] false].
Proof. vm_compute. reflexivity. Qed.

Lemma Delete_boundary_witness :
  let listing := mkBucketGetResult [] [] false "" in
  let d := mkDriver (agreeingClient listing) "id" "key" "" defaultChunkSize in
  Delete 1 d "/a" [] =
  Done (Some (PathNotFoundError "/a")) [Call_Bucket_Get (mkBucketGetOptions "a" "" "" listMax)].
Proof.
  intros listing d.
  exact (proj2 (proj2 (proj2 (Delete_boundary 1 d "/a" []))) listing eq_refl eq_refl).
Defined.

(** ** Transport errors *)

(** C7. Two places where the driver turns a transport error into success.
    [GetContent] discards the error of reading the response body and
    returns the bytes read so far with a nil error.  [Delete] returns nil
    when the bulk delete of a page fails. *)
Theorem transport_error_returned_as_success :
  (forall (d : driver) (path : string) (h : History) (resp : Response) (err : error),
      answer_Object_Get (Client d) h (cosPath d path) None = Ok resp ->
      body_err (Body resp) = Some err ->
      GetContent d path h =
        Done (body_data (Body resp), None) (h ++ [Call_Object_Get (cosPath d path) None])) /\
  (forall (fuel : nat) (d : driver) (path : string) (h : History) (listing : BucketGetResult),
      let prefix := cosPath d path in
      let opt := mkBucketGetOptions prefix "" "" listMax in
      let h1 := h ++ [Call_Bucket_Get opt] in
      answer_Bucket_Get (Client d) h opt = Ok listing ->
      Contents listing <> [] ->
      len (Contents listing) <= listMax ->
      (forall objs, answer_Object_DeleteMulti (Client d) h1 objs false <> None) ->
      exists deleted,
        map Key deleted = accumulated prefix (Contents listing) /\
        Delete (S fuel) d path h = Done None (h1 ++ [Call_Object_DeleteMulti deleted false])).
Proof.
  split.
  - intros d path h resp err Hget _. apply GetContent_ok. exact Hget.
  - intros fuel d path h listing prefix opt h1 Hlist Hne Hlen Hfail.
    rewrite Delete_unfold. cbv zeta. subst h1 opt prefix. rewrite Hlist.
    set (prefix := cosPath d path) in *.
    set (h1 := h ++ [Call_Bucket_Get (mkBucketGetOptions prefix "" "" listMax)]) in *.
    destruct (Contents listing) as [|key rest] eqn:Hc; [congruence|].
    destruct (deletePages_page fuel d path prefix (key :: rest)
                (replicate (Z.to_nat listMax) zeroObject) h1)
      as (deleted & tail & Hkeys & _ & Hstop); [congruence| |].
    { rewrite length_replicate. unfold len, listMax in *. lia. }
    exists deleted. split; [exact Hkeys|]. apply Hstop. left. apply Hfail.
Qed.

(** The failing inputs of C7: a body whose read breaks after one byte,
    and a bulk delete that the transport refuses. *)
Lemma transport_error_returned_as_success_witness :
  let resp := mkResponse (fun _ => "") (mkBody ["a"%byte] (Some transportError)) in
  let listing := mkBucketGetResult [mkObject "a" "" 1 0 ""] [] false "" in
  let d := mkDriver (listingClient listing resp) "id" "key" "" defaultChunkSize in
  GetContent d "/a" [] = Done (["a"%byte], None) [Call_Object_Get "a" None] /\
  exists deleted,
    map Key deleted = ["a"] /\
    Delete 1 d "/a" [] =
      Done None [Call_Bucket_Get (mkBucketGetOptions "a" "" "" listMax);
                 Call_Object_DeleteMulti deleted false].
Proof.
  intros resp listing d. split.
  - exact (proj1 transport_error_returned_as_success d "/a" [] resp transportError
                 eq_refl eq_refl).
  - apply (proj2 transport_error_returned_as_success 0%nat d "/a" [] listing eq_refl).
    + discriminate.
    + vm_compute. discriminate.
    + intros objs. discriminate.
Defined.

(** ** flushPart *)

Lemma flushPart_empty (w : writer) (h : History) :
  ((len (w_readyPart w) =? 0) && (len (w_pendingPart w) =? 0))%bool = true ->
  flushPart w h = Done (w, None) h.
Proof. intros Hempty. unfold flushPart. rewrite Hempty. reflexivity. Qed.

Lemma flushPart_uploaded (w : writer) (h : History) (resp : Response) :
  let merge := len (w_pendingPart w) <? ChunkSize (w_driver w) in
  let body := if merge then w_readyPart w ++ w_pendingPart w else w_readyPart w in
  let partNumber := len (w_parts w) + 1 in
  let h' := h ++ [Call_Object_UploadPart (w_key w) (w_uploadID w) partNumber body] in
  ((len (w_readyPart w) =? 0) && (len (w_pendingPart w) =? 0))%bool = false ->
  answer_Object_UploadPart (Client (w_driver w)) h (w_key w) (w_uploadID w)
                           partNumber body = Ok resp ->
  exists w',
    flushPart w h = Done (w', None) h' /\
    w_parts w' = w_parts w ++ [mkObject "" (Header_Get resp "Etag") 0 partNumber ""] /\
    w_readyPart w' = (if merge then [] else w_pendingPart w) /\
    w_pendingPart w' = [].
Proof.
  intros merge body partNumber h' Hsome Hanswer.
  unfold flushPart. rewrite Hsome. fold merge. subst body h' partNumber.
  destruct merge; cbv zeta; step; simpl; simpl in Hanswer; rewrite Hanswer;
    eexists; (split; [reflexivity|]); simpl; auto.
Qed.

(** C4. [flushPart] does nothing when both buffers are empty.  Otherwise
    a pending buffer shorter than the chunk size is appended to the ready
    buffer first; the ready buffer is sent as part [len(parts)+1]; on
    success the part is recorded with that number and the entity tag of
    the response, and the pending buffer becomes the ready buffer.  The
    recorded part carries no size: its [Size] is the zero value, whatever
    was uploaded. *)
Theorem flushPart_behaviour (w : writer) (h : History) :
  let merge := len (w_pendingPart w) <? ChunkSize (w_driver w) in
  let body := if merge then w_readyPart w ++ w_pendingPart w else w_readyPart w in
  let next := if merge then [] else w_pendingPart w in
  let partNumber := len (w_parts w) + 1 in
  let h' := h ++ [Call_Object_UploadPart (w_key w) (w_uploadID w) partNumber body] in
  if (len (w_readyPart w) =? 0) && (len (w_pendingPart w) =? 0) then
    flushPart w h = Done (w, None) h
  else
    match answer_Object_UploadPart (Client (w_driver w)) h (w_key w) (w_uploadID w)
                                   partNumber body with
    | Ok resp =>
        exists w',
          flushPart w h = Done (w', None) h' /\
          w_parts w' = w_parts w ++ [mkObject "" (Header_Get resp "Etag") 0 partNumber ""] /\
          w_readyPart w' = next /\
          w_pendingPart w' = [] /\
          w' = set_pendingPart
                 (set_readyPart (set_parts w (w_parts w')) (w_readyPart w')) []
    | Err err =>
        flushPart w h = Done (set_pendingPart (set_readyPart w body) next, Some err) h'
    end.
Proof.
  intros merge body next partNumber h'.
  unfold flushPart.
  destruct ((len (w_readyPart w) =? 0) && (len (w_pendingPart w) =? 0)); [reflexivity|].
  fold merge. subst body next h' partNumber.
  destruct merge; cbv zeta; step; simpl;
    destruct (answer_Object_UploadPart _ _ _ _ _ _) as [resp|err].
  - eexists. split; [reflexivity|]. simpl. auto.
  - reflexivity.
  - eexists. split; [reflexivity|]. simpl. auto.
  - destruct w; reflexivity.
Qed.

(** The failing input of C4: one byte is uploaded and the part is recorded
    with size 0. *)
Example flushPart_records_no_size :
  let w := set_readyPart (newWriter (memDriver defaultChunkSize) "blob" "upload-0" [])
                         ["x"%byte] in
  let h := [Call_Object_InitiateMultipartUpload "blob" None] in
  match flushPart w h with
  | Done (w', err) h' =>
      err = None /\
      h' = h ++ [Call_Object_UploadPart "blob" "upload-0" 1 ["x"%byte]] /\
      w_parts w' = [mkObject "" "etag-1" 0 1 ""]
  | _ => False
  end.
Proof. vm_compute. auto. Qed.

(** What [flushPart] leaves untouched, and the calls it makes. *)
Lemma flushPart_frame (w w' : writer) (err : option error) (h h' : History) :
  flushPart w h = Done (w', err) h' ->
  w_driver w' = w_driver w /\ w_key w' = w_key w /\ w_uploadID w' = w_uploadID w /\
  w_size w' = w_size w /\ w_closed w' = w_closed w /\ w_committed w' = w_committed w /\
  w_cancelled w' = w_cancelled w /\
  exists calls, h' = h ++ calls /\ Forall isUploadPart calls.
Proof.
  unfold flushPart.
  destruct ((len (w_readyPart w) =? 0) && (len (w_pendingPart w) =? 0)).
  - intros H. inversion H; subst. repeat split. exists []. rewrite app_nil_r. auto.
  - cbv zeta. step.
    destruct (len (w_pendingPart w) <? ChunkSize (w_driver w));
      destruct (answer_Object_UploadPart _ _ _ _ _ _); simpl;
      intros H; inversion H; subst; simpl; repeat split;
      eexists; (split; [reflexivity|]); repeat constructor.
Qed.

(** With a buffer that is not empty, [flushPart] sends one part and
    returns what the store answered; the flags are as they were. *)
Lemma flushPart_sends (w : writer) (h : History) :
  let merge := len (w_pendingPart w) <? ChunkSize (w_driver w) in
  let body := if merge then w_readyPart w ++ w_pendingPart w else w_readyPart w in
  let partNumber := len (w_parts w) + 1 in
  ((len (w_readyPart w) =? 0) && (len (w_pendingPart w) =? 0))%bool = false ->
  exists w',
    flushPart w h =
      Done (w', match answer_Object_UploadPart (Client (w_driver w)) h (w_key w)
                        (w_uploadID w) partNumber body with
                | Ok _ => None
                | Err err => Some err
                end)
           (h ++ [Call_Object_UploadPart (w_key w) (w_uploadID w) partNumber body]) /\
    w_closed w' = w_closed w /\ w_committed w' = w_committed w /\
    w_cancelled w' = w_cancelled w.
Proof.
  intros merge body partNumber Hsome.
  unfold flushPart. rewrite Hsome. fold merge. subst body partNumber.
  destruct merge; cbv zeta; step; simpl;
    destruct (answer_Object_UploadPart _ _ _ _ _ _) as [resp|err];
    eexists; (split; [reflexivity|]); simpl; auto.
Qed.

Lemma flushPart_returns (w : writer) (h : History) :
  exists w' err h', flushPart w h = Done (w', err) h'.
Proof.
  unfold flushPart.
  destruct ((len (w_readyPart w) =? 0) && (len (w_pendingPart w) =? 0)); [unfold ret; eauto|].
  cbv zeta. step. destruct (answer_Object_UploadPart _ _ _ _ _ _); unfold ret; eauto.
Qed.

(** ** The loop of Write *)

Lemma fillReady_frame (w : writer) (p : list byte) (n : Z) :
  let '(w1, p1, n1) := fillReady w p n in
  w_driver w1 = w_driver w /\ w_key w1 = w_key w /\ w_uploadID w1 = w_uploadID w /\
  w_parts w1 = w_parts w /\ w_size w1 = w_size w /\ w_pendingPart w1 = w_pendingPart w /\
  w_closed w1 = w_closed w /\ w_committed w1 = w_committed w /\
  w_cancelled w1 = w_cancelled w.
Proof.
  unfold fillReady. cbv zeta.
  destruct (0 <? _); [destruct (_ <=? _)|]; simpl; repeat split.
Qed.

Lemma writeLoop_nil (fuel : nat) (w : writer) (n : Z) (h : History) :
  writeLoop fuel w [] n h = Done (set_size w (wrap64 (w_size w + n)), n, None) h.
Proof. destruct fuel; reflexivity. Qed.

Lemma writeLoop_cons (fuel : nat) (w : writer) (b : byte) (p : list byte) (n : Z)
    (h : History) :
  writeLoop (S fuel) w (b :: p) n h =
  let '(w1, p1, n1) := fillReady w (b :: p) n in
  let neededBytes := ChunkSize (w_driver w1) - len (w_pendingPart w1) in
  if 0 <? neededBytes then
    if neededBytes <=? len p1 then
      match flushPart (set_pendingPart w1 (w_pendingPart w1 ++ take (Z.to_nat neededBytes) p1))
                      h with
      | Done (w2, Some err) h2 =>
          Done (set_size w2 (wrap64 (w_size w2 + (n1 + neededBytes))), n1 + neededBytes,
                Some err) h2
      | Done (w2, None) h2 =>
          writeLoop fuel w2 (drop (Z.to_nat neededBytes) p1) (n1 + neededBytes) h2
      | Panic h2 => Panic h2
      | OutOfFuel h2 => OutOfFuel h2
      end
    else writeLoop fuel (set_pendingPart w1 (w_pendingPart w1 ++ p1)) [] (n1 + len p1) h
  else writeLoop fuel w1 p1 n1 h.
Proof.
  cbn [writeLoop]. destruct (fillReady w (b :: p) n) as [[w1 p1] n1]. cbv zeta.
  destruct (0 <? _); [|reflexivity].
  destruct (_ <=? _); [|reflexivity].
  unfold bind. destruct (flushPart _ h) as [[w2 [err|]] h2|h2|h2]; reflexivity.
Qed.

(** The loop keeps the writer's driver, key, upload and flags. *)
Lemma writeLoop_frame (fuel : nat) :
  forall (w : writer) (p : list byte) (n : Z) (w' : writer) (n' : Z) (err : option error)
         (h h' : History),
    writeLoop fuel w p n h = Done (w', n', err) h' ->
    w_driver w' = w_driver w /\ w_key w' = w_key w /\ w_uploadID w' = w_uploadID w /\
    w_closed w' = w_closed w /\ w_committed w' = w_committed w /\
    w_cancelled w' = w_cancelled w.
Proof.
  induction fuel as [|fuel IH]; intros w p n w' n' err h h' Hloop.
  - destruct p; simpl in Hloop; inversion Hloop; subst; simpl; auto 10.
  - destruct p as [|b p].
    { rewrite writeLoop_nil in Hloop. inversion Hloop; subst; simpl; auto 10. }
    rewrite writeLoop_cons in Hloop.
    pose proof (fillReady_frame w (b :: p) n) as Hfill.
    destruct (fillReady w (b :: p) n) as [[w1 p1] n1].
    destruct Hfill as (Hd & Hk & Hu & _ & _ & _ & Hc & Hm & Hx).
    cbv zeta in Hloop.
    destruct (0 <? _).
    + destruct (_ <=? _).
      * destruct (flushPart _ h) as [[w2 e2] h2|h2|h2] eqn:Hflush; try destruct e2;
          try discriminate.
        -- apply flushPart_frame in Hflush
             as (Hd2 & Hk2 & Hu2 & _ & Hc2 & Hm2 & Hx2 & _).
           inversion Hloop; subst; simpl in *. repeat split; congruence.
        -- apply flushPart_frame in Hflush
             as (Hd2 & Hk2 & Hu2 & _ & Hc2 & Hm2 & Hx2 & _).
           apply IH in Hloop as (? & ? & ? & ? & ? & ?). simpl in *.
           repeat split; congruence.
      * apply IH in Hloop as (? & ? & ? & ? & ? & ?). simpl in *.
        repeat split; congruence.
    + apply IH in Hloop as (? & ? & ? & ? & ? & ?). repeat split; congruence.
Qed.

(** Whatever its outcome, the loop only uploads parts. *)
Lemma writeLoop_calls (fuel : nat) :
  forall (w : writer) (p : list byte) (n : Z) (h : History),
  exists calls,
    history_of (writeLoop fuel w p n h) = h ++ calls /\ Forall isUploadPart calls.
Proof.
  induction fuel as [|fuel IH]; intros w p n h.
  - destruct p; exists []; rewrite app_nil_r; simpl; auto.
  - destruct p as [|b p].
    { rewrite writeLoop_nil. exists []. rewrite app_nil_r. simpl. auto. }
    rewrite writeLoop_cons.
    destruct (fillReady w (b :: p) n) as [[w1 p1] n1]. cbv zeta.
    destruct (0 <? _); [|apply IH].
    destruct (_ <=? _); [|apply IH].
    destruct (flushPart_returns
                (set_pendingPart w1 (w_pendingPart w1 ++
                   take (Z.to_nat (ChunkSize (w_driver w1) - len (w_pendingPart w1))) p1)) h)
      as (w2 & e2 & h2 & Hflush).
    rewrite Hflush.
    apply flushPart_frame in Hflush as (_ & _ & _ & _ & _ & _ & _ & calls & -> & Hcalls).
    destruct e2.
    + exists calls. simpl. auto.
    + match goal with
      | |- context [writeLoop fuel ?w' ?p' ?n' ?h'] =>
          destruct (IH w' p' n' h') as (calls' & Hh & Hcalls')
      end.
      exists (calls ++ calls'). rewrite Hh, <- app_assoc. split; [reflexivity|].
      apply Forall_app. auto.
Qed.

(** ** Terminal states of the writer *)

Lemma repairUpload_flags (w w' : writer) (err : option error) (h h' : History) :
  repairUpload w h = Done (w', err) h' -> sameFlags w w'.
Proof.
  unfold repairUpload, sameFlags. cbv zeta. step.
  destruct (answer_Object_CompleteMultipartUpload _ _ _ _ _).
  { step. intros H; inversion H; subst; auto. }
  step. destruct (answer_Object_InitiateMultipartUpload _ _ _ _) as [[v|] [e|]];
    try (intros H; inversion H; subst; auto; fail).
  simpl. destruct (w_size w <? minChunkSize); step.
  - destruct (answer_Object_Get _ _ _ _) as [resp|e];
      intros H; inversion H; subst; auto.
  - destruct (answer_Object_UploadPartCopy _ _ _ _ _ _ _) as [part|e];
      intros H; inversion H; subst; auto.
Qed.

Lemma writeLoop_flags (fuel : nat) :
  forall (w : writer) (p : list byte) (n : Z) (w' : writer) (n' : Z) (err : option error)
         (h h' : History),
    writeLoop fuel w p n h = Done (w', n', err) h' -> sameFlags w w'.
Proof.
  intros w p n w' n' err h h' Hloop. unfold sameFlags.
  apply writeLoop_frame in Hloop. tauto.
Qed.

Lemma Write_flags (fuel : nat) (w w' : writer) (p : list byte) (n : Z)
    (err : option error) (h h' : History) :
  Write fuel w p h = Done (w', n, err) h' -> sameFlags w w'.
Proof.
  unfold Write.
  destruct (w_closed w) eqn:Hc; [intros H; inversion H; subst; red; auto|].
  destruct (w_committed w) eqn:Hm; [intros H; inversion H; subst; red; auto|].
  destruct (w_cancelled w) eqn:Hx; [intros H; inversion H; subst; red; auto|].
  unfold bind.
  destruct (lastPartIsSmall w).
  - destruct (repairUpload w h) as [[w1 e1] h1|h1|h1] eqn:Hrep; try discriminate.
    apply repairUpload_flags in Hrep. destruct Hrep as (R1 & R2 & R3).
    destruct e1.
    + intros H; inversion H; subst. red. auto.
    + intros H. apply writeLoop_flags in H. destruct H as (L1 & L2 & L3).
      red. repeat split; congruence.
  - unfold ret. intros H. apply writeLoop_flags in H. exact H.
Qed.

Ltac flags := repeat split; intros; simpl in *; try congruence; try discriminate.

Lemma Close_result (w w' : writer) (err : option error) (h h' : History) :
  Close w h = Done (w', err) h' -> flagsKept w w' /\ w_closed w' = true.
Proof.
  unfold Close, flagsKept. destruct (w_closed w) eqn:Hc.
  - intros H; inversion H; subst. flags.
  - intros H. apply flushPart_frame in H as (_ & _ & _ & _ & Hc' & Hm' & Hx' & _).
    flags.
Qed.

Lemma Cancel_result (w w' : writer) (err : option error) (h h' : History) :
  Cancel w h = Done (w', err) h' ->
  flagsKept w w' /\
  (err = None -> w_closed w = false /\ w_committed w = false /\ w_cancelled w' = true).
Proof.
  unfold Cancel, flagsKept.
  destruct (w_closed w) eqn:Hc; [intros H; inversion H; subst; flags|].
  destruct (w_committed w) eqn:Hm; [intros H; inversion H; subst; flags|].
  cbv zeta. step. intros H; inversion H; subst. flags.
Qed.

Lemma Commit_result (w w' : writer) (err : option error) (h h' : History) :
  Commit w h = Done (w', err) h' ->
  flagsKept w w' /\
  (err = None ->
   w_closed w = false /\ w_committed w = false /\ w_cancelled w = false /\
   w_committed w' = true).
Proof.
  unfold Commit, flagsKept.
  destruct (w_closed w) eqn:Hc; [intros H; inversion H; subst; flags|].
  destruct (w_committed w) eqn:Hm; [intros H; inversion H; subst; flags|].
  destruct (w_cancelled w) eqn:Hx; [intros H; inversion H; subst; flags|].
  unfold bind at 1.
  destruct (flushPart w h) as [[w1 e1] h1|h1|h1] eqn:Hflush; try discriminate.
  apply flushPart_frame in Hflush as (_ & _ & _ & _ & Hc1 & Hm1 & Hx1 & _).
  destruct e1.
  { intros H; inversion H; subst. flags. }
  cbv zeta. step. simpl.
  destruct (answer_Object_CompleteMultipartUpload _ _ _ _ _); step;
    intros H; inversion H; subst; flags.
Qed.

Lemma callWriter_result (fuel : nat) (w w' : writer) (c : writerCall) (err : option error)
    (h h' : History) :
  callWriter fuel w c h = Done (w', err) h' ->
  flagsKept w w' /\
  (c = DoCommit -> err = None -> w_committed w = false /\ w_cancelled w = false /\
                                 w_committed w' = true) /\
  (c = DoCancel -> err = None -> w_committed w = false /\ w_cancelled w' = true).
Proof.
  destruct c as [p| | |]; simpl.
  - unfold bind.
    destruct (Write fuel w p h) as [[[w1 n1] e1] h1|h1|h1] eqn:Hw; try discriminate.
    intros H; inversion H; subst.
    apply Write_flags in Hw as (Hc & Hm & Hx).
    split; [red; flags|]. split; intros; discriminate.
  - intros H. apply Close_result in H as (Hk & _).
    split; [exact Hk|]. split; intros; discriminate.
  - intros H. apply Commit_result in H as (Hk & Hok).
    split; [exact Hk|]. split; [|intros; discriminate].
    intros _ He. destruct (Hok He) as (_ & Hm & Hx & Hm'). auto.
  - intros H. apply Cancel_result in H as (Hk & Hok).
    split; [exact Hk|]. split; [intros; discriminate|].
    intros _ He. destruct (Hok He) as (_ & Hm & Hx'). auto.
Qed.

Lemma callsWriter_cons (fuel : nat) (w w' : writer) (c : writerCall) (cs : list writerCall)
    (results : list (writerCall * option error)) (h h' : History) :
  callsWriter fuel w (c :: cs) h = Done (w', results) h' ->
  exists w1 err h1 rest,
    callWriter fuel w c h = Done (w1, err) h1 /\
    callsWriter fuel w1 cs h1 = Done (w', rest) h' /\
    results = (c, err) :: rest.
Proof.
  cbn [callsWriter]. unfold bind at 1.
  destruct (callWriter fuel w c h) as [[w1 err] h1|h1|h1] eqn:Hcall; try discriminate.
  unfold bind at 1.
  destruct (callsWriter fuel w1 cs h1) as [[w2 rest] h2|h2|h2] eqn:Hrest; try discriminate.
  intros H; inversion H; subst.
  exists w1, err, h1, rest. auto.
Qed.

(** After [committed] is set no [Commit] and no [Cancel] succeeds; after
    [cancelled] is set no [Commit] succeeds. *)
Lemma callsWriter_after (fuel : nat) (cs : list writerCall) :
  forall (w w' : writer) (results : list (writerCall * option error)) (h h' : History),
    callsWriter fuel w cs h = Done (w', results) h' ->
    (w_committed w = true ->
     ~ In (DoCommit, None) results /\ ~ In (DoCancel, None) results) /\
    (w_cancelled w = true -> ~ In (DoCommit, None) results).
Proof.
  induction cs as [|c cs IH]; intros w w' results h h' Hrun.
  - inversion Hrun; subst. simpl. tauto.
  - apply callsWriter_cons in Hrun as (w1 & err & h1 & rest & Hcall & Hrest & ->).
    apply callWriter_result in Hcall as ((_ & Hkm & Hkx) & Hcommit & Hcancel).
    apply IH in Hrest as (IHm & IHx).
    split.
    + intros Hm. destruct (IHm (Hkm Hm)) as (Hn1 & Hn2). split.
      * intros [Heq|Hin]; [|tauto]. inversion Heq; subst.
        destruct (Hcommit eq_refl eq_refl) as (? & _). congruence.
      * intros [Heq|Hin]; [|tauto]. inversion Heq; subst.
        destruct (Hcancel eq_refl eq_refl) as (? & _). congruence.
    + intros Hx. intros [Heq|Hin]; [|exact (IHx (Hkx Hx) Hin)]. inversion Heq; subst.
      destruct (Hcommit eq_refl eq_refl) as (_ & ? & _). congruence.
Qed.

Lemma callsWriter_exclusive (fuel : nat) (cs : list writerCall) :
  forall (w w' : writer) (results : list (writerCall * option error)) (h h' : History),
    callsWriter fuel w cs h = Done (w', results) h' ->
    ~ (In (DoCommit, None) results /\ In (DoCancel, None) results) /\
    (forall before after, results = before ++ (DoCommit, None) :: after ->
                          ~ In (DoCommit, None) after).
Proof.
  induction cs as [|c cs IH]; intros w w' results h h' Hrun.
  - inversion Hrun; subst. split; [simpl; tauto|].
    intros [|x before] after Heq; discriminate Heq.
  - apply callsWriter_cons in Hrun as (w1 & err & h1 & rest & Hcall & Hrest & ->).
    apply callWriter_result in Hcall as (_ & Hcommit & Hcancel).
    pose proof (callsWriter_after _ _ _ _ _ _ _ Hrest) as (Hafterm & Hafterx).
    apply IH in Hrest as (IHboth & IHone).
    split.
    + intros ([Heq1|Hin1] & [Heq2|Hin2]).
      * congruence.
      * inversion Heq1; subst. destruct (Hcommit eq_refl eq_refl) as (_ & _ & Hm).
        destruct (Hafterm Hm) as (_ & Hno). exact (Hno Hin2).
      * inversion Heq2; subst. destruct (Hcancel eq_refl eq_refl) as (_ & Hx).
        exact (Hafterx Hx Hin1).
      * exact (IHboth (conj Hin1 Hin2)).
    + intros [|x before] after Heq; simpl in Heq; inversion Heq; subst.
      * destruct (Hcommit eq_refl eq_refl) as (_ & _ & Hm).
        destruct (Hafterm Hm) as (Hno & _). exact Hno.
      * eapply IHone. reflexivity.
Qed.

Lemma callWriter_closed (fuel : nat) (w : writer) (c : writerCall) (h : History) :
  w_closed w = true ->
  callWriter fuel w c h = Done (w, Some (Errorf "already closed")) h.
Proof.
  intros Hc. destruct c; simpl; unfold Write, Close, Commit, Cancel; rewrite Hc; reflexivity.
Qed.

Lemma callWriter_committed (fuel : nat) (w : writer) (c : writerCall) (h : History) :
  w_closed w = false -> w_committed w = true -> c <> DoClose ->
  callWriter fuel w c h = Done (w, Some (Errorf "already committed")) h.
Proof.
  intros Hc Hm Hne.
  destruct c; simpl; unfold Write, Commit, Cancel; rewrite ?Hc, ?Hm; try reflexivity.
  congruence.
Qed.

Lemma callWriter_cancelled (fuel : nat) (w : writer) (c : writerCall) (h : History) :
  w_closed w = false -> w_committed w = false -> w_cancelled w = true ->
  c <> DoClose -> c <> DoCancel ->
  callWriter fuel w c h = Done (w, Some (Errorf "already cancelled")) h.
Proof.
  intros Hc Hm Hx Hne1 Hne2.
  destruct c; simpl; unfold Write, Commit; rewrite ?Hc, ?Hm, ?Hx; try reflexivity;
    congruence.
Qed.

(** C2, as the code has it.  In every sequence of calls on one writer a
    [Commit] and a [Cancel] never both succeed, and no [Commit] succeeds
    after a successful [Commit]; a flag that is set stays set.  Once
    [closed] is set, every call fails with "already closed", leaves the
    writer as it was and issues no call to the store.  Once [committed] is
    set, every [Write], [Commit] and [Cancel] fails likewise with an
    "already" error; once [cancelled] is set, every [Write] and [Commit]
    does.  [Close] consults the [closed] flag alone: on a writer that is
    not closed, committed and cancelled or not, it sets [closed] and, when
    both buffers are empty, returns nil without a call to the store;
    otherwise it uploads the buffered bytes as one more part and returns
    what the store answered.  [Cancel] does not consult [cancelled]: on a
    writer neither closed nor committed, cancelled or not, it sets
    [cancelled], asks the store to abort the upload and returns the
    store's answer. *)
Theorem writer_terminal_states :
  (forall fuel cs w w' results h h',
      callsWriter fuel w cs h = Done (w', results) h' ->
      ~ (In (DoCommit, None) results /\ In (DoCancel, None) results) /\
      (forall before after, results = before ++ (DoCommit, None) :: after ->
                            ~ In (DoCommit, None) after)) /\
  (forall fuel w c h w' err h',
      callWriter fuel w c h = Done (w', err) h' -> flagsKept w w') /\
  (forall fuel w c h,
      w_closed w = true ->
      callWriter fuel w c h = Done (w, Some (Errorf "already closed")) h) /\
  (forall fuel w c h,
      w_closed w = false -> w_committed w = true -> c <> DoClose ->
      callWriter fuel w c h = Done (w, Some (Errorf "already committed")) h) /\
  (forall fuel w c h,
      w_closed w = false -> w_committed w = false -> w_cancelled w = true ->
      c <> DoClose -> c <> DoCancel ->
      callWriter fuel w c h = Done (w, Some (Errorf "already cancelled")) h) /\
  (forall fuel w h,
      w_closed w = false ->
      ((len (w_readyPart w) =? 0) && (len (w_pendingPart w) =? 0))%bool = true ->
      callWriter fuel w DoClose h = Done (set_closed w true, None) h) /\
  (forall fuel w h,
      w_closed w = false ->
      ((len (w_readyPart w) =? 0) && (len (w_pendingPart w) =? 0))%bool = false ->
      let merge := len (w_pendingPart w) <? ChunkSize (w_driver w) in
      let body := if merge then w_readyPart w ++ w_pendingPart w else w_readyPart w in
      let partNumber := len (w_parts w) + 1 in
      exists w',
        callWriter fuel w DoClose h =
          Done (w', match answer_Object_UploadPart (Client (w_driver w)) h (w_key w)
                            (w_uploadID w) partNumber body with
                    | Ok _ => None
                    | Err err => Some err
                    end)
               (h ++ [Call_Object_UploadPart (w_key w) (w_uploadID w) partNumber body]) /\
        w_closed w' = true /\ w_committed w' = w_committed w /\
        w_cancelled w' = w_cancelled w) /\
  (forall fuel w h,
      w_closed w = false -> w_committed w = false ->
      callWriter fuel w DoCancel h =
        Done (set_cancelled w true,
              answer_Object_AbortMultipartUpload (Client (w_driver w)) h (w_key w)
                                                 (w_uploadID w))
             (h ++ [Call_Object_AbortMultipartUpload (w_key w) (w_uploadID w)])).
Proof.
  repeat apply conj.
  - intros fuel cs w w' results h h' Hrun. eapply callsWriter_exclusive; eauto.
  - intros fuel w c h w' err h' Hcall. apply callWriter_result in Hcall. tauto.
  - intros. apply callWriter_closed; assumption.
  - intros. apply callWriter_committed; assumption.
  - intros. apply callWriter_cancelled; assumption.
  - intros fuel w h Hc Hempty. simpl. unfold Close. rewrite Hc.
    apply flushPart_empty. exact Hempty.
  - intros fuel w h Hc Hsome merge body partNumber. simpl. unfold Close. rewrite Hc.
    apply (flushPart_sends (set_closed w true) h Hsome).
  - intros fuel w h Hc Hm. simpl. unfold Close, Cancel. rewrite Hc, Hm. cbv zeta.
    step. reflexivity.
Qed.

(** A writer on the in-memory store after one byte was written and
    committed: a second [Commit] is refused without a call to the store. *)
Lemma writer_terminal_states_witness :
  let d := memDriver defaultChunkSize in
  let h := [Call_Object_InitiateMultipartUpload "blob" None;
            Call_Object_UploadPart "blob" "upload-0" 1 ["x"%byte];
            Call_Object_CompleteMultipartUpload "blob" "upload-0" [mkObject "" "etag-1" 0 1 ""]] in
  let w := mkWriter d "blob" "upload-0" [mkObject "" "etag-1" 0 1 ""] 1 [] [] false true false in
  callWriter 1 w DoCommit h = Done (w, Some (Errorf "already committed")) h.
Proof.
  intros d h w.
  apply (proj1 (proj2 (proj2 (proj2 writer_terminal_states)))); [reflexivity|reflexivity|].
  discriminate.
Defined.

(** C2 as stated fails.  On the in-memory store: after one byte was written
    and committed, [Close] is not refused: it sets [closed] and returns
    nil.  After [Cancel], a second [Cancel] is not refused either: it
    asks the store again to abort the upload and returns the store's
    error. *)
Lemma Close_and_Cancel_not_refused :
  let d := memDriver defaultChunkSize in
  let w0 := newWriter d "blob" "upload-0" [] in
  let h0 := [Call_Object_InitiateMultipartUpload "blob" None] in
  Writer d "/blob" false [] = Done (Ok w0) h0 /\
  match callsWriter 1 w0 [DoWrite ["x"%byte]; DoCommit; DoClose] h0 with
  | Done (w, results) h =>
      results = [(DoWrite ["x"%byte], None); (DoCommit, None); (DoClose, None)] /\
      h = h0 ++ [Call_Object_UploadPart "blob" "upload-0" 1 ["x"%byte];
                 Call_Object_CompleteMultipartUpload "blob" "upload-0"
                   [mkObject "" "etag-1" 0 1 ""]] /\
      w_committed w = true /\ w_closed w = true
  | _ => False
  end /\
  match callsWriter 1 w0 [DoCancel; DoCancel] h0 with
  | Done (w, results) h =>
      results = [(DoCancel, None); (DoCancel, Some noSuchUpload)] /\
      h = h0 ++ [Call_Object_AbortMultipartUpload "blob" "upload-0";
                 Call_Object_AbortMultipartUpload "blob" "upload-0"] /\
      w_cancelled w = true
  | _ => False
  end /\
  ~ alreadyError None /\ ~ alreadyError (Some noSuchUpload).
Proof.
  intros d w0 h0.
  split; [reflexivity|].
  split; [vm_compute; auto|].
  split; [vm_compute; auto|].
  unfold alreadyError, noSuchUpload. split; intros [H|[H|H]]; discriminate H.
Qed.

(** [Close] after [Commit] can still reach the store.  With a chunk size
    of two bytes and both buffers full (the state in which a [Write] whose
    upload failed leaves the writer), [Commit] uploads "ab" and completes
    the upload with that one part; the [Close] that follows is not
    refused: it uploads "cd" to the upload that is already completed and
    returns the store's error. *)
Example Close_after_Commit_uploads :
  let d := memDriver 2 in
  let w0 := set_pendingPart (set_readyPart (newWriter d "blob" "upload-0" []) ["a"; "b"]%byte)
                            ["c"; "d"]%byte in
  let h0 := [Call_Object_InitiateMultipartUpload "blob" None] in
  match callsWriter 5 w0 [DoCommit; DoClose] h0 with
  | Done (w, results) h =>
      results = [(DoCommit, None); (DoClose, Some noSuchUpload)] /\
      h = h0 ++ [Call_Object_UploadPart "blob" "upload-0" 1 ["a"; "b"]%byte;
                 Call_Object_CompleteMultipartUpload "blob" "upload-0"
                   [mkObject "" "etag-2" 0 1 ""];
                 Call_Object_UploadPart "blob" "upload-0" 2 ["c"; "d"]%byte] /\
      w_committed w = true /\ w_closed w = true
  | _ => False
  end.
Proof. vm_compute. auto. Qed.
(** ** copy *)

Lemma wrap64_small (z : Z) : - 2 ^ 63 <= z <= maxInt64 -> wrap64 z = z.
Proof.
  unfold wrap64, maxInt64. intros Hz.
  rewrite Z.mod_small by lia. lia.
Qed.






(** And every rearrangement of the indices is the order of some schedule. *)
Lemma requestOrder_complete (order : list Z) :
  forall waiting : list Z,
    Permutation order waiting -> exists cs, requestOrder cs waiting = order.
Proof.
  induction order as [|i rest IH]; intros waiting Hperm.
  - apply Permutation_nil in Hperm. subst waiting. exists []. reflexivity.
  - assert (Hin : In i waiting) by (eapply Permutation_in; [exact Hperm|left; reflexivity]).
    apply list_elem_of_In, list_elem_of_lookup in Hin as (k & Hk).
    assert (Hlt : (k < length waiting)%nat) by (eapply lookup_lt_Some; exact Hk).
    destruct (IH (delete k waiting)) as (cs & Hcs).
    { apply (Permutation_cons_inv (a := i)). rewrite Hperm.
      apply delete_Permutation. exact Hk. }
    exists (k :: cs). simpl. rewrite Nat.mod_small by exact Hlt. rewrite Hk, Hcs.
    reflexivity.
Qed.








Section CopyProperties.
Context {Time : Type}.
Variable zeroTime : Time.
Variable time_Parse : string -> string -> Result Time.
Variable sched : Scheduler.


End CopyProperties.


(** A source of five bytes is copied with one [Copy] call. *)
Example copy_small_source :
  let listing := mkBucketGetResult [mkObject "source" "" 5 0 "2019-01-01T00:00:00Z"] [] false "" in
  let d := mkDriver (agreeingClient listing) "id" "key" "" defaultChunkSize in
  copy "" (fun _ s => Ok s) inOrder d "source" "dest" [] =
  Done None [Call_Bucket_Get (mkBucketGetOptions "source" "" "" 1);
             Call_Object_Copy "dest" "bucket.cos.example/source"].
Proof. vm_compute. reflexivity. Qed.

(** A source of 300 MiB is copied in three parts; here the third request
    reaches the store first. *)
Example copy_three_parts :
  let listing :=
    mkBucketGetResult [mkObject "source" "" 314572800 0 "2019-01-01T00:00:00Z"] [] false "" in
  let d := mkDriver (agreeingClient listing) "id" "key" "" defaultChunkSize in
  let source := "bucket.cos.example/source" in
  copy "" (fun _ s => Ok s) (mkScheduler [2; 0]%nat 0 0) d "source" "dest" [] =
  Done None
    [Call_Bucket_Get (mkBucketGetOptions "source" "" "" 1);
     Call_Object_InitiateMultipartUpload "dest"
       (Some (mkObjectPutHeaderOptions "private" "application/octet-stream"));
     Call_Object_UploadPartCopy "dest" "source" "upload-0" 3
       (Some (mkCopyPartHeaderOptions source "bytes=268435456-314572799"));
     Call_Object_UploadPartCopy "dest" "source" "upload-0" 1
       (Some (mkCopyPartHeaderOptions source "bytes=0-134217727"));
     Call_Object_UploadPartCopy "dest" "source" "upload-0" 2
       (Some (mkCopyPartHeaderOptions source "bytes=134217728-268435455"));
     Call_Object_CompleteMultipartUpload "dest" "upload-0"
       [mkObject "" "etag" 0 1 ""; mkObject "" "etag" 0 2 ""; mkObject "" "etag" 0 3 ""]].
Proof. vm_compute. reflexivity. Qed.

(** ** The in-memory store *)

Lemma replay_snoc (h : History) (c : Call) :
  replay (h ++ [c]) = store_step (replay h) c.
Proof. unfold replay. rewrite fold_left_app. reflexivity. Qed.

Lemma minChunkSize_pos : 0 < minChunkSize.
Proof. reflexivity. Qed.

Lemma len_app {A : Type} (l k : list A) : len (l ++ k) = len l + len k.
Proof. unfold len. rewrite length_app. lia. Qed.

Lemma len_nonneg {A : Type} (l : list A) : 0 <= len l.
Proof. unfold len. lia. Qed.

Lemma len_take {A : Type} (n : Z) (l : list A) :
  0 <= n <= len l -> len (take (Z.to_nat n) l) = n.
Proof. unfold len. intros Hn. rewrite length_take. lia. Qed.

Lemma len_drop {A : Type} (n : Z) (l : list A) :
  0 <= n <= len l -> len (drop (Z.to_nat n) l) = len l - n.
Proof. unfold len. intros Hn. rewrite length_drop. lia. Qed.

Lemma findUpload_insert (s : Store) (key uploadID : string) (parts : gmap Z (list byte))
    (o : gmap string (list byte)) (c : N) (l : list (list Z)) :
  findUpload (mkStore o (<[uploadID := mkUpload key parts]> (uploads s)) c l) key uploadID =
  Some (mkUpload key parts).
Proof.
  unfold findUpload. simpl. rewrite lookup_insert_eq. simpl.
  rewrite String.eqb_refl. reflexivity.
Qed.

Lemma findUpload_key (s : Store) (key uploadID : string) (u : Upload) :
  findUpload s key uploadID = Some u -> up_key u = key.
Proof.
  unfold findUpload. destruct (uploads s !! uploadID) as [u'|]; [|discriminate].
  destruct (String.eqb_spec (up_key u') key); [|discriminate].
  intros H; inversion H; subst. reflexivity.
Qed.

(** Sorting and stripping a part list keeps what holds of every part
    number. *)
Lemma insertByPartNumber_Forall (P : Object -> Prop) (o : Object) (l : list Object) :
  P o -> Forall P l -> Forall P (insertByPartNumber o l).
Proof.
  intros Ho Hl. induction Hl as [|o' l Ho' Hl IH]; simpl.
  - constructor; auto.
  - destruct (PartNumber o <=? PartNumber o'); repeat constructor; auto.
Qed.

Lemma sortObjectList_Forall (P : Object -> Prop) (l : list Object) :
  Forall P l -> Forall P (sortObjectList l).
Proof.
  intros Hl. induction Hl as [|o l Ho Hl IH]; simpl; [constructor|].
  apply insertByPartNumber_Forall; assumption.
Qed.

Lemma insertByPartNumber_length (o : Object) (l : list Object) :
  length (insertByPartNumber o l) = S (length l).
Proof.
  induction l as [|o' l IH]; simpl; [reflexivity|].
  destruct (PartNumber o <=? PartNumber o'); simpl; congruence.
Qed.

Lemma sortObjectList_length (l : list Object) : length (sortObjectList l) = length l.
Proof.
  induction l as [|o l IH]; simpl; [reflexivity|].
  rewrite insertByPartNumber_length. congruence.
Qed.

Lemma completeOptions_Forall (P : Z -> Prop) (l : list Object) :
  Forall (fun part => P (PartNumber part)) l ->
  Forall (fun part => P (PartNumber part)) (completeOptions l).
Proof.
  intros Hl. unfold completeOptions. induction Hl; simpl; constructor; auto.
Qed.

(** The data of the listed parts, when each of them is stored. *)
Lemma stored_parts (m : gmap Z (list byte)) (P : list byte -> Prop) (parts : list Object) :
  Forall (fun part => exists data, m !! PartNumber part = Some data /\ P data) parts ->
  exists datas,
    mapM (fun part => m !! PartNumber part) parts = Some datas /\
    Forall P datas /\ length datas = length parts.
Proof.
  intros Hall. induction Hall as [|part parts (data & Hdata & HP) Hall (datas & Hm & HPs & Hlen)].
  - exists []. simpl. auto.
  - exists (data :: datas). simpl. rewrite Hdata. simpl. rewrite Hm. simpl.
    repeat split; [constructor; auto|congruence].
Qed.

Lemma large_concat (datas : list (list byte)) :
  datas <> [] -> Forall large datas -> large (concat datas).
Proof.
  unfold large. intros Hne Hall.
  destruct Hall as [|data datas Hdata Hall]; [congruence|].
  simpl. rewrite len_app. pose proof (len_nonneg (concat datas)). lia.
Qed.

Lemma nonFinalPartsLarge_large (datas : list (list byte)) :
  Forall large datas -> nonFinalPartsLarge (map len datas).
Proof.
  unfold nonFinalPartsLarge. intros Hall.
  assert (Hsizes : Forall (fun size => minChunkSize <= size) (map len datas)).
  { induction Hall; simpl; constructor; auto. }
  revert Hsizes. generalize (map len datas). intros l Hl.
  induction Hl as [|x l Hx Hl IH]; simpl; [constructor|].
  destruct l; [constructor|]. constructor; auto.
Qed.

Lemma nonFinalPartsLarge_snoc (datas : list (list byte)) (final : list byte) :
  Forall large datas -> nonFinalPartsLarge (map len (datas ++ [final])).
Proof.
  unfold nonFinalPartsLarge. intros Hall.
  rewrite map_app. simpl. rewrite removelast_last.
  induction Hall; simpl; constructor; auto.
Qed.

(** ** The writer on the in-memory store *)

Lemma mem_UploadPart (h : History) (key uploadID : string) (n : Z) (body : list byte)
    (u : Upload) :
  findUpload (replay h) key uploadID = Some u ->
  answer_Object_UploadPart memClient h key uploadID n body = Ok (etagResponse (etagOf body)) /\
  replay (h ++ [Call_Object_UploadPart key uploadID n body]) =
    mkStore (objects (replay h))
            (<[uploadID := mkUpload key (<[n := body]> (up_parts u))]> (uploads (replay h)))
            (counter (replay h)) (completions (replay h)).
Proof.
  intros Hfind. rewrite replay_snoc.
  change (answer_Object_UploadPart memClient h key uploadID n body)
    with (fst (store_UploadPart (replay h) key uploadID n body)).
  change (store_step (replay h) (Call_Object_UploadPart key uploadID n body))
    with (snd (store_UploadPart (replay h) key uploadID n body)).
  unfold store_UploadPart. rewrite Hfind. split; reflexivity.
Qed.

Lemma mem_Complete (h : History) (key uploadID : string) (parts : list Object)
    (u : Upload) (datas : list (list byte)) :
  findUpload (replay h) key uploadID = Some u ->
  mapM (fun part => up_parts u !! PartNumber part) parts = Some datas ->
  answer_Object_CompleteMultipartUpload memClient h key uploadID parts = None /\
  replay (h ++ [Call_Object_CompleteMultipartUpload key uploadID parts]) =
    mkStore (<[key := concat datas]> (objects (replay h)))
            (delete uploadID (uploads (replay h)))
            (counter (replay h)) (completions (replay h) ++ [map len datas]).
Proof.
  intros Hfind Hdatas. rewrite replay_snoc.
  change (answer_Object_CompleteMultipartUpload memClient h key uploadID parts)
    with (fst (store_Complete (replay h) key uploadID parts)).
  change (store_step (replay h) (Call_Object_CompleteMultipartUpload key uploadID parts))
    with (snd (store_Complete (replay h) key uploadID parts)).
  unfold store_Complete. rewrite Hfind, Hdatas. split; reflexivity.
Qed.

Lemma mem_Initiate (h : History) (key : string) (opt : option ObjectPutHeaderOptions) :
  let uploadID := "upload-" +:+ pretty (counter (replay h)) in
  answer_Object_InitiateMultipartUpload memClient h key opt =
    (Some (mkInitiate key uploadID), None) /\
  replay (h ++ [Call_Object_InitiateMultipartUpload key opt]) =
    mkStore (objects (replay h)) (<[uploadID := mkUpload key ∅]> (uploads (replay h)))
            (counter (replay h) + 1)%N (completions (replay h)).
Proof. intros uploadID. rewrite replay_snoc. split; reflexivity. Qed.

Lemma mem_Get (h : History) (key : string) (data : list byte) :
  objects (replay h) !! key = Some data ->
  answer_Object_Get memClient h key None = Ok (mkResponse (fun _ => "") (mkBody data None)) /\
  replay (h ++ [Call_Object_Get key None]) = replay h.
Proof.
  intros Hobj. rewrite replay_snoc.
  change (answer_Object_Get memClient h key None) with (store_Get (replay h) key None).
  unfold store_Get. rewrite Hobj. split; reflexivity.
Qed.

Lemma mem_UploadPartCopy (h : History) (dest source uploadID : string) (n : Z)
    (u : Upload) (data : list byte) :
  findUpload (replay h) dest uploadID = Some u ->
  objects (replay h) !! source = Some data ->
  answer_Object_UploadPartCopy memClient h dest source uploadID n None =
    Ok (mkObject "" (etagOf data) (len data) n "") /\
  replay (h ++ [Call_Object_UploadPartCopy dest source uploadID n None]) =
    mkStore (objects (replay h))
            (<[uploadID := mkUpload dest (<[n := data]> (up_parts u))]> (uploads (replay h)))
            (counter (replay h)) (completions (replay h)).
Proof.
  intros Hfind Hobj. rewrite replay_snoc.
  change (answer_Object_UploadPartCopy memClient h dest source uploadID n None)
    with (fst (store_UploadPartCopy (replay h) dest source uploadID n None)).
  change (store_step (replay h) (Call_Object_UploadPartCopy dest source uploadID n None))
    with (snd (store_UploadPartCopy (replay h) dest source uploadID n None)).
  unfold store_UploadPartCopy. rewrite Hfind, Hobj. split; reflexivity.
Qed.

(** [flushPart] on the in-memory store, with something to flush: the part
    is stored under the next number and recorded. *)
Lemma flushPart_mem (w : writer) (h : History) (u : Upload) :
  Client (w_driver w) = memClient ->
  findUpload (replay h) (w_key w) (w_uploadID w) = Some u ->
  (len (w_readyPart w) =? 0) && (len (w_pendingPart w) =? 0) = false ->
  let merge := len (w_pendingPart w) <? ChunkSize (w_driver w) in
  let body := if merge then w_readyPart w ++ w_pendingPart w else w_readyPart w in
  let partNumber := len (w_parts w) + 1 in
  let h' := h ++ [Call_Object_UploadPart (w_key w) (w_uploadID w) partNumber body] in
  exists w',
    flushPart w h = Done (w', None) h' /\
    w_parts w' = w_parts w ++ [mkObject "" (etagOf body) 0 partNumber ""] /\
    w_readyPart w' = (if merge then [] else w_pendingPart w) /\
    w_pendingPart w' = [] /\
    (w_driver w' = w_driver w /\ w_key w' = w_key w /\ w_uploadID w' = w_uploadID w /\
     terminal w' = terminal w) /\
    findUpload (replay h') (w_key w) (w_uploadID w) =
      Some (mkUpload (w_key w) (<[partNumber := body]> (up_parts u))) /\
    objects (replay h') = objects (replay h) /\
    completions (replay h') = completions (replay h).
Proof.
  intros Hclient Hfind Hsome merge body partNumber h'.
  destruct (mem_UploadPart h (w_key w) (w_uploadID w) partNumber body u Hfind)
    as (Hanswer & Hstore).
  rewrite <- Hclient in Hanswer.
  destruct (flushPart_uploaded w h _ Hsome Hanswer)
    as (w' & Hrun & Hparts & Hready & Hpending).
  exists w'. split; [exact Hrun|]. split; [exact Hparts|].
  split; [exact Hready|]. split; [exact Hpending|].
  split.
  { apply flushPart_frame in Hrun as (Hd & Hk & Hu & _ & Hc & Hm & Hx & _).
    unfold terminal. rewrite Hc, Hm, Hx. auto. }
  fold h' in Hstore. rewrite Hstore.
  split; [apply findUpload_insert|]. split; reflexivity.
Qed.

Lemma writerInv_ext (w w' : writer) (s : Store) :
  w_driver w' = w_driver w -> terminal w' = terminal w ->
  w_pendingPart w' = w_pendingPart w -> w_key w' = w_key w ->
  w_uploadID w' = w_uploadID w -> w_parts w' = w_parts w ->
  writerInv w s -> writerInv w' s.
Proof.
  unfold writerInv, recordedParts. intros -> -> -> -> -> ->. auto.
Qed.

(** After a large part was flushed the writer and the store agree again. *)
Lemma recordedParts_flush (w w' : writer) (s s' : Store) (u : Upload) (body : list byte)
    (etag : string) :
  findUpload s (w_key w) (w_uploadID w) = Some u ->
  Forall (fun part =>
            PartNumber part <= len (w_parts w) /\
            exists data, up_parts u !! PartNumber part = Some data /\ large data)
         (w_parts w) ->
  large body ->
  w_key w' = w_key w -> w_uploadID w' = w_uploadID w ->
  w_parts w' = w_parts w ++ [mkObject "" etag 0 (len (w_parts w) + 1) ""] ->
  findUpload s' (w_key w) (w_uploadID w) =
    Some (mkUpload (w_key w) (<[len (w_parts w) + 1 := body]> (up_parts u))) ->
  recordedParts w' s'.
Proof.
  intros Hfind Hparts Hbody Hk Hu Hparts' Hfind'.
  unfold recordedParts. rewrite Hk, Hu, Hparts'.
  eexists. split; [exact Hfind'|]. simpl.
  rewrite len_app. change (len [mkObject "" etag 0 (len (w_parts w) + 1) ""]) with 1.
  apply Forall_app. split.
  - eapply Forall_impl; [exact Hparts|]. simpl.
    intros part (Hle & data & Hdata & Hlarge). split; [lia|].
    exists data. split; [|exact Hlarge].
    rewrite lookup_insert_ne by lia. exact Hdata.
  - constructor; [|constructor]. simpl. split; [lia|].
    exists body. split; [apply lookup_insert_eq|exact Hbody].
Qed.

(** What the first half of the loop body does to the buffers. *)
Lemma fillReady_spec (w : writer) (p : list byte) (n : Z) :
  let '(w1, p1, n1) := fillReady w p n in
  n1 + len p1 = n + len p /\
  (length p1 <= length p)%nat /\
  (p1 <> [] -> ChunkSize (w_driver w) <= len (w_readyPart w1)).
Proof.
  unfold fillReady. cbv zeta.
  pose proof (len_nonneg p) as Hp.
  destruct (Z.ltb_spec 0 (ChunkSize (w_driver w) - len (w_readyPart w))) as [Hpos|Hneg].
  - destruct (Z.leb_spec (ChunkSize (w_driver w) - len (w_readyPart w)) (len p)) as [Hle|Hgt].
    + rewrite len_drop by lia. split; [lia|]. split.
      * rewrite length_drop. lia.
      * intros _. simpl. rewrite len_app, len_take by lia. lia.
    + split; [unfold len; simpl; lia|]. split; [simpl; lia|]. congruence.
  - split; [reflexivity|]. split; [lia|]. intros _. lia.
Qed.

(** The loop of [Write] on the in-memory store: every byte is accepted,
    only large parts are uploaded, no upload is completed. *)
Lemma writeLoop_mem (fuel : nat) :
  forall (w : writer) (p : list byte) (n : Z) (h : History),
    writerInv w (replay h) ->
    (length p < fuel)%nat ->
    exists w' h',
      writeLoop fuel w p n h = Done (w', n + len p, None) h' /\
      writerInv w' (replay h') /\
      completions (replay h') = completions (replay h).
Proof.
  induction fuel as [|fuel IH]; intros w p n h Hinv Hfuel; [lia|].
  destruct p as [|b p].
  { rewrite writeLoop_nil. eexists _, h.
    change (len []) with 0. rewrite Z.add_0_r.
    split; [reflexivity|]. split; [|reflexivity].
    eapply writerInv_ext; [..|exact Hinv]; reflexivity. }
  rewrite writeLoop_cons.
  pose proof (fillReady_frame w (b :: p) n) as Hframe.
  pose proof (fillReady_spec w (b :: p) n) as Hspec.
  destruct (fillReady w (b :: p) n) as [[w1 p1] n1].
  destruct Hframe as (Hd & Hk & Hu & Hparts & _ & Hpend & Hc & Hm & Hx).
  destruct Hspec as (Hn & Hlen & Hfull).
  assert (Hinv1 : writerInv w1 (replay h)).
  { eapply writerInv_ext; [..|exact Hinv]; auto.
    unfold terminal. rewrite Hc, Hm, Hx. reflexivity. }
  destruct Hinv1 as (Hclient & Hmin & Hterm & Hpending & u & Hfind & Hrec).
  cbv zeta.
  pose proof minChunkSize_pos as Hpos.
  pose proof (len_nonneg p1) as Hp1.
  destruct (Z.ltb_spec 0 (ChunkSize (w_driver w1) - len (w_pendingPart w1))) as [_|Hno];
    [|lia].
  destruct (Z.leb_spec (ChunkSize (w_driver w1) - len (w_pendingPart w1)) (len p1))
    as [Hle|Hgt].
  - set (needed := ChunkSize (w_driver w1) - len (w_pendingPart w1)) in *.
    assert (Hneeded : 0 < needed) by (unfold needed; lia).
    set (w1' := set_pendingPart w1 (w_pendingPart w1 ++ take (Z.to_nat needed) p1)).
    assert (Hne : p1 <> []).
    { intros ->. change (len []) with 0 in Hle. lia. }
    assert (Hready : ChunkSize (w_driver w1) <= len (w_readyPart w1)).
    { rewrite Hd. apply Hfull. exact Hne. }
    assert (Hpend' : len (w_pendingPart w1') = ChunkSize (w_driver w1)).
    { unfold w1'. simpl. rewrite len_app, len_take by lia. unfold needed. lia. }
    destruct (flushPart_mem w1' h u) as (w2 & Hrun & Hparts2 & Hready2 & Hpend2 & Hframe2 &
                                         Hfind2 & _ & Hcompl2).
    { exact Hclient. }
    { exact Hfind. }
    { apply andb_false_iff. left. apply Z.eqb_neq. unfold w1'. simpl. lia. }
    assert (Hmerge : (len (w_pendingPart w1') <? ChunkSize (w_driver w1')) = false).
    { apply Z.ltb_ge. rewrite Hpend'. unfold w1'. simpl. lia. }
    rewrite Hmerge in Hrun, Hparts2, Hready2, Hfind2, Hcompl2.
    rewrite Hrun.
    destruct Hframe2 as (Hd2 & Hk2 & Hu2 & Hterm2).
    assert (Hinv2 : writerInv w2 (replay (h ++ [Call_Object_UploadPart (w_key w1')
                       (w_uploadID w1') (len (w_parts w1') + 1) (w_readyPart w1')]))).
    { split; [rewrite Hd2; exact Hclient|].
      split; [rewrite Hd2; exact Hmin|].
      split; [rewrite Hterm2; exact Hterm|].
      split; [rewrite Hpend2, Hd2; change (len []) with 0; unfold w1'; simpl; lia|].
      apply (recordedParts_flush w1' w2 (replay h) _ u (w_readyPart w1')
                                 (etagOf (w_readyPart w1'))).
      - exact Hfind.
      - exact Hrec.
      - unfold large, w1'. simpl. lia.
      - exact Hk2.
      - exact Hu2.
      - exact Hparts2.
      - exact Hfind2. }
    destruct (IH w2 (drop (Z.to_nat needed) p1) (n1 + needed) _ Hinv2)
      as (w' & h' & Hloop & Hinv' & Hcompl').
    { rewrite length_drop. unfold len in *. cbn [length] in Hfuel, Hlen. lia. }
    exists w', h'. rewrite Hloop. split.
    + rewrite len_drop by lia. do 3 f_equal. lia.
    + split; [exact Hinv'|]. rewrite Hcompl'. exact Hcompl2.
  - rewrite writeLoop_nil. eexists _, h. split.
    + do 3 f_equal. lia.
    + split; [|reflexivity].
      split; [exact Hclient|]. split; [exact Hmin|]. split; [exact Hterm|].
      split; [simpl; rewrite len_app; lia|].
      exists u. split; [exact Hfind|exact Hrec].
Qed.

Ltac wsimpl :=
  cbn [w_driver w_key w_uploadID w_parts w_size w_readyPart w_pendingPart w_closed
       w_committed w_cancelled set_uploadID set_parts set_size set_readyPart
       set_pendingPart set_closed set_committed set_cancelled v_UploadID v_Key] in *.

(** The repair of [Write] on the in-memory store: the upload is completed
    with large parts only, and the writer agrees with the new upload. *)
Lemma repairUpload_mem (w : writer) (h : History) :
  writerInv w (replay h) ->
  w_parts w <> [] ->
  exists w' h' sizes,
    repairUpload w h = Done (w', None) h' /\
    writerInv w' (replay h') /\
    completions (replay h') = completions (replay h) ++ [sizes] /\
    nonFinalPartsLarge sizes.
Proof.
  intros (Hclient & Hmin & Hterm & Hpending & u & Hfind & Hrec) Hne.
  set (parts := sortObjectList (completeOptions (w_parts w))).
  assert (Hstored : Forall (fun part => exists data,
                              up_parts u !! PartNumber part = Some data /\ large data) parts).
  { apply sortObjectList_Forall.
    apply (completeOptions_Forall
             (fun z => exists data, up_parts u !! z = Some data /\ large data)).
    eapply Forall_impl; [exact Hrec|]. simpl. intros part (_ & Hdata). exact Hdata. }
  destruct (stored_parts _ _ _ Hstored) as (datas & Hdatas & Hlarge & Hlen).
  assert (Hdatas_ne : datas <> []).
  { intros ->. unfold parts in Hlen. rewrite sortObjectList_length in Hlen.
    unfold completeOptions in Hlen. rewrite length_map in Hlen.
    destruct (w_parts w); [congruence|discriminate]. }
  destruct (mem_Complete h (w_key w) (w_uploadID w) parts u datas Hfind Hdatas)
    as (Hanswer1 & Hstore1).
  set (h1 := h ++ [Call_Object_CompleteMultipartUpload (w_key w) (w_uploadID w) parts]) in *.
  destruct (mem_Initiate h1 (w_key w) None) as (Hanswer2 & Hstore2).
  set (uploadID := "upload-" +:+ pretty (counter (replay h1))) in *.
  set (h2 := h1 ++ [Call_Object_InitiateMultipartUpload (w_key w) None]) in *.
  assert (Hfind2 : findUpload (replay h2) (w_key w) uploadID = Some (mkUpload (w_key w) ∅)).
  { rewrite Hstore2. apply findUpload_insert. }
  assert (Hobj2 : objects (replay h2) !! w_key w = Some (concat datas)).
  { rewrite Hstore2. simpl. rewrite Hstore1. simpl. apply lookup_insert_eq. }
  assert (Hcompl2 : completions (replay h2) = completions (replay h) ++ [map len datas]).
  { rewrite Hstore2. simpl. rewrite Hstore1. reflexivity. }
  unfold repairUpload. cbv zeta. fold parts. step. rewrite Hclient, Hanswer1.
  fold h1. step. rewrite Hanswer2. fold h2. cbv beta iota. wsimpl.
  destruct (w_size w <? minChunkSize).
  - destruct (mem_Get h2 (w_key w) (concat datas) Hobj2) as (Hanswer3 & Hstore3).
    step. rewrite Hclient, Hanswer3. cbv beta iota. wsimpl.
    eexists _, _, (map len datas). split; [reflexivity|].
    split; [|split; [rewrite Hstore3; exact Hcompl2|apply nonFinalPartsLarge_large; exact Hlarge]].
    rewrite Hstore3.
    split; [exact Hclient|]. split; [exact Hmin|]. split; [exact Hterm|].
    split; [exact Hpending|].
    exists (mkUpload (w_key w) ∅). split; [exact Hfind2|constructor].
  - destruct (mem_UploadPartCopy h2 (w_key w) (w_key w) uploadID 1 _ (concat datas)
                                 Hfind2 Hobj2) as (Hanswer3 & Hstore3).
    step. rewrite Hclient, Hanswer3. cbv beta iota. wsimpl.
    eexists _, _, (map len datas). split; [reflexivity|].
    split; [|split; [rewrite Hstore3; exact Hcompl2|apply nonFinalPartsLarge_large; exact Hlarge]].
    split; [exact Hclient|]. split; [exact Hmin|]. split; [exact Hterm|].
    split; [exact Hpending|].
    eexists. split.
    + rewrite Hstore3. apply findUpload_insert.
    + constructor; [|constructor]. simpl. split; [reflexivity|].
      exists (concat datas). split; [apply lookup_insert_eq|].
      apply large_concat; assumption.
Qed.

Lemma terminal_false (w : writer) :
  terminal w = false ->
  w_closed w = false /\ w_committed w = false /\ w_cancelled w = false.
Proof.
  unfold terminal. destruct (w_closed w), (w_committed w), (w_cancelled w);
    simpl; intros H; try discriminate H; auto.
Qed.

(** [Write] on the in-memory store accepts every byte and completes only
    uploads whose parts are all large. *)
Lemma Write_mem (fuel : nat) (w : writer) (p : list byte) (h : History) :
  writerInv w (replay h) ->
  (length p < fuel)%nat ->
  exists w' h' new,
    Write fuel w p h = Done (w', len p, None) h' /\
    writerInv w' (replay h') /\
    completedSince (replay h) (replay h') new.
Proof.
  intros Hinv Hfuel.
  destruct (terminal_false w) as (Hc & Hm & Hx); [apply Hinv|].
  unfold Write. rewrite Hc, Hm, Hx.
  destruct (lastPartIsSmall w) eqn:Hsmall.
  - assert (Hne : w_parts w <> []).
    { unfold lastPartIsSmall in Hsmall. intros Hnil. rewrite Hnil in Hsmall.
      discriminate Hsmall. }
    destruct (repairUpload_mem w h Hinv Hne) as (w1 & h1 & sizes & Hrep & Hinv1 & Hcompl & Hok).
    rewrite (bind_Done _ _ _ _ _ Hrep). cbv beta iota.
    destruct (writeLoop_mem fuel w1 p 0 h1 Hinv1 Hfuel) as (w' & h' & Hloop & Hinv' & Hcompl').
    exists w', h', [sizes]. split; [exact Hloop|]. split; [exact Hinv'|].
    split; [rewrite Hcompl'; exact Hcompl|]. constructor; [exact Hok|constructor].
  - rewrite bind_ret. cbv beta iota.
    destruct (writeLoop_mem fuel w p 0 h Hinv Hfuel) as (w' & h' & Hloop & Hinv' & Hcompl').
    exists w', h', []. split; [exact Hloop|]. split; [exact Hinv'|].
    split; [rewrite Hcompl', app_nil_r; reflexivity|constructor].
Qed.

Lemma writeAll_mem (fuel : nat) (ps : list (list byte)) :
  forall (w : writer) (h : History),
    writerInv w (replay h) ->
    Forall (fun p => (length p < fuel)%nat) ps ->
    exists w' h' new,
      writeAll fuel w ps h = Done (w', map (fun p => (len p, None)) ps) h' /\
      writerInv w' (replay h') /\
      completedSince (replay h) (replay h') new.
Proof.
  induction ps as [|p ps IH]; intros w h Hinv Hfuel.
  - exists w, h, []. split; [reflexivity|]. split; [exact Hinv|].
    split; [rewrite app_nil_r; reflexivity|constructor].
  - inversion Hfuel as [|? ? Hp Hps]; subst.
    destruct (Write_mem fuel w p h Hinv Hp) as (w1 & h1 & new1 & Hwrite & Hinv1 & Hc1 & Hok1).
    destruct (IH w1 h1 Hinv1 Hps) as (w' & h' & new2 & Hrest & Hinv' & Hc2 & Hok2).
    exists w', h', (new1 ++ new2).
    cbn [writeAll]. rewrite (bind_Done _ _ _ _ _ Hwrite). cbv beta iota.
    rewrite (bind_Done _ _ _ _ _ Hrest). cbv beta iota.
    split; [reflexivity|]. split; [exact Hinv'|].
    split; [rewrite Hc2, Hc1, app_assoc; reflexivity|apply Forall_app; auto].
Qed.

Lemma stored_parts_snoc (m : gmap Z (list byte)) (parts : list Object) (final : Object)
    (body : list byte) :
  Forall (fun part => exists data, m !! PartNumber part = Some data /\ large data) parts ->
  m !! PartNumber final = Some body ->
  exists datas,
    mapM (fun part => m !! PartNumber part) (parts ++ [final]) = Some (datas ++ [body]) /\
    Forall large datas.
Proof.
  intros Hall Hfinal.
  induction Hall as [|part parts (data & Hdata & Hlarge) Hall (datas & Hm & Hls)].
  - exists []. simpl. rewrite Hfinal. auto.
  - exists (data :: datas). simpl. rewrite Hdata. simpl. rewrite Hm. simpl.
    split; [reflexivity|constructor; auto].
Qed.

(** [Commit] on the in-memory store succeeds, and in the upload it
    completes every part but the last is large. *)
Lemma Commit_mem (w : writer) (h : History) :
  writerInv w (replay h) ->
  exists w' h' sizes,
    Commit w h = Done (w', None) h' /\
    w_committed w' = true /\
    completions (replay h') = completions (replay h) ++ [sizes] /\
    nonFinalPartsLarge sizes.
Proof.
  intros Hinv.
  destruct (terminal_false w) as (Hc & Hm & Hx); [apply Hinv|].
  destruct Hinv as (Hclient & Hmin & Hterm & Hpending & u & Hfind & Hrec).
  unfold Commit. rewrite Hc, Hm, Hx.
  destruct ((len (w_readyPart w) =? 0) && (len (w_pendingPart w) =? 0)) eqn:Hempty.
  - pose proof (flushPart_empty w h Hempty) as Hflush.
    rewrite (bind_Done _ _ _ _ _ Hflush). cbv beta iota zeta. step. wsimpl.
    assert (Hstored : Forall (fun part => exists data,
                                up_parts u !! PartNumber part = Some data /\ large data)
                             (w_parts w)).
    { eapply Forall_impl; [exact Hrec|]. simpl. intros part (_ & Hdata). exact Hdata. }
    destruct (stored_parts _ _ _ Hstored) as (datas & Hdatas & Hlarge & _).
    destruct (mem_Complete h (w_key w) (w_uploadID w) (w_parts w) u datas Hfind Hdatas)
      as (Hanswer & Hstore).
    rewrite Hclient, Hanswer.
    eexists _, _, (map len datas). split; [reflexivity|]. split; [reflexivity|].
    split; [rewrite Hstore; reflexivity|apply nonFinalPartsLarge_large; exact Hlarge].
  - destruct (flushPart_mem w h u Hclient Hfind Hempty)
      as (w1 & Hflush & Hparts1 & _ & _ & (Hd1 & Hk1 & Hu1 & _) & Hfind1 & _ & Hcompl1).
    rewrite (bind_Done _ _ _ _ _ Hflush). cbv beta iota zeta. step. wsimpl.
    set (body := if len (w_pendingPart w) <? ChunkSize (w_driver w)
                 then w_readyPart w ++ w_pendingPart w else w_readyPart w) in *.
    set (h1 := h ++ [Call_Object_UploadPart (w_key w) (w_uploadID w)
                                            (len (w_parts w) + 1) body]) in *.
    set (m1 := <[len (w_parts w) + 1 := body]> (up_parts u)).
    assert (Hstored : Forall (fun part => exists data,
                                m1 !! PartNumber part = Some data /\ large data)
                             (w_parts w)).
    { eapply Forall_impl; [exact Hrec|]. simpl. intros part (Hle & data & Hdata & Hl).
      exists data. split; [|exact Hl]. unfold m1. rewrite lookup_insert_ne by lia.
      exact Hdata. }
    destruct (stored_parts_snoc m1 (w_parts w)
                (mkObject "" (etagOf body) 0 (len (w_parts w) + 1) "") body Hstored)
      as (datas & Hdatas & Hlarge).
    { apply lookup_insert_eq. }
    rewrite <- Hparts1 in Hdatas.
    rewrite <- Hk1, <- Hu1 in Hfind1.
    destruct (mem_Complete h1 (w_key w1) (w_uploadID w1) (w_parts w1) _ _ Hfind1 Hdatas)
      as (Hanswer & Hstore).
    rewrite Hd1, Hclient, Hanswer.
    eexists _, _, (map len (datas ++ [body])). split; [reflexivity|]. split; [reflexivity|].
    split; [rewrite Hstore; simpl; rewrite Hcompl1; reflexivity|].
    apply nonFinalPartsLarge_snoc. exact Hlarge.
Qed.

(** A writer obtained without [append] agrees with the store. *)
Lemma Writer_mem (d : driver) (path : string) (h : History) :
  Client d = memClient ->
  minChunkSize <= ChunkSize d ->
  exists w h',
    Writer d path false h = Done (Ok w) h' /\
    writerInv w (replay h') /\
    completions (replay h') = completions (replay h).
Proof.
  intros Hclient Hmin.
  pose proof (Writer_unfold d path h) as Hw. cbv zeta in Hw.
  rewrite Hclient in Hw.
  destruct (mem_Initiate h (cosPath d path) None) as (Hanswer & Hstore).
  rewrite Hanswer in Hw.
  eexists _, _. split; [exact Hw|]. rewrite Hstore. split; [|reflexivity].
  split; [exact Hclient|]. split; [exact Hmin|]. split; [reflexivity|].
  split; [simpl; change (len []) with 0; pose proof minChunkSize_pos; lia|].
  eexists. split; [apply findUpload_insert|constructor].
Qed.

(** ** The repair of Write, for every transport *)

Lemma repairUpload_calls (w : writer) (h : History) (v : InitiateMultipartUploadResult) :
  let cl := Client (w_driver w) in
  let parts := sortObjectList (completeOptions (w_parts w)) in
  let c1 := Call_Object_CompleteMultipartUpload (w_key w) (w_uploadID w) parts in
  let c2 := Call_Object_InitiateMultipartUpload (w_key w) None in
  let h2 := h ++ [c1; c2] in
  let h3 := h ++ [c1; c2; reseedCall w v] in
  let w2 := set_uploadID w (v_UploadID v) in
  answer_Object_CompleteMultipartUpload cl h (w_key w) (w_uploadID w) parts = None ->
  answer_Object_InitiateMultipartUpload cl (h ++ [c1]) (w_key w) None = (Some v, None) ->
  repairUpload w h =
  if w_size w <? minChunkSize then
    match answer_Object_Get cl h2 (w_key w) None with
    | Err err => Done (w2, Some err) h3
    | Ok resp =>
        Done (set_readyPart (set_parts w2 []) (body_data (Body resp)), body_err (Body resp)) h3
    end
  else
    match answer_Object_UploadPartCopy cl h2 (v_Key v) (w_key w) (v_UploadID v) 1 None with
    | Err err => Done (w2, Some err) h3
    | Ok part => Done (set_parts w2 [part], None) h3
    end.
Proof.
  intros cl parts c1 c2 h2 h3 w2 Hcomplete Hinit.
  assert (E2 : (h ++ [c1]) ++ [c2] = h2) by (unfold h2; rewrite <- app_assoc; reflexivity).
  assert (E3 : h2 ++ [reseedCall w v] = h3)
    by (unfold h2, h3; rewrite <- app_assoc; reflexivity).
  unfold repairUpload. cbv zeta. step. fold cl parts. rewrite Hcomplete.
  fold c1. step. fold cl c2. rewrite Hinit. cbv beta iota. rewrite E2.
  unfold reseedCall in E3. wsimpl. fold cl.
  destruct (w_size w <? minChunkSize); step; wsimpl; fold cl; rewrite E3.
  - destruct (answer_Object_Get cl h2 (w_key w) None) as [resp|err]; reflexivity.
  - destruct (answer_Object_UploadPartCopy cl h2 (v_Key v) (w_key w) (v_UploadID v) 1 None);
      reflexivity.
Qed.

Lemma Write_repair (fuel : nat) (w : writer) (p : list byte) (h : History)
    (v : InitiateMultipartUploadResult) :
  let cl := Client (w_driver w) in
  let parts := sortObjectList (completeOptions (w_parts w)) in
  let c1 := Call_Object_CompleteMultipartUpload (w_key w) (w_uploadID w) parts in
  let c2 := Call_Object_InitiateMultipartUpload (w_key w) None in
  let h2 := h ++ [c1; c2] in
  let h3 := h ++ [c1; c2; reseedCall w v] in
  let w2 := set_uploadID w (v_UploadID v) in
  terminal w = false ->
  lastPartIsSmall w = true ->
  answer_Object_CompleteMultipartUpload cl h (w_key w) (w_uploadID w) parts = None ->
  answer_Object_InitiateMultipartUpload cl (h ++ [c1]) (w_key w) None = (Some v, None) ->
  (exists rest,
      history_of (Write fuel w p h) = h3 ++ rest /\ Forall isUploadPart rest) /\
  (w_size w < minChunkSize ->
   forall resp,
     answer_Object_Get cl h2 (w_key w) None = Ok resp ->
     body_err (Body resp) = None ->
     Write fuel w p h =
       writeLoop fuel (set_readyPart (set_parts w2 []) (body_data (Body resp))) p 0 h3) /\
  (minChunkSize <= w_size w ->
   forall part,
     answer_Object_UploadPartCopy cl h2 (v_Key v) (w_key w) (v_UploadID v) 1 None = Ok part ->
     Write fuel w p h = writeLoop fuel (set_parts w2 [part]) p 0 h3).
Proof.
  intros cl parts c1 c2 h2 h3 w2 Hterm Hsmall Hcomplete Hinit.
  destruct (terminal_false w Hterm) as (Hc & Hm & Hx).
  pose proof (repairUpload_calls w h v Hcomplete Hinit) as Hrep.
  cbv zeta in Hrep. fold cl parts c1 c2 h2 h3 w2 in Hrep.
  assert (Hstop : forall (w' : writer) (err : error),
             exists rest,
               history_of (Done (A := writer * Z * option error) (w', 0, Some err) h3) =
                 h3 ++ rest /\ Forall isUploadPart rest).
  { intros w' err. exists []. rewrite app_nil_r. simpl. auto. }
  assert (Hwrite : Write fuel w p h =
            match repairUpload w h with
            | Done (w', None) h' => writeLoop fuel w' p 0 h'
            | Done (w', Some err) h' => Done (w', 0, Some err) h'
            | Panic h' => Panic h'
            | OutOfFuel h' => OutOfFuel h'
            end).
  { unfold Write. rewrite Hc, Hm, Hx, Hsmall. unfold bind at 1.
    destruct (repairUpload w h) as [[w' [err|]] h'|h'|h']; reflexivity. }
  rewrite Hwrite, Hrep. clear Hwrite Hrep.
  repeat apply conj.
  - destruct (w_size w <? minChunkSize).
    + destruct (answer_Object_Get cl h2 (w_key w) None) as [resp|err]; [|apply Hstop].
      destruct (body_err (Body resp)); [apply Hstop|apply writeLoop_calls].
    + destruct (answer_Object_UploadPartCopy cl h2 (v_Key v) (w_key w) (v_UploadID v) 1 None);
        [apply writeLoop_calls|apply Hstop].
  - intros Hlt resp Hget Hread.
    rewrite (proj2 (Z.ltb_lt _ _) Hlt), Hget, Hread. reflexivity.
  - intros Hge part Hcopy.
    rewrite (proj2 (Z.ltb_ge _ _) Hge), Hcopy. reflexivity.
Qed.

(** ** The count and the buffers of Write, for every transport *)

Lemma repairUpload_size (w w' : writer) (err : option error) (h h' : History) :
  repairUpload w h = Done (w', err) h' -> w_size w' = w_size w.
Proof.
  unfold repairUpload. cbv zeta. step.
  destruct (answer_Object_CompleteMultipartUpload _ _ _ _ _).
  { step. intros H; inversion H; subst; auto. }
  step. destruct (answer_Object_InitiateMultipartUpload _ _ _ _) as [[v|] [e|]];
    try (intros H; inversion H; subst; auto; fail).
  simpl. destruct (w_size w <? minChunkSize); step.
  - destruct (answer_Object_Get _ _ _ _) as [resp|e];
      intros H; inversion H; subst; auto.
  - destruct (answer_Object_UploadPartCopy _ _ _ _ _ _ _) as [part|e];
      intros H; inversion H; subst; auto.
Qed.

(** A failed [flushPart] that had a full pending buffer leaves both
    buffers as they were. *)
Lemma flushPart_failed (w w' : writer) (err : error) (h h' : History) :
  flushPart w h = Done (w', Some err) h' ->
  ChunkSize (w_driver w) <= len (w_pendingPart w) ->
  w_readyPart w' = w_readyPart w /\ w_pendingPart w' = w_pendingPart w.
Proof.
  intros Hflush Hfull. unfold flushPart in Hflush.
  destruct ((len (w_readyPart w) =? 0) && (len (w_pendingPart w) =? 0));
    [discriminate Hflush|].
  cbv zeta in Hflush.
  destruct (Z.ltb_spec (len (w_pendingPart w)) (ChunkSize (w_driver w))) as [Hlt|_]; [lia|].
  revert Hflush. step.
  destruct (answer_Object_UploadPart _ _ _ _ _ _); intros H; inversion H; subst; auto.
Qed.

Lemma writeLoop_count (fuel : nat) :
  forall (w : writer) (p : list byte) (n : Z) (w' : writer) (n' : Z) (err : option error)
         (h h' : History),
    writeLoop fuel w p n h = Done (w', n', err) h' ->
    n <= n' <= n + len p /\
    (err = None -> n' = n + len p) /\
    w_size w' = wrap64 (w_size w + n') /\
    (err <> None ->
     n < n' /\
     ChunkSize (w_driver w') <= len (w_readyPart w') /\
     ChunkSize (w_driver w') <= len (w_pendingPart w')).
Proof.
  induction fuel as [|fuel IH]; intros w p n w' n' err h h' Hloop.
  { destruct p; simpl in Hloop; inversion Hloop; subst; simpl.
    change (len []) with 0. repeat split; try lia; congruence. }
  destruct p as [|b p].
  { rewrite writeLoop_nil in Hloop. inversion Hloop; subst; simpl.
    change (len []) with 0. repeat split; try lia; congruence. }
  rewrite writeLoop_cons in Hloop.
  pose proof (fillReady_frame w (b :: p) n) as Hframe.
  pose proof (fillReady_spec w (b :: p) n) as Hspec.
  destruct (fillReady w (b :: p) n) as [[w1 p1] n1].
  destruct Hframe as (Hd & _ & _ & _ & Hsize & Hpend & _).
  destruct Hspec as (Hn & Hshorter & Hfull).
  assert (Hlen : len p1 <= len (b :: p)) by (unfold len; lia).
  pose proof (len_nonneg p1) as Hp1.
  pose proof (len_nonneg (b :: p)) as Hp.
  cbv zeta in Hloop.
  destruct (Z.ltb_spec 0 (ChunkSize (w_driver w1) - len (w_pendingPart w1))) as [Hpos|Hneg].
  - destruct (Z.leb_spec (ChunkSize (w_driver w1) - len (w_pendingPart w1)) (len p1))
      as [Hle|Hgt].
    + set (needed := ChunkSize (w_driver w1) - len (w_pendingPart w1)) in *.
      set (w1' := set_pendingPart w1 (w_pendingPart w1 ++ take (Z.to_nat needed) p1)) in *.
      assert (Hne : p1 <> []).
      { intros ->. change (len []) with 0 in Hle. lia. }
      assert (Hready : ChunkSize (w_driver w1) <= len (w_readyPart w1)).
      { rewrite Hd. apply Hfull. exact Hne. }
      assert (Hpend' : len (w_pendingPart w1') = ChunkSize (w_driver w1)).
      { unfold w1'. simpl. rewrite len_app, len_take by lia. unfold needed. lia. }
      destruct (flushPart w1' h) as [[w2 [e2|]] h2|h2|h2] eqn:Hflush; try discriminate.
      * assert (Hfullq : ChunkSize (w_driver w1') <= len (w_pendingPart w1'))
          by (rewrite Hpend'; unfold w1'; simpl; lia).
        destruct (flushPart_failed _ _ _ _ _ Hflush Hfullq) as (Hr2 & Hq2).
        apply flushPart_frame in Hflush as (Hd2 & _ & _ & Hs2 & _).
        inversion Hloop; subst. simpl.
        split; [lia|]. split; [congruence|].
        split; [rewrite Hs2; unfold w1'; simpl; rewrite Hsize; reflexivity|].
        intros _. rewrite Hd2, Hr2, Hq2.
        split; [lia|]. split; [unfold w1'; simpl; exact Hready|].
        rewrite Hpend'. unfold w1'. simpl. lia.
      * apply flushPart_frame in Hflush as (Hd2 & _ & _ & Hs2 & _).
        apply IH in Hloop as (Hrange & Hall & Hsz & Herr).
        rewrite len_drop in Hrange, Hall by lia.
        split; [lia|]. split; [intros E; specialize (Hall E); lia|].
        split; [rewrite Hsz, Hs2; unfold w1'; simpl; rewrite Hsize; reflexivity|].
        intros E. destruct (Herr E) as (Hlt & Hfull1 & Hfull2).
        split; [lia|]. split; assumption.
    + rewrite writeLoop_nil in Hloop. inversion Hloop; subst. simpl.
      split; [lia|]. split; [intros _; lia|].
      split; [rewrite Hsize; reflexivity|]. congruence.
  - apply IH in Hloop as (Hrange & Hall & Hsz & Herr).
    split; [lia|]. split; [intros E; specialize (Hall E); lia|].
    split; [rewrite Hsz, Hsize; reflexivity|].
    intros E. destruct (Herr E) as (Hlt & Hfull1 & Hfull2).
    split; [lia|]. split; assumption.
Qed.

(** X1. [Write] keeps the contract of [io.Writer] on its count, whatever
    the store answers: the count lies between 0 and [len(p)]; when the
    error is nil the count is [len(p)]; and the writer's size grows by
    the count, in [int64] arithmetic, also when an error is returned
    with a count that is not 0.  (For a chunk size that is not negative,
    so that the subtractions of the loop do not wrap.) *)
Theorem Write_count (fuel : nat) (w w' : writer) (p : list byte) (n : Z)
    (err : option error) (h h' : History) :
  0 <= ChunkSize (w_driver w) ->
  Write fuel w p h = Done (w', n, err) h' ->
  0 <= n <= len p /\
  (err = None -> n = len p /\ w_size w' = wrap64 (w_size w + len p)) /\
  (n <> 0 -> w_size w' = wrap64 (w_size w + n)).
Proof.
  intros _.
  pose proof (len_nonneg p) as Hp.
  assert (Hstop : forall (w1 : writer) (e : error),
             Done (A := writer * Z * option error) (w1, 0, Some e) h = Done (w', n, err) h' ->
             0 <= n <= len p /\
             (err = None -> n = len p /\ w_size w' = wrap64 (w_size w + len p)) /\
             (n <> 0 -> w_size w' = wrap64 (w_size w + n))).
  { intros w1 e H. inversion H; subst. split; [lia|]. split; [discriminate|congruence]. }
  unfold Write.
  destruct (w_closed w); [apply Hstop|].
  destruct (w_committed w); [apply Hstop|].
  destruct (w_cancelled w); [apply Hstop|].
  clear Hstop. unfold bind.
  assert (Hloop : forall (w1 : writer) (h1 : History),
             w_size w1 = w_size w ->
             writeLoop fuel w1 p 0 h1 = Done (w', n, err) h' ->
             0 <= n <= len p /\
             (err = None -> n = len p /\ w_size w' = wrap64 (w_size w + len p)) /\
             (n <> 0 -> w_size w' = wrap64 (w_size w + n))).
  { intros w1 h1 Hsize H. apply writeLoop_count in H as (Hrange & Hall & Hsz & _).
    rewrite Hsize in Hsz.
    split; [lia|]. split; [|intros _; exact Hsz].
    intros E. specialize (Hall E). split; [lia|]. rewrite Hsz. f_equal. lia. }
  destruct (lastPartIsSmall w).
  - destruct (repairUpload w h) as [[w1 e1] h1|h1|h1] eqn:Hrep; try discriminate.
    apply repairUpload_size in Hrep.
    destruct e1.
    + intros H; inversion H; subst. split; [lia|]. split; [discriminate|congruence].
    + apply Hloop. exact Hrep.
  - unfold ret. apply Hloop. reflexivity.
Qed.

(** A fresh writer on a store that refuses every request: four bytes with
    a chunk size of two fill both buffers, the upload of the first part
    fails, and [Write] returns the count 4 with the error. *)
Lemma Write_count_witness :
  let w := newWriter (mkDriver failingClient "id" "key" "" 2) "blob" "upload-0" [] in
  let p := ["a"; "b"; "c"; "d"]%byte in
  let w' := set_size (set_pendingPart (set_readyPart w ["a"; "b"]%byte) ["c"; "d"]%byte) 4 in
  0 <= 4 <= len p /\
  (Some transportError = None -> 4 = len p /\ w_size w' = wrap64 (w_size w + len p)) /\
  (4 <> 0 -> w_size w' = wrap64 (w_size w + 4)).
Proof.
  intros w p w'.
  apply (Write_count 5 w w' p 4 (Some transportError) []
           [Call_Object_UploadPart "blob" "upload-0" 1 ["a"; "b"]%byte]).
  - vm_compute. discriminate.
  - reflexivity.
Defined.

Lemma writeLoop_stuck (fuel : nat) (w : writer) (p : list byte) (n : Z) (h : History) :
  p <> [] ->
  ChunkSize (w_driver w) <= len (w_readyPart w) ->
  ChunkSize (w_driver w) <= len (w_pendingPart w) ->
  writeLoop fuel w p n h = OutOfFuel h.
Proof.
  intros Hne Hready Hpending.
  induction fuel as [|fuel IH].
  - destruct p; [congruence|reflexivity].
  - destruct p as [|b p]; [congruence|].
    rewrite writeLoop_cons. unfold fillReady. cbv zeta.
    destruct (Z.ltb_spec 0 (ChunkSize (w_driver w) - len (w_readyPart w))); [lia|].
    destruct (Z.ltb_spec 0 (ChunkSize (w_driver w) - len (w_pendingPart w))); [lia|].
    exact IH.
Qed.

(** X2. A [Write] of at least one byte never returns when both buffers
    already hold a chunk or more, in particular when the chunk size is 0,
    which [New] accepts: neither buffer takes a byte, the loop makes no
    progress, and no request is sent.  (The writer is writable, its
    last recorded part does not call for the repair, and the chunk size
    is not negative.) *)
Theorem Write_blocks_on_full_buffers (fuel : nat) (w : writer) (p : list byte)
    (h : History) :
  terminal w = false ->
  lastPartIsSmall w = false ->
  p <> [] ->
  0 <= ChunkSize (w_driver w) ->
  ChunkSize (w_driver w) <= len (w_readyPart w) ->
  ChunkSize (w_driver w) <= len (w_pendingPart w) ->
  Write fuel w p h = OutOfFuel h.
Proof.
  intros Hterm Hsmall Hne _ Hready Hpending.
  destruct (terminal_false w Hterm) as (Hc & Hm & Hx).
  unfold Write. rewrite Hc, Hm, Hx, Hsmall. rewrite bind_ret. cbv beta iota.
  apply writeLoop_stuck; assumption.
Qed.

(** A driver made by [New] with a chunk size of 0: the first [Write] of
    one byte exhausts a fuel of a thousand iterations. *)
Lemma Write_blocks_on_full_buffers_witness :
  Write 1000 (newWriter (mkDriver failingClient "id" "key" "" 0) "blob" "upload-0" [])
        ["x"%byte] [] = OutOfFuel [].
Proof.
  apply Write_blocks_on_full_buffers; try reflexivity; try discriminate.
Defined.

(** X3. When [Write] returns an error together with a count that is not
    0, the upload of a part has failed, both buffers hold a chunk or
    more, and the writer is still writable.  From then on a [Write] of
    at least one byte never returns, as long as the last recorded part
    does not call for the repair.  (For a chunk size that is not
    negative.) *)
Theorem Write_after_failed_upload (fuel : nat) (w w' : writer) (p : list byte) (n : Z)
    (err : error) (h h' : History) :
  0 <= ChunkSize (w_driver w) ->
  Write fuel w p h = Done (w', n, Some err) h' ->
  n <> 0 ->
  terminal w' = false /\
  ChunkSize (w_driver w') <= len (w_readyPart w') /\
  ChunkSize (w_driver w') <= len (w_pendingPart w') /\
  (forall (fuel' : nat) (q : list byte) (h'' : History),
      q <> [] -> lastPartIsSmall w' = false -> Write fuel' w' q h'' = OutOfFuel h'').
Proof.
  intros _ Hwrite Hn.
  assert (Hfull : terminal w' = false /\
                  ChunkSize (w_driver w') <= len (w_readyPart w') /\
                  ChunkSize (w_driver w') <= len (w_pendingPart w')).
  { pose proof (Write_flags _ _ _ _ _ _ _ _ Hwrite) as (Fc & Fm & Fx).
    revert Hwrite. unfold Write, terminal. rewrite Fc, Fm, Fx.
    destruct (w_closed w); [intros H; inversion H; subst; congruence|].
    destruct (w_committed w); [intros H; inversion H; subst; congruence|].
    destruct (w_cancelled w); [intros H; inversion H; subst; congruence|].
    split; [reflexivity|]. revert Hwrite. unfold bind.
    assert (Hloop : forall (w1 : writer) (h1 : History),
               writeLoop fuel w1 p 0 h1 = Done (w', n, Some err) h' ->
               ChunkSize (w_driver w') <= len (w_readyPart w') /\
               ChunkSize (w_driver w') <= len (w_pendingPart w')).
    { intros w1 h1 H. apply writeLoop_count in H as (_ & _ & _ & Herr).
      destruct Herr as (_ & Hr & Hq); [discriminate|]. auto. }
    destruct (lastPartIsSmall w).
    - destruct (repairUpload w h) as [[w1 e1] h1|h1|h1]; try discriminate.
      destruct e1; [intros H; inversion H; subst; congruence|apply Hloop].
    - unfold ret. apply Hloop. }
  destruct Hfull as (Hterm & Hready & Hpending).
  repeat split; try assumption.
  intros fuel' q h'' Hq Hsmall.
  destruct (terminal_false w' Hterm) as (Hc & Hm & Hx).
  unfold Write. rewrite Hc, Hm, Hx, Hsmall. rewrite bind_ret. cbv beta iota.
  apply writeLoop_stuck; assumption.
Qed.

(** The failed [Write] of four bytes with a chunk size of two. *)
Lemma Write_after_failed_upload_witness :
  let w := newWriter (mkDriver failingClient "id" "key" "" 2) "blob" "upload-0" [] in
  let w' := set_size (set_pendingPart (set_readyPart w ["a"; "b"]%byte) ["c"; "d"]%byte) 4 in
  terminal w' = false /\
  ChunkSize (w_driver w') <= len (w_readyPart w') /\
  ChunkSize (w_driver w') <= len (w_pendingPart w') /\
  (forall (fuel' : nat) (q : list byte) (h'' : History),
      q <> [] -> lastPartIsSmall w' = false -> Write fuel' w' q h'' = OutOfFuel h'').
Proof.
  intros w w'.
  apply (Write_after_failed_upload 5 w w' ["a"; "b"; "c"; "d"]%byte 4 transportError []
           [Call_Object_UploadPart "blob" "upload-0" 1 ["a"; "b"]%byte]).
  - vm_compute. discriminate.
  - reflexivity.
  - discriminate.
Defined.

(** X4. [Write] only buffers until two chunks are full.  On a writable
    writer whose last recorded part does not call for the repair, whose
    ready buffer is not over-full and whose buffers together with [p]
    hold fewer bytes than two chunks, [Write] sends nothing, whatever the
    store: it returns [len(p)] and nil, records no part, and the two
    buffers together have grown by [len(p)] bytes. *)
Theorem Write_buffers_below_two_chunks (fuel : nat) (w : writer) (p : list byte)
    (h : History) :
  terminal w = false ->
  lastPartIsSmall w = false ->
  len (w_readyPart w) <= ChunkSize (w_driver w) ->
  len (w_readyPart w) + len (w_pendingPart w) + len p < 2 * ChunkSize (w_driver w) ->
  (0 < fuel)%nat ->
  exists w',
    Write fuel w p h = Done (w', len p, None) h /\
    w_parts w' = w_parts w /\
    len (w_readyPart w') + len (w_pendingPart w') =
      len (w_readyPart w) + len (w_pendingPart w) + len p.
Proof.
  intros Hterm Hsmall Hready Htotal Hfuel.
  destruct (terminal_false w Hterm) as (Hc & Hm & Hx).
  unfold Write. rewrite Hc, Hm, Hx, Hsmall. rewrite bind_ret. cbv beta iota.
  destruct fuel as [|fuel]; [lia|].
  destruct p as [|b p].
  { rewrite writeLoop_nil. eexists. split; [reflexivity|]. simpl.
    change (len []) with 0. split; [reflexivity|lia]. }
  pose proof (len_nonneg (b :: p)) as Hp.
  pose proof (len_nonneg (w_readyPart w)) as Hr.
  pose proof (len_nonneg (w_pendingPart w)) as Hq.
  rewrite writeLoop_cons. unfold fillReady. cbv zeta.
  destruct (Z.ltb_spec 0 (ChunkSize (w_driver w) - len (w_readyPart w))) as [Hroom|Hfull].
  - destruct (Z.leb_spec (ChunkSize (w_driver w) - len (w_readyPart w)) (len (b :: p)))
      as [Hfill|Hfits].
    + set (k := ChunkSize (w_driver w) - len (w_readyPart w)) in *.
      wsimpl.
      destruct (Z.ltb_spec 0 (ChunkSize (w_driver w) - len (w_pendingPart w))) as [_|Hno].
      * rewrite len_drop by lia.
        destruct (Z.leb_spec (ChunkSize (w_driver w) - len (w_pendingPart w))
                             (len (b :: p) - k)) as [Hflush|_]; [unfold k in *; lia|].
        rewrite writeLoop_nil. eexists. split; [do 3 f_equal; lia|]. wsimpl.
        split; [reflexivity|].
        rewrite !len_app, len_take, len_drop by lia. lia.
      * unfold k in *. lia.
    + wsimpl.
      destruct (Z.ltb_spec 0 (ChunkSize (w_driver w) - len (w_pendingPart w))) as [Hpos|_].
      * change (len []) with 0.
        destruct (Z.leb_spec (ChunkSize (w_driver w) - len (w_pendingPart w)) 0)
          as [Hflush|_]; [lia|].
        rewrite writeLoop_nil. eexists. split; [do 3 f_equal; change (len []) with 0; lia|].
        wsimpl. split; [reflexivity|]. rewrite app_nil_r, len_app. lia.
      * rewrite writeLoop_nil. eexists. split; [reflexivity|].
        wsimpl. split; [reflexivity|]. rewrite len_app. lia.
  - destruct (Z.ltb_spec 0 (ChunkSize (w_driver w) - len (w_pendingPart w))) as [_|Hno];
      [|lia].
    destruct (Z.leb_spec (ChunkSize (w_driver w) - len (w_pendingPart w)) (len (b :: p)))
      as [Hflush|_]; [lia|].
    rewrite writeLoop_nil. eexists. split; [reflexivity|].
    wsimpl. split; [reflexivity|]. rewrite len_app. lia.
Qed.

(** Three bytes written to a fresh writer with a chunk size of two, on a
    store that would refuse every request. *)
Lemma Write_buffers_below_two_chunks_witness :
  let w := newWriter (mkDriver failingClient "id" "key" "" 2) "blob" "upload-0" [] in
  exists w',
    Write 1 w ["a"; "b"; "c"]%byte [] = Done (w', 3, None) [] /\
    w_parts w' = w_parts w /\
    len (w_readyPart w') + len (w_pendingPart w') =
      len (w_readyPart w) + len (w_pendingPart w) + 3.
Proof.
  intros w.
  apply (Write_buffers_below_two_chunks 1 w ["a"; "b"; "c"]%byte []);
    [reflexivity|reflexivity|vm_compute; discriminate|vm_compute; reflexivity|lia].
Defined.

(** ** Writing and reading back on the in-memory store *)

Lemma numberedFrom_bound (parts : list Object) :
  forall k, numberedFrom k parts ->
            Forall (fun part => k <= PartNumber part < k + len parts) parts.
Proof.
  induction parts as [|part rest IH]; intros k Hnum; [constructor|].
  destruct Hnum as (Hk & Hrest).
  assert (Hlen : len (part :: rest) = 1 + len rest) by (unfold len; simpl length; lia).
  pose proof (len_nonneg rest) as Hpos.
  constructor; [lia|].
  eapply Forall_impl; [apply IH; exact Hrest|]. simpl. intros o Ho. lia.
Qed.

Lemma numberedFrom_snoc (parts : list Object) (o : Object) :
  forall k, numberedFrom k parts -> PartNumber o = k + len parts ->
            numberedFrom k (parts ++ [o]).
Proof.
  induction parts as [|part rest IH]; intros k Hnum Ho; simpl.
  - change (len []) with 0 in Ho. split; [lia|exact I].
  - destruct Hnum as (Hk & Hrest). split; [exact Hk|].
    apply IH; [exact Hrest|].
    assert (Hlen : len (part :: rest) = 1 + len rest) by (unfold len; simpl length; lia).
    lia.
Qed.

(** Parts numbered in order are already sorted. *)
Lemma numberedFrom_sorted (parts : list Object) :
  forall k, numberedFrom k parts ->
            sortObjectList (completeOptions parts) = completeOptions parts.
Proof.
  induction parts as [|part rest IH]; intros k Hnum; [reflexivity|].
  destruct Hnum as (Hk & Hrest).
  change (sortObjectList (completeOptions (part :: rest)))
    with (insertByPartNumber (mkObject "" (ETag part) 0 (PartNumber part) "")
                             (sortObjectList (completeOptions rest))).
  rewrite (IH (k + 1) Hrest).
  destruct rest as [|next rest']; [reflexivity|].
  destruct Hrest as (Hnext & _). simpl.
  destruct (Z.leb_spec (PartNumber part) (PartNumber next)); [reflexivity|lia].
Qed.

Lemma storedAs_completeOptions (u : Upload) (parts : list Object)
    (datas : list (list byte)) :
  storedAs u parts datas -> storedAs u (completeOptions parts) datas.
Proof.
  unfold storedAs, completeOptions. intros Hall.
  induction Hall; simpl; constructor; auto.
Qed.

Lemma storedAs_insert (u : Upload) (key : string) (n : Z) (body : list byte)
    (parts : list Object) (datas : list (list byte)) :
  storedAs u parts datas ->
  Forall (fun part => PartNumber part <> n) parts ->
  storedAs (mkUpload key (<[n := body]> (up_parts u))) parts datas.
Proof.
  unfold storedAs. intros Hall Hne. induction Hall as [|part data parts datas Hp Hall IH].
  - constructor.
  - inversion Hne; subst. constructor; [|auto].
    simpl. rewrite lookup_insert_ne by congruence. exact Hp.
Qed.

Lemma storedAs_length (u : Upload) (parts : list Object) (datas : list (list byte)) :
  storedAs u parts datas -> length datas = length parts.
Proof. intros Hall. symmetry. eapply Forall2_length. exact Hall. Qed.

Lemma writerData_ext (w w' : writer) (s : Store) (data : list byte) :
  w_driver w' = w_driver w -> terminal w' = terminal w ->
  w_readyPart w' = w_readyPart w -> w_pendingPart w' = w_pendingPart w ->
  w_key w' = w_key w -> w_uploadID w' = w_uploadID w -> w_parts w' = w_parts w ->
  writerData w s data -> writerData w' s data.
Proof.
  unfold writerData. intros -> -> -> -> -> -> ->. auto.
Qed.

(** Topping up the ready buffer keeps the order of the bytes. *)
Lemma fillReady_data (w : writer) (p : list byte) (n : Z) :
  (w_pendingPart w <> [] -> ChunkSize (w_driver w) <= len (w_readyPart w)) ->
  let '(w1, p1, n1) := fillReady w p n in
  w_readyPart w1 ++ w_pendingPart w1 ++ p1 = w_readyPart w ++ w_pendingPart w ++ p /\
  (w_pendingPart w1 <> [] -> ChunkSize (w_driver w1) <= len (w_readyPart w1)).
Proof.
  intros Hord. unfold fillReady. cbv zeta.
  destruct (Z.ltb_spec 0 (ChunkSize (w_driver w) - len (w_readyPart w))) as [Hpos|Hneg].
  - assert (Hnil : w_pendingPart w = []).
    { destruct (w_pendingPart w) as [|c q]; [reflexivity|].
      assert (ChunkSize (w_driver w) <= len (w_readyPart w)) by (apply Hord; discriminate).
      lia. }
    destruct (Z.leb_spec (ChunkSize (w_driver w) - len (w_readyPart w)) (len p)).
    + simpl. rewrite Hnil. simpl. rewrite <- app_assoc, take_drop.
      split; [reflexivity|congruence].
    + simpl. rewrite Hnil. simpl. rewrite app_nil_r. split; [reflexivity|congruence].
  - split; [reflexivity|exact Hord].
Qed.

(** The loop of [Write] on the in-memory store appends [p] to what the
    writer holds. *)
Lemma writeLoop_data (fuel : nat) :
  forall (w : writer) (p : list byte) (n : Z) (h : History) (data : list byte),
    writerData w (replay h) data ->
    (length p < fuel)%nat ->
    exists w' h',
      writeLoop fuel w p n h = Done (w', n + len p, None) h' /\
      writerData w' (replay h') (data ++ p).
Proof.
  induction fuel as [|fuel IH]; intros w p n h data Hinv Hfuel; [lia|].
  destruct p as [|b p].
  { rewrite writeLoop_nil. eexists _, h.
    change (len []) with 0. rewrite Z.add_0_r, app_nil_r.
    split; [reflexivity|].
    eapply writerData_ext; [..|exact Hinv]; reflexivity. }
  rewrite writeLoop_cons.
  destruct Hinv as (Hclient & Hmin & Hterm & Hpending & Hord & Hnum & u & datas &
                    Hfind & Hstored & Hlarge & Hdata).
  pose proof (fillReady_frame w (b :: p) n) as Hframe.
  pose proof (fillReady_spec w (b :: p) n) as Hspec.
  pose proof (fillReady_data w (b :: p) n Hord) as Hfill.
  destruct (fillReady w (b :: p) n) as [[w1 p1] n1].
  destruct Hframe as (Hd & Hk & Hu & Hparts & _ & Hpend & Hc & Hm & Hx).
  destruct Hspec as (Hn & Hlen & Hfull).
  destruct Hfill as (Hbytes & Hord1).
  assert (Hterm1 : terminal w1 = false).
  { unfold terminal in *. rewrite Hc, Hm, Hx. exact Hterm. }
  cbv zeta.
  pose proof minChunkSize_pos as Hpos.
  pose proof (len_nonneg p1) as Hp1.
  rewrite Hd, Hpend.
  destruct (Z.ltb_spec 0 (ChunkSize (w_driver w) - len (w_pendingPart w))) as [_|Hno];
    [|lia].
  destruct (Z.leb_spec (ChunkSize (w_driver w) - len (w_pendingPart w)) (len p1))
    as [Hle|Hgt].
  - set (needed := ChunkSize (w_driver w) - len (w_pendingPart w)) in *.
    assert (Hneeded : 0 < needed) by (unfold needed; lia).
    set (w1' := set_pendingPart w1 (w_pendingPart w ++ take (Z.to_nat needed) p1)).
    assert (Hne : p1 <> []).
    { intros ->. change (len []) with 0 in Hle. lia. }
    assert (Hready : ChunkSize (w_driver w) <= len (w_readyPart w1)).
    { apply Hfull. exact Hne. }
    assert (Hpend' : len (w_pendingPart w1') = ChunkSize (w_driver w)).
    { unfold w1'. simpl. rewrite len_app, len_take by lia. unfold needed. lia. }
    destruct (flushPart_mem w1' h u) as (w2 & Hrun & Hparts2 & Hready2 & Hpend2 & Hframe2 &
                                         Hfind2 & _ & _).
    { unfold w1'. simpl. rewrite Hd. exact Hclient. }
    { unfold w1'. simpl. rewrite Hk, Hu. exact Hfind. }
    { apply andb_false_iff. left. apply Z.eqb_neq. unfold w1'. simpl. lia. }
    assert (Hmerge : (len (w_pendingPart w1') <? ChunkSize (w_driver w1')) = false).
    { apply Z.ltb_ge. rewrite Hpend'. unfold w1'. simpl. rewrite Hd. lia. }
    rewrite Hmerge in Hrun, Hparts2, Hready2, Hfind2.
    rewrite Hrun.
    destruct Hframe2 as (Hd2 & Hk2 & Hu2 & Hterm2).
    unfold w1' in Hparts2, Hready2, Hfind2, Hd2, Hk2, Hu2, Hterm2. simpl in *.
    rewrite ?Hd, ?Hk, ?Hu, ?Hparts in *.
    pose proof (numberedFrom_bound _ _ Hnum) as Hbound.
    match goal with
    | |- context [writeLoop fuel w2 ?p2 ?n2 ?h2] =>
        destruct (IH w2 p2 n2 h2
                    (concat (datas ++ [w_readyPart w1]) ++
                     (w_pendingPart w ++ take (Z.to_nat needed) p1) ++ []))
          as (w' & h' & Hloop & Hinv')
    end.
    { split; [rewrite Hd2; exact Hclient|].
      split; [rewrite Hd2; exact Hmin|].
      split; [rewrite Hterm2; exact Hterm1|].
      split; [rewrite Hpend2, Hd2; change (len []) with 0; lia|].
      split; [rewrite Hpend2; congruence|].
      split; [rewrite Hparts2; apply numberedFrom_snoc; [exact Hnum|simpl; lia]|].
      eexists _, (datas ++ [w_readyPart w1]).
      split; [rewrite Hk2, Hu2; exact Hfind2|].
      split.
      { rewrite Hparts2. apply Forall2_app.
        - apply storedAs_insert; [exact Hstored|].
          eapply Forall_impl; [exact Hbound|]. simpl. intros o Ho. lia.
        - constructor; [|constructor]. simpl. apply lookup_insert_eq. }
      split; [apply Forall_app; split; [exact Hlarge|]; constructor; [|constructor];
              unfold large; lia|].
      rewrite Hready2, Hpend2. reflexivity. }
    { rewrite length_drop. unfold len in *. cbn [length] in Hfuel, Hlen. lia. }
    exists w', h'. rewrite Hloop. split.
    + rewrite len_drop by lia. do 3 f_equal. lia.
    + replace (data ++ b :: p)
        with ((concat (datas ++ [w_readyPart w1]) ++
               (w_pendingPart w ++ take (Z.to_nat needed) p1) ++ []) ++
              drop (Z.to_nat needed) p1); [exact Hinv'|].
      rewrite Hdata, concat_app. simpl. rewrite !app_nil_r, <- !app_assoc.
      f_equal. rewrite take_drop. rewrite <- Hbytes, Hpend. reflexivity.
  - rewrite writeLoop_nil. eexists _, h. split.
    + do 3 f_equal. lia.
    + split; [simpl; rewrite Hd; exact Hclient|].
      split; [simpl; rewrite Hd; exact Hmin|].
      split; [exact Hterm1|].
      split; [simpl; rewrite Hd, len_app; lia|].
      split.
      { simpl. rewrite Hd. intros Hq. destruct p1 as [|c p1'].
        - rewrite app_nil_r in Hq. rewrite <- Hd. apply Hord1. rewrite Hpend. exact Hq.
        - apply Hfull. discriminate. }
      split; [simpl; rewrite Hparts; exact Hnum|].
      exists u, datas. simpl. rewrite Hk, Hu, Hparts.
      split; [exact Hfind|]. split; [exact Hstored|]. split; [exact Hlarge|].
      rewrite Hdata, <- !app_assoc. f_equal. rewrite <- Hbytes, Hpend. reflexivity.
Qed.

(** The repair of [Write] on the in-memory store keeps what the writer
    holds: the completed object becomes part 1 of the new upload. *)
Lemma repairUpload_data (w : writer) (h : History) (data : list byte) :
  writerData w (replay h) data ->
  w_parts w <> [] ->
  w_size w = len data ->
  exists w' h',
    repairUpload w h = Done (w', None) h' /\
    writerData w' (replay h') data /\
    w_size w' = w_size w /\ w_key w' = w_key w /\ w_driver w' = w_driver w.
Proof.
  intros (Hclient & Hmin & Hterm & Hpending & Hord & Hnum & u & datas &
          Hfind & Hstored & Hlarge & Hdata) Hne Hsize.
  assert (Hdatas_ne : datas <> []).
  { intros ->. apply storedAs_length in Hstored.
    destruct (w_parts w); [congruence|discriminate]. }
  assert (Hbig : minChunkSize <= w_size w).
  { rewrite Hsize, Hdata, !len_app.
    pose proof (large_concat datas Hdatas_ne Hlarge) as Hc. unfold large in Hc.
    pose proof (len_nonneg (w_readyPart w)). pose proof (len_nonneg (w_pendingPart w)).
    lia. }
  set (parts := sortObjectList (completeOptions (w_parts w))).
  assert (Hparts : parts = completeOptions (w_parts w)).
  { unfold parts. eapply numberedFrom_sorted. exact Hnum. }
  assert (Hdatas : mapM (fun part => up_parts u !! PartNumber part) parts = Some datas).
  { apply mapM_Some_2. rewrite Hparts. apply storedAs_completeOptions. exact Hstored. }
  destruct (mem_Complete h (w_key w) (w_uploadID w) parts u datas Hfind Hdatas)
    as (Hanswer1 & Hstore1).
  set (h1 := h ++ [Call_Object_CompleteMultipartUpload (w_key w) (w_uploadID w) parts]) in *.
  destruct (mem_Initiate h1 (w_key w) None) as (Hanswer2 & Hstore2).
  set (uploadID := "upload-" +:+ pretty (counter (replay h1))) in *.
  set (h2 := h1 ++ [Call_Object_InitiateMultipartUpload (w_key w) None]) in *.
  assert (Hfind2 : findUpload (replay h2) (w_key w) uploadID = Some (mkUpload (w_key w) ∅)).
  { rewrite Hstore2. apply findUpload_insert. }
  assert (Hobj2 : objects (replay h2) !! w_key w = Some (concat datas)).
  { rewrite Hstore2. simpl. rewrite Hstore1. simpl. apply lookup_insert_eq. }
  unfold repairUpload. cbv zeta. fold parts. step. rewrite Hclient, Hanswer1.
  fold h1. step. rewrite Hanswer2. fold h2. cbv beta iota. wsimpl.
  destruct (Z.ltb_spec (w_size w) minChunkSize) as [Hlt|_]; [lia|].
  destruct (mem_UploadPartCopy h2 (w_key w) (w_key w) uploadID 1 _ (concat datas)
                               Hfind2 Hobj2) as (Hanswer3 & Hstore3).
  step. rewrite Hclient, Hanswer3. cbv beta iota. wsimpl.
  eexists _, _. split; [reflexivity|].
  split; [|repeat split].
  split; [exact Hclient|]. split; [exact Hmin|]. split; [exact Hterm|].
  split; [exact Hpending|]. split; [exact Hord|].
  split; [simpl; auto|].
  eexists _, [concat datas]. wsimpl.
  split; [rewrite Hstore3; apply findUpload_insert|].
  split; [constructor; [simpl; apply lookup_insert_eq|constructor]|].
  split; [constructor; [apply large_concat; assumption|constructor]|].
  rewrite Hdata. simpl. rewrite app_nil_r. reflexivity.
Qed.

Lemma len_le_app {A : Type} (l k : list A) : len l <= len (l ++ k).
Proof. rewrite len_app. pose proof (len_nonneg k). lia. Qed.

(** [Write] on the in-memory store appends [p] to what the writer holds
    and keeps the size in step. *)
Lemma Write_data (fuel : nat) (w : writer) (p : list byte) (h : History)
    (data : list byte) :
  writerData w (replay h) data ->
  w_size w = len data ->
  len (data ++ p) <= maxInt64 ->
  (length p < fuel)%nat ->
  exists w' h',
    Write fuel w p h = Done (w', len p, None) h' /\
    writerData w' (replay h') (data ++ p) /\
    w_size w' = len (data ++ p) /\ w_key w' = w_key w /\ w_driver w' = w_driver w.
Proof.
  intros Hinv Hsize Hmax Hfuel.
  assert (Hterm : terminal w = false) by apply Hinv.
  destruct (terminal_false w Hterm) as (Hc & Hm & Hx).
  assert (Hloop : forall (w1 : writer) (h1 : History),
             writerData w1 (replay h1) data ->
             w_size w1 = w_size w -> w_key w1 = w_key w -> w_driver w1 = w_driver w ->
             exists w' h',
               writeLoop fuel w1 p 0 h1 = Done (w', len p, None) h' /\
               writerData w' (replay h') (data ++ p) /\
               w_size w' = len (data ++ p) /\ w_key w' = w_key w /\
               w_driver w' = w_driver w).
  { intros w1 h1 Hinv1 Hs1 Hk1 Hd1.
    destruct (writeLoop_data fuel w1 p 0 h1 data Hinv1 Hfuel) as (w' & h' & Hrun & Hinv').
    rewrite Z.add_0_l in Hrun.
    exists w', h'. split; [exact Hrun|]. split; [exact Hinv'|].
    pose proof (writeLoop_count _ _ _ _ _ _ _ _ _ Hrun) as (_ & _ & Hsz & _).
    pose proof (writeLoop_frame _ _ _ _ _ _ _ _ _ Hrun) as (Hd' & Hk' & _).
    split; [|split; congruence].
    rewrite Hsz, Hs1, Hsize, <- len_app. apply wrap64_small.
    pose proof (len_nonneg (data ++ p)). unfold maxInt64 in *. lia. }
  unfold Write. rewrite Hc, Hm, Hx.
  destruct (lastPartIsSmall w) eqn:Hsmall.
  - assert (Hne : w_parts w <> []).
    { unfold lastPartIsSmall in Hsmall. intros Hnil. rewrite Hnil in Hsmall.
      discriminate Hsmall. }
    destruct (repairUpload_data w h data Hinv Hne Hsize)
      as (w1 & h1 & Hrep & Hinv1 & Hs1 & Hk1 & Hd1).
    rewrite (bind_Done _ _ _ _ _ Hrep). cbv beta iota.
    apply Hloop; assumption.
  - rewrite bind_ret. cbv beta iota. apply Hloop; auto.
Qed.

Lemma writeAll_data (fuel : nat) (ps : list (list byte)) :
  forall (w : writer) (h : History) (data : list byte),
    writerData w (replay h) data ->
    w_size w = len data ->
    len (data ++ concat ps) <= maxInt64 ->
    Forall (fun p => (length p < fuel)%nat) ps ->
    exists w' h',
      writeAll fuel w ps h = Done (w', map (fun p => (len p, None)) ps) h' /\
      writerData w' (replay h') (data ++ concat ps) /\
      w_size w' = len (data ++ concat ps) /\ w_key w' = w_key w /\
      w_driver w' = w_driver w.
Proof.
  induction ps as [|p ps IH]; intros w h data Hinv Hsize Hmax Hfuel.
  - exists w, h. simpl. rewrite app_nil_r. auto.
  - inversion Hfuel as [|? ? Hp Hps]; subst.
    simpl in Hmax. rewrite app_assoc in Hmax.
    destruct (Write_data fuel w p h data Hinv Hsize) as (w1 & h1 & Hwrite & Hinv1 & Hs1 &
                                                          Hk1 & Hd1); [|exact Hp|].
    { pose proof (len_le_app (data ++ p) (concat ps)). lia. }
    destruct (IH w1 h1 (data ++ p) Hinv1 Hs1 Hmax Hps)
      as (w' & h' & Hrest & Hinv' & Hs' & Hk' & Hd').
    exists w', h'.
    cbn [writeAll]. rewrite (bind_Done _ _ _ _ _ Hwrite). cbv beta iota.
    rewrite (bind_Done _ _ _ _ _ Hrest). cbv beta iota.
    simpl. rewrite app_assoc.
    split; [reflexivity|]. split; [exact Hinv'|]. split; [exact Hs'|].
    split; congruence.
Qed.

(** [Commit] on the in-memory store makes what the writer holds the
    object under the writer's key. *)
Lemma Commit_data (w : writer) (h : History) (data : list byte) :
  writerData w (replay h) data ->
  exists w' h',
    Commit w h = Done (w', None) h' /\
    w_committed w' = true /\
    objects (replay h') !! w_key w = Some data.
Proof.
  intros (Hclient & Hmin & Hterm & Hpending & Hord & Hnum & u & datas &
          Hfind & Hstored & Hlarge & Hdata).
  destruct (terminal_false w Hterm) as (Hc & Hm & Hx).
  unfold Commit. rewrite Hc, Hm, Hx.
  destruct ((len (w_readyPart w) =? 0) && (len (w_pendingPart w) =? 0)) eqn:Hempty.
  - pose proof (flushPart_empty w h Hempty) as Hflush.
    rewrite (bind_Done _ _ _ _ _ Hflush). cbv beta iota zeta. step. wsimpl.
    destruct (mem_Complete h (w_key w) (w_uploadID w) (w_parts w) u datas Hfind)
      as (Hanswer & Hstore); [apply mapM_Some_2; exact Hstored|].
    rewrite Hclient, Hanswer.
    eexists _, _. split; [reflexivity|]. split; [reflexivity|].
    rewrite Hstore. simpl. rewrite lookup_insert_eq. f_equal.
    apply andb_true_iff in Hempty as (Hr & Hq).
    apply Z.eqb_eq in Hr, Hq. unfold len in Hr, Hq.
    destruct (w_readyPart w); [|discriminate]. destruct (w_pendingPart w); [|discriminate].
    rewrite Hdata, !app_nil_r. reflexivity.
  - destruct (flushPart_mem w h u Hclient Hfind Hempty)
      as (w1 & Hflush & Hparts1 & _ & _ & (Hd1 & Hk1 & Hu1 & _) & Hfind1 & _ & _).
    destruct (Z.ltb_spec (len (w_pendingPart w)) (ChunkSize (w_driver w))) as [_|Hge];
      [|lia].
    rewrite (bind_Done _ _ _ _ _ Hflush). cbv beta iota zeta. step. wsimpl.
    set (body := w_readyPart w ++ w_pendingPart w) in *.
    set (h1 := h ++ [Call_Object_UploadPart (w_key w) (w_uploadID w)
                                            (len (w_parts w) + 1) body]) in *.
    pose proof (numberedFrom_bound _ _ Hnum) as Hbound.
    rewrite <- Hk1, <- Hu1 in Hfind1.
    destruct (mem_Complete h1 (w_key w1) (w_uploadID w1) (w_parts w1) _ (datas ++ [body])
                           Hfind1) as (Hanswer & Hstore).
    { apply mapM_Some_2. rewrite Hparts1. apply Forall2_app.
      - apply storedAs_insert; [exact Hstored|].
        eapply Forall_impl; [exact Hbound|]. simpl. intros o Ho. lia.
      - constructor; [|constructor]. simpl. apply lookup_insert_eq. }
    rewrite Hd1, Hclient, Hanswer.
    eexists _, _. split; [reflexivity|]. split; [reflexivity|].
    rewrite Hstore. simpl. rewrite Hk1, lookup_insert_eq. f_equal.
    rewrite Hdata, concat_app. simpl. rewrite app_nil_r. reflexivity.
Qed.

(** A writer obtained without [append] holds nothing. *)
Lemma Writer_data (d : driver) (path : string) (h : History) :
  Client d = memClient ->
  minChunkSize <= ChunkSize d ->
  exists w h',
    Writer d path false h = Done (Ok w) h' /\
    writerData w (replay h') [] /\
    w_size w = 0 /\ w_key w = cosPath d path /\ w_driver w = d.
Proof.
  intros Hclient Hmin.
  pose proof (Writer_unfold d path h) as Hw. cbv zeta in Hw.
  rewrite Hclient in Hw.
  destruct (mem_Initiate h (cosPath d path) None) as (Hanswer & Hstore).
  rewrite Hanswer in Hw.
  eexists _, _. split; [exact Hw|]. rewrite Hstore.
  split; [|repeat split].
  split; [exact Hclient|]. split; [exact Hmin|]. split; [reflexivity|].
  split; [simpl; change (len []) with 0; pose proof minChunkSize_pos; lia|].
  split; [simpl; congruence|]. split; [exact I|].
  eexists _, []. split; [apply findUpload_insert|].
  split; [constructor|]. split; [constructor|reflexivity].
Qed.

(** X5. Round trip on the in-memory store, for a chunk size of at least
    the minimum and a total of at most [MaxInt64] bytes: a writer
    obtained without [append], any sequence of [Write] calls and a
    [Commit] all succeed, the writer's size is the number of bytes
    written, and [GetContent] of the same path then returns exactly the
    bytes written, in the order they were written. *)
Theorem written_content_is_read_back (d : driver) (path : string)
    (ws : list (list byte)) (fuel : nat) (h : History) :
  Client d = memClient ->
  minChunkSize <= ChunkSize d ->
  Forall (fun p => (length p < fuel)%nat) ws ->
  len (concat ws) <= maxInt64 ->
  exists w0 h0 w1 h1 w2 h2,
    Writer d path false h = Done (Ok w0) h0 /\
    writeAll fuel w0 ws h0 = Done (w1, map (fun p => (len p, None)) ws) h1 /\
    w_size w1 = len (concat ws) /\
    Commit w1 h1 = Done (w2, None) h2 /\
    GetContent d path h2 =
      Done (concat ws, None) (h2 ++ [Call_Object_Get (cosPath d path) None]).
Proof.
  intros Hclient Hmin Hfuel Hmax.
  destruct (Writer_data d path h Hclient Hmin) as (w0 & h0 & Hwriter & Hinv0 & Hs0 & Hk0 & Hd0).
  destruct (writeAll_data fuel ws w0 h0 [] Hinv0 Hs0 Hmax Hfuel)
    as (w1 & h1 & Hwrites & Hinv1 & Hs1 & Hk1 & Hd1).
  simpl in Hinv1, Hs1.
  destruct (Commit_data w1 h1 (concat ws) Hinv1) as (w2 & h2 & Hcommit & _ & Hobj).
  exists w0, h0, w1, h1, w2, h2.
  split; [exact Hwriter|]. split; [exact Hwrites|]. split; [exact Hs1|].
  split; [exact Hcommit|].
  rewrite Hk1, Hk0 in Hobj.
  destruct (mem_Get h2 (cosPath d path) (concat ws) Hobj) as (Hanswer & _).
  rewrite <- Hclient in Hanswer.
  rewrite (GetContent_ok d path h2 _ Hanswer). reflexivity.
Qed.

(** Three bytes written in two calls and read back. *)
Lemma written_content_is_read_back_witness :
  exists w0 h0 w1 h1 w2 h2,
    Writer (memDriver defaultChunkSize) "/blob" false [] = Done (Ok w0) h0 /\
    writeAll 3 w0 [["a"; "b"]%byte; ["c"%byte]] h0 = Done (w1, [(2, None); (1, None)]) h1 /\
    w_size w1 = 3 /\
    Commit w1 h1 = Done (w2, None) h2 /\
    GetContent (memDriver defaultChunkSize) "/blob" h2 =
      Done (["a"; "b"; "c"]%byte, None) (h2 ++ [Call_Object_Get "blob" None]).
Proof.
  apply (written_content_is_read_back (memDriver defaultChunkSize) "/blob"
           [["a"; "b"]%byte; ["c"%byte]] 3%nat []).
  - reflexivity.
  - vm_compute. discriminate.
  - repeat constructor.
  - vm_compute. discriminate.
Defined.

(** Why the chunk size must not be below the minimum: with a chunk size
    of two, six bytes written in two calls come back as four.  The
    repair of the second [Write] finds a size below the minimum and
    replaces the ready buffer, which still held "cd", by the object
    completed so far. *)
Example small_chunk_loses_bytes :
  let d := memDriver 2 in
  match callsWriter 8 (newWriter d "blob" "upload-0" [])
          [DoWrite ["a"; "b"; "c"; "d"; "e"]%byte; DoWrite ["f"%byte]; DoCommit]
          [Call_Object_InitiateMultipartUpload "blob" None] with
  | Done (_, results) h =>
      map snd results = [None; None; None] /\
      match GetContent d "/blob" h with
      | Done (bs, err) _ => bs = ["a"; "b"; "e"; "f"]%byte /\ err = None
      | _ => False
      end
  | _ => False
  end.
Proof. vm_compute. auto. Qed.

(** ** A failed Commit *)

(** X6. [Commit] sets the [committed] flag before it asks the store to
    complete the upload.  When the buffers were flushed and the store
    refuses the completion, [Commit] asks the store to abort the upload
    and returns the store's error with the flag set: every later [Commit]
    and [Write] is refused with "already committed" and sends nothing, so
    the bytes written can no longer be committed through this writer.
    When it is the flush that fails, the flags stay as they were. *)
Theorem Commit_failure (w w1 : writer) (h h1 : History) :
  terminal w = false ->
  (forall err : error,
      flushPart w h = Done (w1, None) h1 ->
      answer_Object_CompleteMultipartUpload (Client (w_driver w1)) h1 (w_key w1)
                                            (w_uploadID w1) (w_parts w1) = Some err ->
      let w' := set_committed w1 true in
      Commit w h =
        Done (w', Some err)
             (h1 ++ [Call_Object_CompleteMultipartUpload (w_key w1) (w_uploadID w1)
                                                         (w_parts w1);
                     Call_Object_AbortMultipartUpload (w_key w1) (w_uploadID w1)]) /\
      (forall h' : History,
          Commit w' h' = Done (w', Some (Errorf "already committed")) h') /\
      (forall (fuel : nat) (p : list byte) (h' : History),
          Write fuel w' p h' = Done (w', 0, Some (Errorf "already committed")) h')) /\
  (forall err : error,
      flushPart w h = Done (w1, Some err) h1 ->
      Commit w h = Done (w1, Some err) h1 /\ terminal w1 = false).
Proof.
  intros Hterm.
  destruct (terminal_false w Hterm) as (Hc & Hm & Hx).
  split.
  - intros err Hflush Hanswer w'.
    pose proof (flushPart_frame _ _ _ _ _ Hflush) as (_ & _ & _ & _ & Hc1 & _).
    assert (Hclosed : w_closed w' = false) by (unfold w'; simpl; congruence).
    repeat split.
    + unfold Commit. rewrite Hc, Hm, Hx.
      rewrite (bind_Done _ _ _ _ _ Hflush). cbv beta iota zeta. step. wsimpl.
      rewrite Hanswer. step. rewrite <- app_assoc. reflexivity.
    + intros h'. unfold Commit. rewrite Hclosed. reflexivity.
    + intros fuel p h'. unfold Write. rewrite Hclosed. reflexivity.
  - intros err Hflush.
    pose proof (flushPart_frame _ _ _ _ _ Hflush) as (_ & _ & _ & _ & Hc1 & Hm1 & Hx1 & _).
    split.
    + unfold Commit. rewrite Hc, Hm, Hx.
      rewrite (bind_Done _ _ _ _ _ Hflush). reflexivity.
    + unfold terminal. rewrite Hc1, Hm1, Hx1, Hc, Hm, Hx. reflexivity.
Qed.

(** A writer with empty buffers on a store that refuses every request. *)
Lemma Commit_failure_witness :
  let w := newWriter (mkDriver failingClient "id" "key" "" defaultChunkSize)
                     "blob" "upload-0" [] in
  let w' := set_committed w true in
  Commit w [] =
    Done (w', Some transportError)
         [Call_Object_CompleteMultipartUpload "blob" "upload-0" [];
          Call_Object_AbortMultipartUpload "blob" "upload-0"] /\
  (forall h' : History, Commit w' h' = Done (w', Some (Errorf "already committed")) h') /\
  (forall (fuel : nat) (p : list byte) (h' : History),
      Write fuel w' p h' = Done (w', 0, Some (Errorf "already committed")) h').
Proof.
  intros w w'.
  apply (proj1 (Commit_failure w w [] [] eq_refl) transportError); reflexivity.
Defined.

(** ** Resuming an upload *)

Lemma find_first {A : Type} (f : A -> bool) (before : list A) (x : A) (after : list A) :
  Forall (fun y => f y = false) before -> f x = true ->
  List.find f (before ++ x :: after) = Some x.
Proof.
  intros Hbefore Hx. induction Hbefore as [|y before Hy Hbefore IH]; simpl.
  - rewrite Hx. reflexivity.
  - rewrite Hy. exact IH.
Qed.

Lemma find_none {A : Type} (f : A -> bool) (l : list A) :
  Forall (fun y => f y = false) l -> List.find f l = None.
Proof.
  intros Hall. induction Hall as [|y l Hy Hall IH]; simpl; [reflexivity|].
  rewrite Hy. exact IH.
Qed.

Lemma newWriter_size (parts : list Object) :
  forall size,
    0 <= size ->
    Forall (fun part => 0 <= Size part) parts ->
    size + fold_right Z.add 0 (map Size parts) <= maxInt64 ->
    fold_left (fun size part => wrap64 (size + Size part)) parts size =
      size + fold_right Z.add 0 (map Size parts).
Proof.
  induction parts as [|part rest IH]; intros size Hsize Hall Hmax; simpl in *; [lia|].
  inversion Hall as [|? ? Hpart Hrest]; subst.
  assert (Hsum : 0 <= fold_right Z.add 0 (map Size rest)).
  { clear -Hrest. induction Hrest; simpl; lia. }
  rewrite wrap64_small by (unfold maxInt64 in *; lia).
  rewrite IH; [lia|lia|exact Hrest|lia].
Qed.

(** X7. [Writer] with [append] lists the multipart uploads under the
    mapped path and resumes the first one in the listing whose key is
    the mapped path itself, skipping uploads of other keys that the
    prefix listing returns: it lists the parts of that upload and
    returns a writable writer with these parts, empty buffers and, as
    size, the sum of the listed sizes (for sizes that are not negative
    and a sum within [int64]).  When no listed upload has exactly that
    key, no part listing is requested and the result is a
    [PathNotFoundError] for the path.  An error of either listing is
    returned as it is. *)
Theorem Writer_append (d : driver) (path : string) (h : History) :
  let key := cosPath d path in
  let h1 := h ++ [Call_Bucket_ListMultipartUploads key] in
  (forall err : error,
      answer_Bucket_ListMultipartUploads (Client d) h key = Err err ->
      Writer d path true h = Done (Err err) h1) /\
  (forall uploads : list MultipartUpload,
      answer_Bucket_ListMultipartUploads (Client d) h key = Ok uploads ->
      Forall (fun upload => upload_Key upload <> key) uploads ->
      Writer d path true h = Done (Err (PathNotFoundError path)) h1) /\
  (forall (before after : list MultipartUpload) (upload : MultipartUpload),
      answer_Bucket_ListMultipartUploads (Client d) h key =
        Ok (before ++ upload :: after) ->
      Forall (fun other => upload_Key other <> key) before ->
      upload_Key upload = key ->
      let h2 := h1 ++ [Call_Object_ListParts key (upload_UploadID upload)] in
      match answer_Object_ListParts (Client d) h1 key (upload_UploadID upload) with
      | Err err => Writer d path true h = Done (Err err) h2
      | Ok parts =>
          exists w,
            Writer d path true h = Done (Ok w) h2 /\
            w_driver w = d /\ w_key w = key /\
            w_uploadID w = upload_UploadID upload /\ w_parts w = parts /\
            w_readyPart w = [] /\ w_pendingPart w = [] /\ terminal w = false /\
            (Forall (fun part => 0 <= Size part) parts ->
             fold_right Z.add 0 (map Size parts) <= maxInt64 ->
             w_size w = fold_right Z.add 0 (map Size parts))
      end).
Proof.
  intros key h1.
  assert (Hne : forall l : list MultipartUpload,
             Forall (fun other => upload_Key other <> key) l ->
             Forall (fun other => String.eqb key (upload_Key other) = false) l).
  { intros l Hl. eapply Forall_impl; [exact Hl|]. simpl. intros other Hother.
    apply String.eqb_neq. congruence. }
  repeat split.
  - intros err Hlist. unfold Writer. cbn [negb]. cbv zeta. step. fold key.
    rewrite Hlist. reflexivity.
  - intros uploads Hlist Hall. unfold Writer. cbn [negb]. cbv zeta. step. fold key.
    rewrite Hlist. cbv beta iota. rewrite (find_none _ _ (Hne _ Hall)). reflexivity.
  - intros before after upload Hlist Hbefore Hkey h2.
    unfold Writer. cbn [negb]. cbv zeta. step. fold key. rewrite Hlist. cbv beta iota.
    rewrite (find_first _ before upload after (Hne _ Hbefore))
      by (rewrite Hkey; apply String.eqb_refl).
    step. fold key h1 h2.
    destruct (answer_Object_ListParts (Client d) h1 key (upload_UploadID upload))
      as [parts|err]; [|reflexivity].
    eexists. split; [reflexivity|]. simpl. repeat split.
    intros Hpos Hmax.
    rewrite (newWriter_size parts 0); [lia|lia|exact Hpos|lia].
Qed.

(** The listing returns an upload of "blob2" before one of "blob". *)
Lemma Writer_append_witness :
  let uploads := [mkMultipartUpload "blob2" "u1"; mkMultipartUpload "blob" "u2"] in
  let parts := [mkObject "" "e1" 5 1 ""; mkObject "" "e2" 3 2 ""] in
  let cl :=
    mkClient "bucket.cos.example"
      (fun _ _ _ => Err transportError) (fun _ _ => None) (fun _ _ _ => None)
      (fun _ _ _ => None) (fun _ _ _ => (None, Some transportError))
      (fun _ _ _ _ _ => Err transportError) (fun _ _ _ _ _ _ => Err transportError)
      (fun _ _ _ _ => None) (fun _ _ _ => None)
      (fun _ _ _ => Ok parts) (fun _ _ => Ok uploads)
      (fun _ _ => Err transportError) in
  let d := mkDriver cl "id" "key" "" defaultChunkSize in
  exists w,
    Writer d "/blob" true [] =
      Done (Ok w) [Call_Bucket_ListMultipartUploads "blob"; Call_Object_ListParts "blob" "u2"] /\
    w_driver w = d /\ w_key w = "blob" /\ w_uploadID w = "u2" /\ w_parts w = parts /\
    w_readyPart w = [] /\ w_pendingPart w = [] /\ terminal w = false /\
    (Forall (fun part => 0 <= Size part) parts ->
     fold_right Z.add 0 (map Size parts) <= maxInt64 ->
     w_size w = fold_right Z.add 0 (map Size parts)).
Proof.
  intros uploads parts cl d.
  apply (proj2 (proj2 (Writer_append d "/blob" []))
           [mkMultipartUpload "blob2" "u1"] [] (mkMultipartUpload "blob" "u2")).
  - reflexivity.
  - constructor; [discriminate|constructor].
  - reflexivity.
Defined.

(** ** Buffers that a failure leaves behind *)

(** X8. [flushPart] sends the ready buffer alone when the pending
    buffer holds a chunk or more, the state a failed upload leaves
    behind.  A [Commit] in that state, on a store that accepts the
    requests, uploads the ready buffer, completes the upload with the
    parts recorded and returns nil, while the bytes of the pending buffer
    were sent in no request: they are now the ready buffer of a writer
    that is committed. *)
Theorem Commit_with_full_pending_buffer (w : writer) (h : History) (resp : Response) :
  let cl := Client (w_driver w) in
  let partNumber := len (w_parts w) + 1 in
  let c1 := Call_Object_UploadPart (w_key w) (w_uploadID w) partNumber (w_readyPart w) in
  let parts := w_parts w ++ [mkObject "" (Header_Get resp "Etag") 0 partNumber ""] in
  let c2 := Call_Object_CompleteMultipartUpload (w_key w) (w_uploadID w) parts in
  terminal w = false ->
  ChunkSize (w_driver w) <= len (w_pendingPart w) ->
  w_pendingPart w <> [] ->
  answer_Object_UploadPart cl h (w_key w) (w_uploadID w) partNumber (w_readyPart w) =
    Ok resp ->
  answer_Object_CompleteMultipartUpload cl (h ++ [c1]) (w_key w) (w_uploadID w) parts =
    None ->
  exists w',
    Commit w h = Done (w', None) (h ++ [c1; c2]) /\
    w_readyPart w' = w_pendingPart w /\
    w_pendingPart w' = [] /\
    w_committed w' = true.
Proof.
  intros cl partNumber c1 parts c2 Hterm Hfull Hne Hupload Hcomplete.
  destruct (terminal_false w Hterm) as (Hc & Hm & Hx).
  assert (Hmerge : (len (w_pendingPart w) <? ChunkSize (w_driver w)) = false)
    by (apply Z.ltb_ge; exact Hfull).
  assert (Hsome : ((len (w_readyPart w) =? 0) && (len (w_pendingPart w) =? 0))%bool = false).
  { apply andb_false_iff. right. apply Z.eqb_neq. unfold len.
    destruct (w_pendingPart w); [congruence|simpl; lia]. }
  pose proof (flushPart_uploaded w h resp Hsome) as Hflush. cbv zeta in Hflush.
  rewrite Hmerge in Hflush.
  destruct (Hflush Hupload) as (w1 & Hrun & Hparts & Hready & Hpending).
  pose proof (flushPart_frame _ _ _ _ _ Hrun) as (Hd1 & Hk1 & Hu1 & _).
  unfold Commit. rewrite Hc, Hm, Hx.
  rewrite (bind_Done _ _ _ _ _ Hrun). cbv beta iota zeta. step. wsimpl.
  rewrite Hd1, Hk1, Hu1, Hparts. fold cl partNumber c1 parts.
  rewrite Hcomplete.
  eexists. split; [rewrite <- app_assoc; reflexivity|]. wsimpl. auto.
Qed.

(** Both buffers hold a chunk of two bytes, on a store that accepts every
    request: "cd" is left in the writer. *)
Lemma Commit_with_full_pending_buffer_witness :
  let listing := mkBucketGetResult [] [] false "" in
  let d := mkDriver (agreeingClient listing) "id" "key" "" 2 in
  let w := set_pendingPart (set_readyPart (newWriter d "blob" "upload-0" []) ["a"; "b"]%byte)
                           ["c"; "d"]%byte in
  exists w',
    Commit w [] =
      Done (w', None)
           ([] ++ [Call_Object_UploadPart "blob" "upload-0" 1 ["a"; "b"]%byte;
                   Call_Object_CompleteMultipartUpload "blob" "upload-0"
                     ([] ++ [mkObject "" "etag" 0 1 ""])]) /\
    w_readyPart w' = ["c"; "d"]%byte /\
    w_pendingPart w' = [] /\
    w_committed w' = true.
Proof.
  intros listing d w.
  apply (Commit_with_full_pending_buffer w [] (etagResponse "etag")).
  - reflexivity.
  - vm_compute. discriminate.
  - discriminate.
  - reflexivity.
  - reflexivity.
Defined.

(** X9. A failed read in the repair of [Write].  When the repair has
    completed the upload and initiated a new one, the size is below the
    minimum, and reading the body of the object fails, [Write] returns 0
    and the error of the read; the writer is left on the new upload with
    no recorded part and, as its ready buffer, the bytes that could be
    read.  Its next [Write] therefore does not repeat the repair: it
    appends straight after the partial bytes. *)
Theorem Write_repair_failed_read (fuel : nat) (w : writer) (p : list byte) (h : History)
    (v : InitiateMultipartUploadResult) (resp : Response) (err : error) :
  let cl := Client (w_driver w) in
  let parts := sortObjectList (completeOptions (w_parts w)) in
  let c1 := Call_Object_CompleteMultipartUpload (w_key w) (w_uploadID w) parts in
  let c2 := Call_Object_InitiateMultipartUpload (w_key w) None in
  let c3 := Call_Object_Get (w_key w) None in
  let w' := set_readyPart (set_parts (set_uploadID w (v_UploadID v)) [])
                          (body_data (Body resp)) in
  terminal w = false ->
  lastPartIsSmall w = true ->
  w_size w < minChunkSize ->
  answer_Object_CompleteMultipartUpload cl h (w_key w) (w_uploadID w) parts = None ->
  answer_Object_InitiateMultipartUpload cl (h ++ [c1]) (w_key w) None = (Some v, None) ->
  answer_Object_Get cl (h ++ [c1; c2]) (w_key w) None = Ok resp ->
  body_err (Body resp) = Some err ->
  Write fuel w p h = Done (w', 0, Some err) (h ++ [c1; c2; c3]) /\
  (forall (fuel' : nat) (q : list byte) (h' : History),
      Write fuel' w' q h' = writeLoop fuel' w' q 0 h').
Proof.
  intros cl parts c1 c2 c3 w' Hterm Hsmall Hsize Hcomplete Hinit Hget Hread.
  destruct (terminal_false w Hterm) as (Hc & Hm & Hx).
  pose proof (repairUpload_calls w h v Hcomplete Hinit) as Hrep. cbv zeta in Hrep.
  unfold reseedCall in Hrep.
  rewrite (proj2 (Z.ltb_lt _ _) Hsize) in Hrep.
  fold cl parts c1 c2 in Hrep. rewrite Hget, Hread in Hrep.
  split.
  - unfold Write. rewrite Hc, Hm, Hx, Hsmall.
    rewrite (bind_Done _ _ _ _ _ Hrep). reflexivity.
  - intros fuel' q h'. unfold Write, w'. wsimpl. rewrite Hc, Hm, Hx. reflexivity.
Qed.

(** A resumed upload of one part of three bytes; the read of the object
    breaks after the byte "a". *)
Lemma Write_repair_failed_read_witness :
  let resp := mkResponse (fun _ => "") (mkBody ["a"%byte] (Some transportError)) in
  let cl :=
    mkClient "bucket.cos.example"
      (fun _ _ _ => Ok resp) (fun _ _ => None) (fun _ _ _ => None)
      (fun _ _ _ => None) (fun _ key _ => (Some (mkInitiate key "upload-1"), None))
      (fun _ _ _ _ _ => Err transportError) (fun _ _ _ _ _ _ => Err transportError)
      (fun _ _ _ _ => None) (fun _ _ _ => None)
      (fun _ _ _ => Err transportError) (fun _ _ => Err transportError)
      (fun _ _ => Err transportError) in
  let d := mkDriver cl "id" "key" "" defaultChunkSize in
  let w := newWriter d "blob" "upload-0" [mkObject "" "etag" 3 1 ""] in
  let w' := set_readyPart (set_parts (set_uploadID w "upload-1") []) ["a"%byte] in
  Write 1 w ["x"%byte] [] =
    Done (w', 0, Some transportError)
         ([] ++ [Call_Object_CompleteMultipartUpload "blob" "upload-0"
                   [mkObject "" "etag" 0 1 ""];
                 Call_Object_InitiateMultipartUpload "blob" None;
                 Call_Object_Get "blob" None]) /\
  (forall (fuel' : nat) (q : list byte) (h' : History),
      Write fuel' w' q h' = writeLoop fuel' w' q 0 h').
Proof.
  intros resp cl d w w'.
  apply (Write_repair_failed_read 1 w ["x"%byte] [] (mkInitiate "blob" "upload-1") resp
           transportError); reflexivity.
Defined.

(** X10. The repair of [Write] when the store refuses it.  When
    completing the current upload fails, [Write] asks the store to abort
    that upload and returns 0 and the error; when the upload was
    completed and initiating the new one fails, [Write] returns 0 and
    that error.  In both cases nothing is buffered and the writer is left
    exactly as it was, with the old upload id and parts, so its next
    [Write] starts with the same [CompleteMultipartUpload] request. *)
Theorem Write_repair_refused (fuel : nat) (w : writer) (p : list byte) (h : History)
    (err : error) :
  let cl := Client (w_driver w) in
  let parts := sortObjectList (completeOptions (w_parts w)) in
  let c1 := Call_Object_CompleteMultipartUpload (w_key w) (w_uploadID w) parts in
  terminal w = false ->
  lastPartIsSmall w = true ->
  (answer_Object_CompleteMultipartUpload cl h (w_key w) (w_uploadID w) parts = Some err ->
   Write fuel w p h =
     Done (w, 0, Some err)
          (h ++ [c1; Call_Object_AbortMultipartUpload (w_key w) (w_uploadID w)])) /\
  (answer_Object_CompleteMultipartUpload cl h (w_key w) (w_uploadID w) parts = None ->
   forall v,
     answer_Object_InitiateMultipartUpload cl (h ++ [c1]) (w_key w) None = (v, Some err) ->
     Write fuel w p h =
       Done (w, 0, Some err) (h ++ [c1; Call_Object_InitiateMultipartUpload (w_key w) None])).
Proof.
  intros cl parts c1 Hterm Hsmall.
  destruct (terminal_false w Hterm) as (Hc & Hm & Hx).
  split.
  - intros Hcomplete. unfold Write. rewrite Hc, Hm, Hx, Hsmall.
    unfold bind at 1. unfold repairUpload. cbv zeta. step. fold cl parts.
    rewrite Hcomplete. step. rewrite <- app_assoc. reflexivity.
  - intros Hcomplete v Hinit. unfold Write. rewrite Hc, Hm, Hx, Hsmall.
    unfold bind at 1. unfold repairUpload. cbv zeta. step. fold cl parts.
    rewrite Hcomplete. fold c1. step. fold cl. rewrite Hinit. cbv beta iota.
    unfold ret. rewrite <- app_assoc. reflexivity.
Qed.

(** A resumed upload of one small part on a store that refuses every
    request. *)
Lemma Write_repair_refused_witness :
  let d := mkDriver failingClient "id" "key" "" defaultChunkSize in
  let w := newWriter d "blob" "upload-0" [mkObject "" "etag" 3 1 ""] in
  Write 1 w ["x"%byte] [] =
    Done (w, 0, Some transportError)
         ([] ++ [Call_Object_CompleteMultipartUpload "blob" "upload-0"
                   [mkObject "" "etag" 0 1 ""];
                 Call_Object_AbortMultipartUpload "blob" "upload-0"]).
Proof.
  intros d w.
  apply (proj1 (Write_repair_refused 1 w ["x"%byte] [] transportError eq_refl eq_refl)).
  reflexivity.
Defined.

(** ** List *)

Lemma trimLastByte_some (s : string) :
  forall a : ascii, exists t, trimLastByte (String a s) = Some t.
Proof.
  induction s as [|b s IH]; intros a.
  - exists EmptyString. reflexivity.
  - destruct (IH b) as (t & Ht). exists (String a t).
    change (trimLastByte (String a (String b s)))
      with (option_map (String a) (trimLastByte (String b s))).
    rewrite Ht. reflexivity.
Qed.

Lemma pageDirectories_total (d : driver) (prefix : string) (page : BucketGetResult) :
  Forall (fun commonPrefix => commonPrefix <> EmptyString) (CommonPrefixes page) ->
  pageDirectories d prefix page = Some (pageDirs d prefix page).
Proof.
  unfold pageDirectories, pageDirs. intros Hall. apply mapM_Some_2.
  induction Hall as [|cp rest Hcp Hall IH]; simpl; constructor; [|exact IH].
  unfold dropLastByte. destruct cp as [|a cp]; [congruence|].
  destruct (trimLastByte_some cp a) as (t & Ht). rewrite Ht. reflexivity.
Qed.

Lemma listLoop_unfold (fuel : nat) (d : driver) (cosPath' prefix : string)
    (page : BucketGetResult) (files directories : list string) (h : History) :
  listLoop (S fuel) d cosPath' prefix page files directories h =
  match pageDirectories d prefix page with
  | None => Panic h
  | Some dirs =>
      if IsTruncated page then
        let opt := mkBucketGetOptions cosPath' "/" (NextMarker page) listMax in
        match answer_Bucket_Get (Client d) h opt with
        | Err err => Done (Err err) (h ++ [Call_Bucket_Get opt])
        | Ok next =>
            listLoop fuel d cosPath' prefix next (files ++ pageFiles d prefix page)
                     (directories ++ dirs) (h ++ [Call_Bucket_Get opt])
        end
      else Done (Ok (files ++ pageFiles d prefix page, directories ++ dirs)) h
  end.
Proof.
  cbn [listLoop]. destruct (pageDirectories d prefix page); [|reflexivity].
  cbv zeta. destruct (IsTruncated page); [|reflexivity].
  step. destruct (answer_Bucket_Get _ _ _); reflexivity.
Qed.

Lemma List_unfold (fuel : nat) (d : driver) (opath path : string) (h : History) :
  listPath opath = Some path ->
  List fuel d opath h =
  let opt := mkBucketGetOptions (cosPath d path) "/" "" listMax in
  match answer_Bucket_Get (Client d) h opt with
  | Err err => Done (Err err) (h ++ [Call_Bucket_Get opt])
  | Ok page =>
      match listLoop fuel d (cosPath d path) (listPrefix d) page [] []
                     (h ++ [Call_Bucket_Get opt]) with
      | Done (Ok (files, directories)) h' =>
          Done (listResult d opath (cosPath d path) (listPrefix d) files directories) h'
      | Done (Err err) h' => Done (Err err) h'
      | Panic h' => Panic h'
      | OutOfFuel h' => OutOfFuel h'
      end
  end.
Proof.
  intros Hpath. unfold List. rewrite Hpath. cbv zeta. step.
  destruct (answer_Bucket_Get _ _ _) as [page|err]; [|reflexivity].
  unfold bind.
  destruct (listLoop _ _ _ _ _ _ _ _) as [[[files dirs]|err] h'|h'|h']; reflexivity.
Qed.

(** The loop over the pages, when the transport answers the pages
    [page :: rest]. *)
Lemma listLoop_pages (d : driver) (cosPath' prefix : string) (rest : list BucketGetResult) :
  forall (page : BucketGetResult) (fuel : nat) (h : History) (files dirs : list string),
    (length rest < fuel)%nat ->
    match rest with
    | [] => IsTruncated page = false
    | _ :: _ =>
        IsTruncated page = true /\
        pagesAnswered (Client d) cosPath' (NextMarker page) h rest
    end ->
    Forall (fun page => Forall (fun cp => cp <> EmptyString) (CommonPrefixes page))
           (page :: rest) ->
    listLoop fuel d cosPath' prefix page files dirs h =
      Done (Ok (files ++ concat (map (pageFiles d prefix) (page :: rest)),
                dirs ++ concat (map (pageDirs d prefix) (page :: rest))))
           (h ++ listingCalls cosPath' (NextMarker page) rest).
Proof.
  induction rest as [|next rest IH]; intros page fuel h files dirs Hfuel Hpages Hall;
    (destruct fuel as [|fuel]; [simpl in Hfuel; lia|]);
    inversion Hall as [|? ? Hpage Hrest]; subst;
    rewrite listLoop_unfold, (pageDirectories_total d prefix page Hpage).
  - rewrite Hpages. simpl. rewrite !app_nil_r. reflexivity.
  - destruct Hpages as (Htrunc & Hanswer & Hnext). rewrite Htrunc. cbv zeta.
    rewrite Hanswer.
    rewrite (IH next fuel _ _ _); [|simpl in Hfuel; lia|exact Hnext|exact Hrest].
    simpl. rewrite <- !app_assoc. reflexivity.
Qed.

(** X11. A paginated listing.  When the store answers the requests of a
    [List] with the pages [pages], every page but the last being
    truncated and each requested with the marker that the page before it
    returned, [List] sends exactly these requests (prefix: the mapped
    path with "/" at its end; delimiter "/"; at most [listMax] keys) and
    returns the file names of all pages, in page order, followed by the
    directory names of all pages; the first file name is left out when
    it is the listed prefix itself, and an empty result is a
    [PathNotFoundError] unless the path is "/".  (Fuel: one unit per
    page; no common prefix is the empty string.) *)
Theorem List_pages (fuel : nat) (d : driver) (opath path : string) (h : History)
    (pages : list BucketGetResult) :
  listPath opath = Some path ->
  let cosPath' := cosPath d path in
  let prefix := listPrefix d in
  pagesAnswered (Client d) cosPath' "" h pages ->
  (length pages <= fuel)%nat ->
  Forall (fun page => Forall (fun cp => cp <> EmptyString) (CommonPrefixes page)) pages ->
  List fuel d opath h =
    Done (listResult d opath cosPath' prefix
                     (concat (map (pageFiles d prefix) pages))
                     (concat (map (pageDirs d prefix) pages)))
         (h ++ listingCalls cosPath' "" pages).
Proof.
  intros Hpath cosPath' prefix Hpages Hfuel Hall.
  destruct pages as [|page rest]; [contradiction Hpages|].
  destruct Hpages as (Hanswer & Hrest).
  rewrite (List_unfold fuel d opath path h Hpath). cbv zeta.
  fold cosPath' prefix. rewrite Hanswer.
  rewrite (listLoop_pages d cosPath' prefix rest page fuel _ [] []);
    [|simpl in Hfuel; lia|exact Hrest|exact Hall].
  simpl. rewrite <- app_assoc. reflexivity.
Qed.

(** Two pages listed under "/a": the key "a/" itself and a file, then a
    file and a directory. *)
Lemma List_pages_witness :
  let page1 := mkBucketGetResult [mkObject "a/" "" 0 0 ""; mkObject "a/b" "" 1 0 ""] []
                                 true "a/b" in
  let page2 := mkBucketGetResult [mkObject "a/c" "" 1 0 ""] ["a/d/"%string] false "" in
  let cl :=
    mkClient "bucket.cos.example"
      (fun _ _ _ => Err transportError) (fun _ _ => None) (fun _ _ _ => None)
      (fun _ _ _ => None) (fun _ _ _ => (None, Some transportError))
      (fun _ _ _ _ _ => Err transportError) (fun _ _ _ _ _ _ => Err transportError)
      (fun _ _ _ _ => None) (fun _ _ _ => None)
      (fun _ _ _ => Err transportError) (fun _ _ => Err transportError)
      (fun _ opt => if String.eqb (Marker opt) "" then Ok page1 else Ok page2) in
  let d := mkDriver cl "id" "key" "" defaultChunkSize in
  List 2 d "/a" [] =
    Done (Ok ["/a/b"; "/a/c"; "/a/d"]%string)
         [Call_Bucket_Get (mkBucketGetOptions "a/" "/" "" listMax);
          Call_Bucket_Get (mkBucketGetOptions "a/" "/" "a/b" listMax)].
Proof.
  intros page1 page2 cl d.
  apply (List_pages 2 d "/a" "/a/" [] [page1; page2]).
  - reflexivity.
  - simpl. auto.
  - simpl. lia.
  - repeat constructor; discriminate.
Defined.

Lemma listLoop_calls (d : driver) (cosPath' prefix : string) (fuel : nat) :
  forall (page : BucketGetResult) (files dirs : list string) (h : History),
  exists calls,
    history_of (listLoop fuel d cosPath' prefix page files dirs h) = h ++ calls /\
    Forall (listsUnder cosPath') calls.
Proof.
  induction fuel as [|fuel IH]; intros page files dirs h.
  { exists []. rewrite app_nil_r. simpl. auto. }
  rewrite listLoop_unfold.
  destruct (pageDirectories d prefix page) as [pd|];
    [|exists []; rewrite app_nil_r; simpl; auto].
  destruct (IsTruncated page); [|exists []; rewrite app_nil_r; simpl; auto].
  cbv zeta.
  set (opt := mkBucketGetOptions cosPath' "/" (NextMarker page) listMax).
  assert (Hopt : listsUnder cosPath' (Call_Bucket_Get opt)) by (eexists; reflexivity).
  destruct (answer_Bucket_Get (Client d) h opt) as [next|err].
  - destruct (IH next (files ++ pageFiles d prefix page) (dirs ++ pd)
                 (h ++ [Call_Bucket_Get opt])) as (calls & Hh & Hcalls).
    exists (Call_Bucket_Get opt :: calls). rewrite Hh, <- app_assoc.
    split; [reflexivity|]. constructor; assumption.
  - exists [Call_Bucket_Get opt]. simpl. split; [reflexivity|].
    constructor; [exact Hopt|constructor].
Qed.

(** X12. [List] only reads.  Whatever the store answers and however the
    call ends, every request it sends is a [Bucket.Get] of the mapped
    path (with "/" at its end) with the delimiter "/" and at most
    [listMax] keys.  For the empty path it sends nothing: indexing the
    last byte of the path panics. *)
Theorem List_only_lists (fuel : nat) (d : driver) (opath : string) (h : History) :
  (opath = EmptyString -> List fuel d opath h = Panic h) /\
  (forall path : string,
      listPath opath = Some path ->
      (path = opath \/ path = opath +:+ "/") /\
      exists calls,
        history_of (List fuel d opath h) = h ++ calls /\
        Forall (listsUnder (cosPath d path)) calls).
Proof.
  split.
  - intros ->. reflexivity.
  - intros path Hpath. split.
    { unfold listPath in Hpath. destruct (String.eqb opath "/").
      - inversion Hpath. auto.
      - destruct (lastByte opath) as [c|]; [|discriminate].
        inversion Hpath. destruct (negb (Ascii.eqb c "/")); auto. }
    rewrite (List_unfold fuel d opath path h Hpath). cbv zeta.
    set (opt := mkBucketGetOptions (cosPath d path) "/" "" listMax).
    assert (Hopt : listsUnder (cosPath d path) (Call_Bucket_Get opt))
      by (eexists; reflexivity).
    destruct (answer_Bucket_Get (Client d) h opt) as [page|err].
    + destruct (listLoop_calls d (cosPath d path) (listPrefix d) fuel page [] []
                               (h ++ [Call_Bucket_Get opt])) as (calls & Hh & Hcalls).
      exists (Call_Bucket_Get opt :: calls). split; [|constructor; assumption].
      rewrite <- app_assoc in Hh. simpl in Hh. rewrite <- Hh.
      destruct (listLoop _ _ _ _ _ _ _ _) as [[[files dirs]|err] h'|h'|h']; reflexivity.
    + exists [Call_Bucket_Get opt]. simpl. split; [reflexivity|].
      constructor; [exact Hopt|constructor].
Qed.

(** The listing of "/a" on a store that refuses every request. *)
Lemma List_only_lists_witness :
  let d := mkDriver failingClient "id" "key" "" defaultChunkSize in
  ("/a/" = "/a" \/ "/a/" = "/a" +:+ "/") /\
  exists calls,
    history_of (List 1 d "/a" []) = [] ++ calls /\ Forall (listsUnder "a/") calls.
Proof.
  intros d. apply (proj2 (List_only_lists 1 d "/a" []) "/a/"). reflexivity.
Defined.

Lemma listedName_empty_root (d : driver) (name : string) :
  RootDirectory d = EmptyString -> listedName d (listPrefix d) name = "/" +:+ name.
Proof.
  intros Hroot. unfold listedName, listPrefix, cosPath. rewrite Hroot. reflexivity.
Qed.

Lemma startsWithSlash_listed (d : driver) (name : string) :
  RootDirectory d = EmptyString -> startsWithSlash (listedName d (listPrefix d) name).
Proof.
  intros Hroot. rewrite listedName_empty_root by exact Hroot.
  unfold startsWithSlash. destruct name; reflexivity.
Qed.

Lemma listLoop_names (d : driver) (cosPath' : string) (fuel : nat) :
  RootDirectory d = EmptyString ->
  forall (page : BucketGetResult) (files dirs files' dirs' : list string) (h h' : History),
    listLoop fuel d cosPath' (listPrefix d) page files dirs h = Done (Ok (files', dirs')) h' ->
    Forall startsWithSlash files -> Forall startsWithSlash dirs ->
    Forall startsWithSlash files' /\ Forall startsWithSlash dirs'.
Proof.
  intros Hroot. induction fuel as [|fuel IH]; intros page files dirs files' dirs' h h' Hloop Hf Hd.
  { discriminate Hloop. }
  rewrite listLoop_unfold in Hloop.
  destruct (pageDirectories d (listPrefix d) page) as [pd|] eqn:Hpd; [|discriminate].
  assert (Hf1 : Forall startsWithSlash (files ++ pageFiles d (listPrefix d) page)).
  { apply Forall_app. split; [exact Hf|]. unfold pageFiles.
    apply List.Forall_forall. intros name Hin. apply in_map_iff in Hin as (key & <- & _).
    apply startsWithSlash_listed. exact Hroot. }
  assert (Hd1 : Forall startsWithSlash (dirs ++ pd)).
  { apply Forall_app. split; [exact Hd|].
    apply mapM_Some_1 in Hpd. clear -Hpd Hroot.
    induction Hpd as [|cp name cps names Hname Hrest IH]; constructor; [|exact IH].
    destruct (trimLastByte cp) as [t|]; [|discriminate]. simpl in Hname.
    inversion Hname. apply startsWithSlash_listed. exact Hroot. }
  destruct (IsTruncated page).
  - cbv zeta in Hloop.
    destruct (answer_Bucket_Get _ _ _) as [next|err]; [|discriminate].
    eapply IH; eauto.
  - inversion Hloop; subst. auto.
Qed.

(** X13. The names [List] returns.  When [List] returns names for a path
    other than "/", there is at least one; and for a driver with the
    empty root directory, the one [New] sets, every name begins with
    "/". *)
Theorem List_names (fuel : nat) (d : driver) (opath : string) (names : list string)
    (h h' : History) :
  List fuel d opath h = Done (Ok names) h' ->
  (opath <> "/"%string -> names <> []) /\
  (RootDirectory d = EmptyString -> Forall startsWithSlash names).
Proof.
  intros Hlist.
  destruct (listPath opath) as [path|] eqn:Hpath;
    [|unfold List in Hlist; rewrite Hpath in Hlist; discriminate].
  rewrite (List_unfold fuel d opath path h Hpath) in Hlist. cbv zeta in Hlist.
  destruct (answer_Bucket_Get _ _ _) as [page|err]; [|discriminate].
  destruct (listLoop _ _ _ _ _ _ _ _) as [[[files dirs]|err] h1|h1|h1] eqn:Hloop;
    try discriminate.
  unfold listResult in Hlist.
  set (kept := match files with
               | first :: rest =>
                   if String.eqb first (listedName d (listPrefix d) (cosPath d path))
                   then rest else files
               | [] => files
               end) in *.
  split.
  - intros Hne. apply String.eqb_neq in Hne. rewrite Hne in Hlist. simpl in Hlist.
    destruct (Z.eqb_spec (len kept) 0) as [Hk|Hk]; simpl in Hlist.
    + destruct (Z.eqb_spec (len dirs) 0) as [Hd|Hd]; [discriminate|].
      inversion Hlist; subst. destruct dirs; [contradiction Hd; reflexivity|].
      destruct kept; discriminate.
    + inversion Hlist; subst. destruct kept; [contradiction Hk; reflexivity|discriminate].
  - intros Hroot.
    destruct (listLoop_names d _ fuel Hroot _ _ _ _ _ _ _ Hloop) as (Hf & Hd);
      [constructor|constructor|].
    assert (Hkept : Forall startsWithSlash kept).
    { unfold kept. destruct Hf as [|first rest Hfirst Hrest]; [constructor|].
      destruct (String.eqb _ _); [exact Hrest|constructor; assumption]. }
    destruct (_ && _); [discriminate|]. inversion Hlist; subst.
    apply Forall_app. auto.
Qed.

(** One page with a file and a directory under the root. *)
Lemma List_names_witness :
  let page := mkBucketGetResult [mkObject "a" "" 1 0 ""] ["b/"%string] false "" in
  let d := mkDriver (agreeingClient page) "id" "key" "" defaultChunkSize in
  ("/"%string <> "/"%string -> ["/a"; "/b"]%string <> []) /\
  (RootDirectory d = EmptyString -> Forall startsWithSlash ["/a"; "/b"]%string).
Proof.
  intros page d.
  apply (List_names 1 d "/" ["/a"; "/b"]%string []
           [Call_Bucket_Get (mkBucketGetOptions "" "/" "" listMax)]).
  reflexivity.
Defined.

(** ** Keys and names *)

Lemma TrimLeft_head (s cutset : string) :
  match TrimLeft s cutset with
  | String a _ => inCutset a cutset = false
  | EmptyString => True
  end.
Proof.
  induction s as [|a rest IH]; simpl; [exact I|].
  destruct (inCutset a cutset) eqn:Ha; [exact IH|exact Ha].
Qed.

Lemma prefix_slash (a : ascii) (rest : string) :
  String.prefix "/" (String a rest) = Ascii.eqb a "/".
Proof.
  change (String.prefix "/" (String a rest))
    with (match ascii_dec "/" a with
          | left _ => String.prefix EmptyString rest
          | right _ => false
          end).
  destruct (ascii_dec "/" a) as [<-|Hne].
  - destruct rest; reflexivity.
  - symmetry. apply Ascii.eqb_neq. congruence.
Qed.

Lemma TrimLeft_fixed (s : string) :
  String.prefix "/" s = false -> TrimLeft s "/" = s.
Proof.
  destruct s as [|a rest]; [reflexivity|].
  rewrite prefix_slash. intros Ha. cbn [TrimLeft inCutset]. rewrite Ha. reflexivity.
Qed.

(** X14. No key that the driver derives from a path begins with "/".
    For the empty root directory, the one [New] sets, the name under
    which [List] returns a key maps back to that key, for every key that
    does not begin with "/". *)
Theorem keys_and_names :
  (forall (d : driver) (path : string), String.prefix "/" (cosPath d path) = false) /\
  (forall (d : driver) (key : string),
      RootDirectory d = EmptyString ->
      String.prefix "/" key = false ->
      cosPath d (listedName d (listPrefix d) key) = key).
Proof.
  split.
  - intros d path. unfold cosPath.
    pose proof (TrimLeft_head (TrimRight (RootDirectory d) "/" ++ path) "/") as Hhead.
    destruct (TrimLeft _ _) as [|a rest]; [reflexivity|].
    rewrite prefix_slash. cbn [inCutset] in Hhead.
    destruct (Ascii.eqb a "/"); [discriminate Hhead|reflexivity].
  - intros d key Hroot Hkey.
    rewrite listedName_empty_root by exact Hroot.
    rewrite cosPath_empty_root by exact Hroot.
    change (TrimLeft ("/" +:+ key) "/") with (TrimLeft key "/").
    apply TrimLeft_fixed. exact Hkey.
Qed.

(** The key "a/b" is listed as "/a/b", which maps back to "a/b". *)
Lemma keys_and_names_witness :
  let d := mkDriver failingClient "id" "key" "" defaultChunkSize in
  cosPath d (listedName d (listPrefix d) "a/b") = "a/b"%string.
Proof.
  intros d. apply (proj2 keys_and_names d "a/b"); reflexivity.
Defined.

(** ** Reading from an offset *)

Lemma Reader_request (d : driver) (path : string) (offset : Z) (h : History) :
  let range := "bytes=" +:+ formatInt offset +:+ "-" in
  Reader d path offset h =
  Done (match answer_Object_Get (Client d) h (cosPath d path) (Some range) with
        | Ok resp => Ok (Body resp)
        | Err err => Err err
        end)
       (h ++ [Call_Object_Get (cosPath d path) (Some range)]).
Proof.
  intros range. unfold Reader. cbv zeta. step. fold range.
  destruct (answer_Object_Get _ _ _ _); reflexivity.
Qed.

(** ** Construction from a parameter map *)

Section ConstructionProperties.
Variable NewClient : string -> string -> bool -> string -> string -> cos_Client.
Variable ParseInt : string -> Result Z.

Lemma chunkSizeOf_min (parameters : gmap string Value) (chunkSize : Z) :
  chunkSizeOf ParseInt parameters = Ok chunkSize ->
  minChunkSize <= chunkSize /\
  (parameters !! "chunksize" = None -> chunkSize = defaultChunkSize).
Proof.
  unfold chunkSizeOf.
  assert (Hchecked : forall c : Z,
             (if c <? minChunkSize
              then Err (Errorf ("The chunksize " +:+ formatInt c +:+
                          " parameter should be a number that is larger than or equal to " +:+
                          formatInt minChunkSize))
              else Ok c) = Ok chunkSize ->
             minChunkSize <= chunkSize /\ (Some c = None :> option Z -> chunkSize = defaultChunkSize)).
  { intros c. destruct (Z.ltb_spec c minChunkSize) as [Hlt|Hge]; [discriminate|].
    intros H; inversion H; subst. split; [assumption|discriminate]. }
  destruct (parameters !! "chunksize") as [v|].
  - intros H. split; [|discriminate].
    destruct v; cbv zeta in H;
      try discriminate H;
      try (apply Hchecked in H; tauto).
    destruct (ParseInt s); [apply Hchecked in H; tauto|discriminate].
  - intros H; inversion H; subst. split; [vm_compute; discriminate|reflexivity].
Qed.

(** X15. Every driver that [FromParameters] returns has a chunk size of
    at least [minChunkSize], the default chunk size when the parameters
    give none, and the empty root directory; its credentials are the
    printed "secretid" and "secretkey" parameters. *)
Theorem FromParameters_driver (parameters : gmap string Value) (d : driver) :
  FromParameters NewClient ParseInt parameters = Ok d ->
  minChunkSize <= ChunkSize d /\
  (parameters !! "chunksize" = None -> ChunkSize d = defaultChunkSize) /\
  RootDirectory d = EmptyString /\
  Some (SecretID d) = Sprint <$> parameters !! "secretid" /\
  Some (SecretKey d) = Sprint <$> parameters !! "secretkey".
Proof.
  unfold FromParameters.
  destruct (parameters !! "secretid") as [secretID|]; [|discriminate].
  destruct (parameters !! "secretkey") as [secretKey|]; [|discriminate].
  destruct (parameters !! "region") as [regionName|]; [|discriminate].
  destruct (String.eqb (Sprint regionName) ""); [discriminate|].
  destruct (parameters !! "bucket") as [bucket|]; [|discriminate].
  destruct (String.eqb (Sprint bucket) ""); [discriminate|].
  destruct (secureOf parameters) as [secureBool|]; [|discriminate].
  destruct (chunkSizeOf ParseInt parameters) as [chunkSize|] eqn:Hchunk; [|discriminate].
  apply chunkSizeOf_min in Hchunk as (Hmin & Hdefault).
  unfold New. cbv zeta. intros H; inversion H; subst. simpl. auto.
Qed.

(** X16. [FromParameters] reads the six parameters "secretid",
    "secretkey", "region", "bucket", "secure" and "chunksize" and no
    other: setting any other parameter, "rootdirectory" for one, does not
    change its result.  A missing "secretid" is reported first, then a
    missing "secretkey", a missing or empty "region" and a missing or
    empty "bucket", whatever the other parameters hold. *)
Theorem FromParameters_reads (parameters : gmap string Value) :
  (forall (name : string) (v : Value),
      ~ In name ["secretid"; "secretkey"; "region"; "bucket"; "secure"; "chunksize"]%string ->
      FromParameters NewClient ParseInt (<[name := v]> parameters) =
      FromParameters NewClient ParseInt parameters) /\
  (parameters !! "secretid" = None ->
   FromParameters NewClient ParseInt parameters =
     Err (Errorf "No secretid parameter provided")) /\
  (is_Some (parameters !! "secretid") -> parameters !! "secretkey" = None ->
   FromParameters NewClient ParseInt parameters =
     Err (Errorf "No secretkey parameter provided")) /\
  (is_Some (parameters !! "secretid") -> is_Some (parameters !! "secretkey") ->
   Sprint <$> parameters !! "region" = None \/
   Sprint <$> parameters !! "region" = Some EmptyString ->
   FromParameters NewClient ParseInt parameters =
     Err (Errorf "No region parameter provided")) /\
  (is_Some (parameters !! "secretid") -> is_Some (parameters !! "secretkey") ->
   (exists region, Sprint <$> parameters !! "region" = Some region /\
                   region <> EmptyString) ->
   Sprint <$> parameters !! "bucket" = None \/
   Sprint <$> parameters !! "bucket" = Some EmptyString ->
   FromParameters NewClient ParseInt parameters =
     Err (Errorf "No bucket parameter provided")).
Proof.
  repeat apply conj.
  - intros name v Hname.
    unfold FromParameters, secureOf, chunkSizeOf.
    rewrite !lookup_insert_ne by (intros E; apply Hname; subst name; simpl; auto 10).
    reflexivity.
  - intros Hid. unfold FromParameters. rewrite Hid. reflexivity.
  - intros [secretID Hid] Hkey. unfold FromParameters. rewrite Hid, Hkey. reflexivity.
  - intros [secretID Hid] [secretKey Hkey] Hregion.
    unfold FromParameters. rewrite Hid, Hkey.
    destruct (parameters !! "region") as [regionName|]; [|reflexivity].
    simpl in Hregion. destruct Hregion as [Hr|Hr]; [discriminate|].
    inversion Hr as [Hr']. rewrite Hr'. reflexivity.
  - intros [secretID Hid] [secretKey Hkey] (region & Hregion & Hne) Hbucket.
    unfold FromParameters. rewrite Hid, Hkey.
    destruct (parameters !! "region") as [regionName|]; [|discriminate].
    simpl in Hregion. inversion Hregion as [Hr]. rewrite Hr.
    apply String.eqb_neq in Hne. rewrite Hne.
    destruct (parameters !! "bucket") as [bucket|]; [|reflexivity].
    simpl in Hbucket. destruct Hbucket as [Hb|Hb]; [discriminate|].
    inversion Hb as [Hb']. rewrite Hb'. reflexivity.
Qed.

End ConstructionProperties.

(** The four required parameters and a chunk size of 5 MiB given as a
    string that the parser reads as 5242880. *)
Lemma FromParameters_driver_witness :
  let NewClient := fun (_ _ : string) (_ : bool) (_ _ : string) => failingClient in
  let ParseInt := fun _ : string => Ok 5242880 in
  let parameters : gmap string Value :=
    <["secretid" := V_string "id"]>
      (<["secretkey" := V_string "key"]>
         (<["region" := V_string "ap-guangzhou"]>
            (<["bucket" := V_string "registry"]>
               (<["chunksize" := V_string "5242880"]> ∅)))) in
  let d := mkDriver failingClient "id" "key" "" 5242880 in
  minChunkSize <= ChunkSize d /\
  (parameters !! "chunksize" = None -> ChunkSize d = defaultChunkSize) /\
  RootDirectory d = EmptyString /\
  Some (SecretID d) = Sprint <$> parameters !! "secretid" /\
  Some (SecretKey d) = Sprint <$> parameters !! "secretkey".
Proof.
  intros NewClient ParseInt parameters d.
  apply (FromParameters_driver NewClient ParseInt parameters d).
  vm_compute. reflexivity.
Defined.

(** The root directory given as a parameter is not read. *)
Lemma FromParameters_reads_witness :
  let NewClient := fun (_ _ : string) (_ : bool) (_ _ : string) => failingClient in
  let ParseInt := fun _ : string => Err (Errorf "syntax") in
  let parameters : gmap string Value :=
    <["secretid" := V_string "id"]> (<["secretkey" := V_string "key"]> ∅) in
  FromParameters NewClient ParseInt (<["rootdirectory" := V_string "/registry"]> parameters) =
  FromParameters NewClient ParseInt parameters.
Proof.
  intros NewClient ParseInt parameters.
  apply (proj1 (FromParameters_reads NewClient ParseInt parameters)).
  simpl. intros [H|[H|[H|[H|[H|[H|[]]]]]]]; discriminate H.
Defined.

(** ** Signed URLs *)

Section SignedURLProperties.
Variable GetPresignedURL : string -> string -> string -> string -> Z -> Result string.

(** X17. [URLFor] refuses with [ErrUnsupportedMethod] exactly when the
    options hold a "method" that is not the string "GET" or "HEAD", and
    then signs nothing.  Otherwise it makes one call of
    [GetPresignedURL], for the method given (GET when there is none), the
    key of the path and the two secrets of the driver, and returns the
    URL or the error of that call.  The duration it asks for is 20
    minutes, at whatever time the call is made, unless the options hold
    an "expiry" that is a time; such an expiry within the range of a
    duration around the present is taken as it is, so one in the past
    gives a negative duration. *)
Theorem URLFor_request (now : Z) (d : driver) (path : string)
    (options : gmap string OptionValue) :
  (URLFor GetPresignedURL now d path options = ErrUnsupportedMethod <->
   exists v, options !! "method" = Some v /\ v <> O_string "GET" /\ v <> O_string "HEAD") /\
  (forall (methodString : string) (duration : Z),
      (options !! "method" = None /\ methodString = "GET"%string \/
       options !! "method" = Some (O_string methodString) /\
       (methodString = "GET"%string \/ methodString = "HEAD"%string)) ->
      ((forall et, options !! "expiry" <> Some (O_time et)) /\ duration = twentyMinutes \/
       exists et, options !! "expiry" = Some (O_time et) /\
                  minInt64 <= et - now <= maxInt64 /\ duration = et - now) ->
      URLFor GetPresignedURL now d path options =
        match GetPresignedURL methodString (cosPath d path) (SecretID d) (SecretKey d)
                              duration with
        | Ok url => SignedURL url
        | Err err => SigningError err
        end).
Proof.
  split; [split|].
  - unfold URLFor, methodOf.
    destruct (options !! "method") as [[m| |]|] eqn:Hm.
    + destruct (String.eqb_spec m "GET") as [->|Hget]; simpl.
      { destruct (GetPresignedURL _ _ _ _ _); discriminate. }
      destruct (String.eqb_spec m "HEAD") as [->|Hhead]; simpl.
      { destruct (GetPresignedURL _ _ _ _ _); discriminate. }
      intros _. exists (O_string m). repeat split; congruence.
    + intros _. eexists. repeat split; discriminate.
    + intros _. eexists. repeat split; discriminate.
    + destruct (GetPresignedURL _ _ _ _ _); discriminate.
  - unfold URLFor, methodOf.
    intros (v & -> & Hget & Hhead). destruct v as [m| |]; try reflexivity.
    destruct (String.eqb_spec m "GET") as [->|_]; [congruence|].
    destruct (String.eqb_spec m "HEAD") as [->|_]; [congruence|]. reflexivity.
  - intros methodString duration Hmethod Hduration.
    assert (Hm : methodOf options = Some methodString).
    { unfold methodOf.
      destruct Hmethod as [(-> & ->)|(-> & [->| ->])]; reflexivity. }
    assert (Hd : durationOf now options = duration).
    { unfold durationOf, time_Sub.
      destruct Hduration as [(Hno & ->)|(et & -> & Hrange & ->)]; [|lia].
      destruct (options !! "expiry") as [[s|et|]|];
        try (replace (now + twentyMinutes - now) with twentyMinutes by lia;
             vm_compute; reflexivity).
      exfalso. apply (Hno et). reflexivity. }
    unfold URLFor. rewrite Hm, Hd.
    destruct (GetPresignedURL _ _ _ _ _); reflexivity.
Qed.

End SignedURLProperties.

(** A HEAD request with an expiry one second before the call. *)
Lemma URLFor_request_witness :
  let options : gmap string OptionValue :=
    <["method" := O_string "HEAD"]> (<["expiry" := O_time 1000000000]> ∅) in
  let d := mkDriver failingClient "id" "key" "" defaultChunkSize in
  URLFor echoSigner 2000000000 d "/a" options = SignedURL "HEAD a id key -1000000000".
Proof.
  intros options d.
  apply (proj2 (URLFor_request echoSigner 2000000000 d "/a" options)
               "HEAD"%string (1000000000 - 2000000000)).
  - right. split; [reflexivity|right; reflexivity].
  - right. exists 1000000000. split; [reflexivity|].
    split; [vm_compute; split; discriminate|reflexivity].
Defined.

(** Without options the URL is signed for a GET and twenty minutes. *)
Example URLFor_defaults :
  URLFor echoSigner 2000000000 (mkDriver failingClient "id" "key" "" defaultChunkSize)
         "/a" ∅ = SignedURL "GET a id key 1200000000000".
Proof. vm_compute. reflexivity. Qed.


(** ** A part copy that fails *)



Section CopyFailure.
Context {Time : Type}.
Variable zeroTime : Time.
Variable time_Parse : string -> string -> Result Time.
Variable sched : Scheduler.


End CopyFailure.


(** The same store under two schedules: when the request of the second
    part reaches the store first, the upload is aborted after that one
    request; when the requests arrive in index order and the main
    goroutine is slow to read the error, the third is sent as well. *)
Example copy_aborts_early :
  let listing := mkBucketGetResult
                   [mkObject "source" "" 314572800 0 "2019-01-01T00:00:00Z"] [] false "" in
  let d := mkDriver (refusingClient listing 2) "id" "key" "" defaultChunkSize in
  let source := "bucket.cos.example/source" in
  let opt := Some (mkObjectPutHeaderOptions "private" "application/octet-stream") in
  copy "" (fun _ s => Ok s) (mkScheduler [1]%nat 0 0) d "source" "dest" [] =
    Done (Some transportError)
      [Call_Bucket_Get (mkBucketGetOptions "source" "" "" 1);
       Call_Object_InitiateMultipartUpload "dest" opt;
       Call_Object_UploadPartCopy "dest" "source" "upload-0" 2
         (Some (mkCopyPartHeaderOptions source "bytes=134217728-268435455"));
       Call_Object_AbortMultipartUpload "dest" "upload-0"] /\
  copy "" (fun _ s => Ok s) (mkScheduler [] 1 0) d "source" "dest" [] =
    Done (Some transportError)
      [Call_Bucket_Get (mkBucketGetOptions "source" "" "" 1);
       Call_Object_InitiateMultipartUpload "dest" opt;
       Call_Object_UploadPartCopy "dest" "source" "upload-0" 1
         (Some (mkCopyPartHeaderOptions source "bytes=0-134217727"));
       Call_Object_UploadPartCopy "dest" "source" "upload-0" 2
         (Some (mkCopyPartHeaderOptions source "bytes=134217728-268435455"));
       Call_Object_UploadPartCopy "dest" "source" "upload-0" 3
         (Some (mkCopyPartHeaderOptions source "bytes=268435456-314572799"));
       Call_Object_AbortMultipartUpload "dest" "upload-0"].
Proof. split; vm_compute; reflexivity. Qed.

(** ** The listing loop of Delete *)

Lemma accumulated_all (prefix : string) (contents : list Object) :
  Forall (fun key => notSubpath prefix (Key key) = false) contents ->
  accumulated prefix contents = map Key contents.
Proof.
  intros Hall. induction Hall as [|key rest Hkey Hall IH]; simpl; [reflexivity|].
  rewrite Hkey, IH. reflexivity.
Qed.

Lemma deletePages_repeats (d : driver) (path : string) (contents : list Object)
    (listing : BucketGetResult) :
  let prefix := cosPath d path in
  Contents listing = contents ->
  contents <> [] ->
  len contents <= listMax ->
  Forall (fun key => notSubpath prefix (Key key) = false) contents ->
  (forall h', answer_Bucket_Get (Client d) h' (mkBucketGetOptions prefix "" "" listMax) =
              Ok listing) ->
  (forall h' objs, answer_Object_DeleteMulti (Client d) h' objs false = None) ->
  forall (fuel : nat) (objs : list Object) (h : History),
    length objs = Z.to_nat listMax ->
    exists calls,
      deletePages fuel d path prefix contents objs h = OutOfFuel (h ++ calls) /\
      length calls = (2 * fuel)%nat.
Proof.
  intros prefix Hcontents Hne Hlen Hall Hlist Hdelete.
  induction fuel as [|fuel IH]; intros objs h Hobjs.
  - exists []. rewrite app_nil_r. destruct contents; [congruence|]. auto.
  - destruct contents as [|key rest] eqn:Hc; [congruence|].
    destruct (scanPage_page prefix (key :: rest) objs) as (objs' & Hscan & Hl & _).
    { unfold len in Hlen. lia. }
    assert (Hnum : len (accumulated prefix (key :: rest)) = len (key :: rest)).
    { rewrite accumulated_all by exact Hall. unfold len. rewrite length_map. reflexivity. }
    rewrite deletePages_unfold, Hscan. cbv zeta.
    rewrite Hdelete, !Hnum, Z.ltb_irrefl.
    fold prefix. rewrite Hlist, Hcontents.
    destruct (IH objs' ((h ++ [Call_Object_DeleteMulti
                                 (take (Z.to_nat (len (key :: rest))) objs') false]) ++
                        [Call_Bucket_Get (mkBucketGetOptions prefix "" "" listMax)]))
      as (calls & Hrun & Hcount); [congruence|].
    eexists (_ :: _ :: calls). rewrite Hrun. rewrite <- !app_assoc.
    split; [reflexivity|]. simpl. lia.
Qed.

(** X19. [Delete] lists again from the start after every bulk delete
    and goes on until a listing comes back empty or holds a key that is
    not a subpath.  When the store accepts every bulk delete and yet
    keeps answering the same page of subpath keys, [Delete] does not
    return: after any number of pages it has sent the first listing and,
    for each page, one bulk delete and one more listing, and is still
    asking. *)
Theorem Delete_repeats_while_keys_remain (fuel : nat) (d : driver) (path : string)
    (h : History) (listing : BucketGetResult) :
  let prefix := cosPath d path in
  Contents listing <> [] ->
  len (Contents listing) <= listMax ->
  Forall (fun key => notSubpath prefix (Key key) = false) (Contents listing) ->
  (forall h', answer_Bucket_Get (Client d) h' (mkBucketGetOptions prefix "" "" listMax) =
              Ok listing) ->
  (forall h' objs, answer_Object_DeleteMulti (Client d) h' objs false = None) ->
  exists calls,
    Delete fuel d path h = OutOfFuel (h ++ calls) /\
    length calls = (1 + 2 * fuel)%nat.
Proof.
  intros prefix Hne Hlen Hall Hlist Hdelete.
  rewrite Delete_unfold. cbv zeta. fold prefix. rewrite Hlist.
  destruct (Contents listing) as [|key rest] eqn:Hc; [congruence|].
  destruct (deletePages_repeats d path (key :: rest) listing Hc Hne Hlen Hall Hlist Hdelete
              fuel (replicate (Z.to_nat listMax) zeroObject)
              (h ++ [Call_Bucket_Get (mkBucketGetOptions prefix "" "" listMax)]))
    as (calls & Hrun & Hcount); [apply length_replicate|].
  fold prefix in Hrun. rewrite Hrun.
  eexists (_ :: calls). rewrite <- app_assoc. split; [reflexivity|]. simpl. lia.
Qed.

(** A store that accepts every request and always lists the key "a". *)
Lemma Delete_repeats_while_keys_remain_witness :
  let listing := mkBucketGetResult [mkObject "a" "" 1 0 ""] [] false "" in
  let d := mkDriver (agreeingClient listing) "id" "key" "" defaultChunkSize in
  exists calls,
    Delete 3 d "/a" [] = OutOfFuel ([] ++ calls) /\ length calls = (1 + 2 * 3)%nat.
Proof.
  intros listing d.
  apply (Delete_repeats_while_keys_remain 3 d "/a" [] listing).
  - discriminate.
  - vm_compute. discriminate.
  - repeat constructor.
  - reflexivity.
  - reflexivity.
Defined.

(** X20. The two listings of [Delete] treat an error differently.  An
    error of the first listing is reported as a [PathNotFoundError] for
    the path, whatever the error was.  An error of a later listing,
    after a page of subpath keys was deleted, is returned as it is. *)
Theorem Delete_listing_errors (fuel : nat) (d : driver) (path : string) (h : History) :
  let prefix := cosPath d path in
  let opt := mkBucketGetOptions prefix "" "" listMax in
  let h1 := h ++ [Call_Bucket_Get opt] in
  (forall err : error,
      answer_Bucket_Get (Client d) h opt = Err err ->
      Delete fuel d path h = Done (Some (PathNotFoundError path)) h1) /\
  (forall (listing : BucketGetResult) (err : error),
      answer_Bucket_Get (Client d) h opt = Ok listing ->
      Contents listing <> [] ->
      len (Contents listing) <= listMax ->
      Forall (fun key => notSubpath prefix (Key key) = false) (Contents listing) ->
      (forall objs, answer_Object_DeleteMulti (Client d) h1 objs false = None) ->
      (forall objs, answer_Bucket_Get (Client d)
                      (h1 ++ [Call_Object_DeleteMulti objs false]) opt = Err err) ->
      exists deleted,
        map Key deleted = map Key (Contents listing) /\
        Delete (S fuel) d path h =
          Done (Some err) (h1 ++ [Call_Object_DeleteMulti deleted false; Call_Bucket_Get opt])).
Proof.
  intros prefix opt h1. split.
  - intros err Hlist. rewrite Delete_unfold. cbv zeta. fold prefix opt. rewrite Hlist.
    reflexivity.
  - intros listing err Hlist Hne Hlen Hall Hdelete Hnext.
    rewrite Delete_unfold. cbv zeta. fold prefix opt. rewrite Hlist.
    destruct (Contents listing) as [|key rest] eqn:Hc; [congruence|].
    destruct (scanPage_page prefix (key :: rest) (replicate (Z.to_nat listMax) zeroObject))
      as (objs' & Hscan & _ & Hkeys).
    { rewrite length_replicate. unfold len in Hlen. lia. }
    assert (Hnum : len (accumulated prefix (key :: rest)) = len (key :: rest)).
    { rewrite accumulated_all by exact Hall. unfold len. rewrite length_map. reflexivity. }
    rewrite deletePages_unfold, Hscan. cbv zeta. fold h1.
    rewrite Hdelete, !Hnum, Z.ltb_irrefl.
    rewrite Hnum in Hkeys. rewrite accumulated_all in Hkeys by exact Hall.
    fold prefix opt. rewrite Hnext.
    eexists. split; [exact Hkeys|]. rewrite <- app_assoc. reflexivity.
Qed.

(** A store that refuses every request. *)
Lemma Delete_listing_errors_witness :
  let d := mkDriver failingClient "id" "key" "" defaultChunkSize in
  Delete 1 d "/a" [] =
    Done (Some (PathNotFoundError "/a"))
         [Call_Bucket_Get (mkBucketGetOptions "a" "" "" listMax)].
Proof.
  intros d. apply (proj1 (Delete_listing_errors 1 d "/a" []) transportError). reflexivity.
Defined.

(** ** Small parts and resumed writers *)

Lemma nonFinalPartsLarge_removelast (datas : list (list byte)) :
  Forall large (removelast datas) -> nonFinalPartsLarge (map len datas).
Proof.
  unfold nonFinalPartsLarge.
  induction datas as [|a datas IH]; [constructor|].
  destruct datas as [|b rest]; [constructor|].
  intros H. change (removelast (a :: b :: rest)) with (a :: removelast (b :: rest)) in H.
  inversion H; subst.
  change (removelast (map len (a :: b :: rest)))
    with (len a :: removelast (map len (b :: rest))).
  constructor; [assumption|apply IH; assumption].
Qed.

Lemma listed_sizes (u : Upload) (parts : list Object) (datas : list (list byte)) :
  Forall2 (fun part data =>
             up_parts u !! PartNumber part = Some data /\ Size part = len data)
          parts datas ->
  storedAs u parts datas /\
  Forall (fun part => 0 <= Size part) parts /\
  fold_right Z.add 0 (map Size parts) = len (concat datas).
Proof.
  induction 1 as [|part data parts datas (Hstored & Hsize) _ (IH1 & IH2 & IH3)].
  - split; [constructor|]. split; [constructor|reflexivity].
  - split; [constructor; assumption|].
    split; [constructor; [rewrite Hsize; apply len_nonneg|assumption]|].
    simpl. rewrite len_app, IH3, Hsize. reflexivity.
Qed.

Lemma listed_last (u : Upload) (parts : list Object) (datas : list (list byte))
    (part : Object) :
  Forall2 (fun part data =>
             up_parts u !! PartNumber part = Some data /\ Size part = len data)
          parts datas ->
  last parts = Some part ->
  exists front data, datas = front ++ [data] /\ Size part = len data.
Proof.
  intros Hlisted Hlast. apply last_Some in Hlast as (parts' & ->).
  apply Forall2_app_inv_l in Hlisted as (front & k2 & _ & Hone & ->).
  inversion Hone as [|? data ? ? (_ & Hsize) Hnil]; subst. inversion Hnil; subst.
  exists front, data. auto.
Qed.

Lemma listed_large (u : Upload) (parts : list Object) (datas : list (list byte)) :
  Forall2 (fun part data =>
             up_parts u !! PartNumber part = Some data /\ Size part = len data)
          parts datas ->
  Forall large datas ->
  Forall (fun part => exists data, up_parts u !! PartNumber part = Some data /\ large data)
         parts.
Proof.
  induction 1 as [|part data parts datas (Hstored & _) _ IH]; intros Hall; [constructor|].
  inversion Hall; subst. constructor; eauto.
Qed.

(** A writer whose last listed part is not small agrees with the store. *)
Lemma listed_writerInv (w : writer) (s : Store) (u : Upload) (datas : list (list byte)) :
  Client (w_driver w) = memClient ->
  minChunkSize <= ChunkSize (w_driver w) ->
  terminal w = false ->
  len (w_pendingPart w) < ChunkSize (w_driver w) ->
  findUpload s (w_key w) (w_uploadID w) = Some u ->
  listedAs u (w_parts w) datas ->
  Forall large (removelast datas) ->
  lastPartIsSmall w = false ->
  writerInv w s.
Proof.
  intros Hclient Hmin Hterm Hpending Hfind (Hnum & Hlisted) Hlarge Hsmall.
  split; [exact Hclient|]. split; [exact Hmin|]. split; [exact Hterm|].
  split; [exact Hpending|]. exists u. split; [exact Hfind|].
  assert (Hall : Forall large datas).
  { unfold lastPartIsSmall in Hsmall. destruct (last (w_parts w)) as [part|] eqn:Hlast.
    - destruct (listed_last u _ _ part Hlisted Hlast) as (front & data & -> & Hsize).
      rewrite removelast_last in Hlarge. apply Forall_app. split; [exact Hlarge|].
      constructor; [|constructor]. unfold large. rewrite <- Hsize.
      apply Z.ltb_ge. exact Hsmall.
    - apply last_None in Hlast. rewrite Hlast in Hlisted.
      inversion Hlisted; subst. constructor. }
  apply Forall_and. split.
  - eapply Forall_impl; [exact (numberedFrom_bound _ _ Hnum)|]. simpl. intros part Hb. lia.
  - eapply listed_large; eassumption.
Qed.

(** The repair of [Write] on the in-memory store, from a truthful
    listing in which every part but the last is large: the upload is
    completed with exactly these parts, and the writer agrees with the
    new upload. *)
Lemma repairUpload_listed (w : writer) (h : History) (u : Upload)
    (datas : list (list byte)) :
  Client (w_driver w) = memClient ->
  minChunkSize <= ChunkSize (w_driver w) ->
  terminal w = false ->
  len (w_pendingPart w) < ChunkSize (w_driver w) ->
  findUpload (replay h) (w_key w) (w_uploadID w) = Some u ->
  numberedFrom 1 (w_parts w) ->
  storedAs u (w_parts w) datas ->
  Forall large (removelast datas) ->
  w_size w = len (concat datas) ->
  exists w' h',
    repairUpload w h = Done (w', None) h' /\
    writerInv w' (replay h') /\
    completions (replay h') = completions (replay h) ++ [map len datas] /\
    nonFinalPartsLarge (map len datas).
Proof.
  intros Hclient Hmin Hterm Hpending Hfind Hnum Hstored Hlarge Hsize.
  set (parts := sortObjectList (completeOptions (w_parts w))).
  assert (Hparts : parts = completeOptions (w_parts w)).
  { unfold parts. eapply numberedFrom_sorted. exact Hnum. }
  assert (Hdatas : mapM (fun part => up_parts u !! PartNumber part) parts = Some datas).
  { apply mapM_Some_2. rewrite Hparts. apply storedAs_completeOptions. exact Hstored. }
  destruct (mem_Complete h (w_key w) (w_uploadID w) parts u datas Hfind Hdatas)
    as (Hanswer1 & Hstore1).
  set (h1 := h ++ [Call_Object_CompleteMultipartUpload (w_key w) (w_uploadID w) parts]) in *.
  destruct (mem_Initiate h1 (w_key w) None) as (Hanswer2 & Hstore2).
  set (uploadID := "upload-" +:+ pretty (counter (replay h1))) in *.
  set (h2 := h1 ++ [Call_Object_InitiateMultipartUpload (w_key w) None]) in *.
  assert (Hfind2 : findUpload (replay h2) (w_key w) uploadID = Some (mkUpload (w_key w) ∅)).
  { rewrite Hstore2. apply findUpload_insert. }
  assert (Hobj2 : objects (replay h2) !! w_key w = Some (concat datas)).
  { rewrite Hstore2. simpl. rewrite Hstore1. simpl. apply lookup_insert_eq. }
  assert (Hcompl2 : completions (replay h2) = completions (replay h) ++ [map len datas]).
  { rewrite Hstore2. simpl. rewrite Hstore1. reflexivity. }
  pose proof (nonFinalPartsLarge_removelast datas Hlarge) as Hok.
  unfold repairUpload. cbv zeta. fold parts. step. rewrite Hclient, Hanswer1.
  fold h1. step. rewrite Hanswer2. fold h2. cbv beta iota. wsimpl.
  destruct (Z.ltb_spec (w_size w) minChunkSize) as [Hlt|Hge].
  - destruct (mem_Get h2 (w_key w) (concat datas) Hobj2) as (Hanswer3 & Hstore3).
    step. rewrite Hclient, Hanswer3. cbv beta iota. wsimpl.
    eexists _, _. split; [reflexivity|].
    split; [|split; [rewrite Hstore3; exact Hcompl2|exact Hok]].
    rewrite Hstore3.
    split; [exact Hclient|]. split; [exact Hmin|]. split; [exact Hterm|].
    split; [exact Hpending|].
    exists (mkUpload (w_key w) ∅). split; [exact Hfind2|constructor].
  - destruct (mem_UploadPartCopy h2 (w_key w) (w_key w) uploadID 1 _ (concat datas)
                                 Hfind2 Hobj2) as (Hanswer3 & Hstore3).
    step. rewrite Hclient, Hanswer3. cbv beta iota. wsimpl.
    eexists _, _. split; [reflexivity|].
    split; [|split; [rewrite Hstore3; exact Hcompl2|exact Hok]].
    split; [exact Hclient|]. split; [exact Hmin|]. split; [exact Hterm|].
    split; [exact Hpending|].
    eexists. split.
    + rewrite Hstore3. apply findUpload_insert.
    + constructor; [|constructor]. simpl. split; [reflexivity|].
      exists (concat datas). split; [apply lookup_insert_eq|].
      unfold large. rewrite <- Hsize. exact Hge.
Qed.

(** [Commit] of a writer with empty buffers completes the upload with
    the parts as they are listed. *)
Lemma Commit_listed (w : writer) (h : History) (u : Upload) (datas : list (list byte)) :
  Client (w_driver w) = memClient ->
  terminal w = false ->
  w_readyPart w = [] -> w_pendingPart w = [] ->
  findUpload (replay h) (w_key w) (w_uploadID w) = Some u ->
  storedAs u (w_parts w) datas ->
  exists w' h',
    Commit w h = Done (w', None) h' /\
    completions (replay h') = completions (replay h) ++ [map len datas].
Proof.
  intros Hclient Hterm Hr Hq Hfind Hstored.
  destruct (terminal_false w Hterm) as (Hc & Hm & Hx).
  unfold Commit. rewrite Hc, Hm, Hx.
  assert (Hempty : ((len (w_readyPart w) =? 0) && (len (w_pendingPart w) =? 0))%bool = true).
  { rewrite Hr, Hq. reflexivity. }
  pose proof (flushPart_empty w h Hempty) as Hflush.
  rewrite (bind_Done _ _ _ _ _ Hflush). cbv beta iota zeta. step. wsimpl.
  destruct (mem_Complete h (w_key w) (w_uploadID w) (w_parts w) u datas Hfind)
    as (Hanswer & Hstore); [apply mapM_Some_2; exact Hstored|].
  rewrite Hclient, Hanswer.
  eexists _, _. split; [reflexivity|]. rewrite Hstore. reflexivity.
Qed.

(** Writes and a commit on a writer that resumes a truthfully listed
    upload. *)
Lemma listed_writes (w : writer) (u : Upload) (datas : list (list byte))
    (ws : list (list byte)) (fuel : nat) (h : History) :
  Client (w_driver w) = memClient ->
  minChunkSize <= ChunkSize (w_driver w) ->
  terminal w = false ->
  w_readyPart w = [] -> w_pendingPart w = [] ->
  findUpload (replay h) (w_key w) (w_uploadID w) = Some u ->
  listedAs u (w_parts w) datas ->
  Forall large (removelast datas) ->
  w_size w = len (concat datas) ->
  Forall (fun p => (length p < fuel)%nat) ws ->
  exists w1 h1 w2 h2 repaired committed,
    writeAll fuel w ws h = Done (w1, map (fun p => (len p, None)) ws) h1 /\
    Commit w1 h1 = Done (w2, None) h2 /\
    completions (replay h2) = completions (replay h) ++ repaired ++ [committed] /\
    Forall nonFinalPartsLarge repaired /\
    nonFinalPartsLarge committed /\
    (lastPartIsSmall w = true -> ws <> [] ->
     exists more, repaired = map len datas :: more).
Proof.
  intros Hclient Hmin Hterm Hr Hq Hfind Hlisted Hlarge Hsize Hfuel.
  assert (Hpending : len (w_pendingPart w) < ChunkSize (w_driver w)).
  { rewrite Hq. change (len []) with 0. pose proof minChunkSize_pos. lia. }
  assert (Hplain : forall w0 h0,
             writerInv w0 (replay h0) ->
             forall ps, Forall (fun p => (length p < fuel)%nat) ps ->
             exists w1 h1 w2 h2 repaired committed,
               writeAll fuel w0 ps h0 = Done (w1, map (fun p => (len p, None)) ps) h1 /\
               Commit w1 h1 = Done (w2, None) h2 /\
               completions (replay h2) = completions (replay h0) ++ repaired ++ [committed] /\
               Forall nonFinalPartsLarge repaired /\
               nonFinalPartsLarge committed).
  { intros w0 h0 Hinv0 ps Hps.
    destruct (writeAll_mem fuel ps w0 h0 Hinv0 Hps)
      as (w1 & h1 & repaired & Hwrites & Hinv1 & Hc1 & Hok1).
    destruct (Commit_mem w1 h1 Hinv1) as (w2 & h2 & committed & Hcommit & _ & Hc2 & Hok2).
    exists w1, h1, w2, h2, repaired, committed.
    repeat split; try assumption. rewrite Hc2, Hc1, <- app_assoc. reflexivity. }
  destruct (lastPartIsSmall w) eqn:Hsmall.
  - destruct ws as [|p ps].
    + destruct (Commit_listed w h u datas Hclient Hterm Hr Hq Hfind
                  (proj1 (listed_sizes u _ _ (proj2 Hlisted))))
        as (w2 & h2 & Hcommit & Hcompl).
      exists w, h, w2, h2, [], (map len datas).
      split; [reflexivity|]. split; [exact Hcommit|]. split; [exact Hcompl|].
      split; [constructor|]. split; [apply nonFinalPartsLarge_removelast; exact Hlarge|].
      intros _ Hne. congruence.
    + inversion Hfuel as [|? ? Hp Hps]; subst.
      destruct (repairUpload_listed w h u datas Hclient Hmin Hterm Hpending Hfind
                  (proj1 Hlisted) (proj1 (listed_sizes u _ _ (proj2 Hlisted))) Hlarge Hsize)
        as (w' & h' & Hrep & Hinv' & Hcompl & Hok).
      destruct (writeLoop_mem fuel w' p 0 h' Hinv' Hp) as (w0 & h0 & Hloop & Hinv0 & Hcompl0).
      assert (Hwrite : Write fuel w p h = Done (w0, len p, None) h0).
      { destruct (terminal_false w Hterm) as (Hc & Hm & Hx).
        unfold Write. rewrite Hc, Hm, Hx, Hsmall.
        rewrite (bind_Done _ _ _ _ _ Hrep). cbv beta iota. exact Hloop. }
      destruct (Hplain w0 h0 Hinv0 ps Hps)
        as (w1 & h1 & w2 & h2 & repaired & committed & Hwrites & Hcommit & Hc & Hok1 & Hok2).
      exists w1, h1, w2, h2, (map len datas :: repaired), committed.
      split.
      { cbn [writeAll]. rewrite (bind_Done _ _ _ _ _ Hwrite). cbv beta iota.
        rewrite (bind_Done _ _ _ _ _ Hwrites). reflexivity. }
      split; [exact Hcommit|].
      split; [rewrite Hc, Hcompl0, Hcompl, <- !app_assoc; reflexivity|].
      split; [constructor; assumption|]. split; [exact Hok2|].
      intros _ _. exists repaired. reflexivity.
  - destruct (Hplain w h) with (ps := ws)
      as (w1 & h1 & w2 & h2 & repaired & committed & Hwrites & Hcommit & Hc & Hok1 & Hok2);
      [eapply listed_writerInv; eassumption|exact Hfuel|].
    exists w1, h1, w2, h2, repaired, committed.
    repeat split; try assumption. discriminate.
Qed.

(** The store after an upload was initiated and two parts were sent. *)
Lemma replay_two_parts (big small : list byte) :
  findUpload (replay [Call_Object_InitiateMultipartUpload "blob" None;
                      Call_Object_UploadPart "blob" "upload-0" 1 big;
                      Call_Object_UploadPart "blob" "upload-0" 2 small])
             "blob" "upload-0" =
  Some (mkUpload "blob" (<[2 := small]> (<[1 := big]> ∅))).
Proof. vm_compute. reflexivity. Qed.

(** ** Small-part repair *)

(** C1.  On the in-memory store, with a chunk size of at least the
    minimum: a writer obtained without [append], any sequence of [Write]
    calls of fewer than [minChunkSize] bytes each (with fuel above their
    lengths) and a [Commit] all succeed, every [Write] accepts all its
    bytes, and in every upload completed on the way and in the committed
    one, every part but the last has at least [minChunkSize] bytes.
    The same holds for a writer that resumes an upload whose parts are
    listed truthfully (numbered from 1, each with the size of its data,
    all but the last of at least the minimum size, the sum within
    [int64]); when its last listed part is small and there is a [Write],
    the first upload completed is the resumed one with its parts as they
    were.
    And for every transport: when the last recorded part of a writable
    writer has a recorded size below the minimum, [Write] first completes
    the upload with the recorded parts sorted by number, then initiates an
    upload under the same key, then reads the object (cumulative size below
    the minimum; the bytes become the ready buffer and no part is
    recorded) or copies it as part 1 (otherwise; the returned part is the
    one recorded part); after these three calls the call only uploads
    parts, and the loop that appends the new bytes starts from the
    re-seeded writer.  When the last recorded part is not small, [Write]
    is that loop alone, from the writer as it is. *)
Theorem small_part_repair :
  (forall (d : driver) (path : string) (ws : list (list byte)) (fuel : nat) (h : History),
      Client d = memClient ->
      minChunkSize <= ChunkSize d ->
      Forall (fun p => len p < minChunkSize) ws ->
      Forall (fun p => (length p < fuel)%nat) ws ->
      exists w0 h0 w1 h1 w2 h2 repaired committed,
        Writer d path false h = Done (Ok w0) h0 /\
        writeAll fuel w0 ws h0 = Done (w1, map (fun p => (len p, None)) ws) h1 /\
        Commit w1 h1 = Done (w2, None) h2 /\
        completions (replay h2) = completions (replay h) ++ repaired ++ [committed] /\
        Forall nonFinalPartsLarge repaired /\
        nonFinalPartsLarge committed) /\
  (forall (d : driver) (key uploadID : string) (parts : list Object) (u : Upload)
          (datas : list (list byte)) (ws : list (list byte)) (fuel : nat) (h : History),
      let w := newWriter d key uploadID parts in
      Client d = memClient ->
      minChunkSize <= ChunkSize d ->
      findUpload (replay h) key uploadID = Some u ->
      listedAs u parts datas ->
      Forall large (removelast datas) ->
      len (concat datas) <= maxInt64 ->
      Forall (fun p => len p < minChunkSize) ws ->
      Forall (fun p => (length p < fuel)%nat) ws ->
      exists w1 h1 w2 h2 repaired committed,
        writeAll fuel w ws h = Done (w1, map (fun p => (len p, None)) ws) h1 /\
        Commit w1 h1 = Done (w2, None) h2 /\
        completions (replay h2) = completions (replay h) ++ repaired ++ [committed] /\
        Forall nonFinalPartsLarge repaired /\
        nonFinalPartsLarge committed /\
        (lastPartIsSmall w = true -> ws <> [] ->
         exists more, repaired = map len datas :: more)) /\
  (forall (fuel : nat) (w : writer) (p : list byte) (h : History)
          (v : InitiateMultipartUploadResult),
      let cl := Client (w_driver w) in
      let parts := sortObjectList (completeOptions (w_parts w)) in
      let c1 := Call_Object_CompleteMultipartUpload (w_key w) (w_uploadID w) parts in
      let c2 := Call_Object_InitiateMultipartUpload (w_key w) None in
      let h2 := h ++ [c1; c2] in
      let h3 := h ++ [c1; c2; reseedCall w v] in
      let w2 := set_uploadID w (v_UploadID v) in
      terminal w = false ->
      lastPartIsSmall w = true ->
      answer_Object_CompleteMultipartUpload cl h (w_key w) (w_uploadID w) parts = None ->
      answer_Object_InitiateMultipartUpload cl (h ++ [c1]) (w_key w) None = (Some v, None) ->
      (exists rest,
          history_of (Write fuel w p h) = h3 ++ rest /\ Forall isUploadPart rest) /\
      (w_size w < minChunkSize ->
       forall resp,
         answer_Object_Get cl h2 (w_key w) None = Ok resp ->
         body_err (Body resp) = None ->
         Write fuel w p h =
           writeLoop fuel (set_readyPart (set_parts w2 []) (body_data (Body resp))) p 0 h3) /\
      (minChunkSize <= w_size w ->
       forall part,
         answer_Object_UploadPartCopy cl h2 (v_Key v) (w_key w) (v_UploadID v) 1 None
           = Ok part ->
         Write fuel w p h = writeLoop fuel (set_parts w2 [part]) p 0 h3)) /\
  (forall (fuel : nat) (w : writer) (p : list byte) (h : History),
      terminal w = false ->
      lastPartIsSmall w = false ->
      Write fuel w p h = writeLoop fuel w p 0 h).
Proof.
  repeat apply conj.
  - intros d path ws fuel h Hclient Hmin _ Hfuel.
    destruct (Writer_mem d path h Hclient Hmin) as (w0 & h0 & Hwriter & Hinv0 & Hc0).
    destruct (writeAll_mem fuel ws w0 h0 Hinv0 Hfuel)
      as (w1 & h1 & repaired & Hwrites & Hinv1 & Hc1 & Hok1).
    destruct (Commit_mem w1 h1 Hinv1) as (w2 & h2 & committed & Hcommit & _ & Hc2 & Hok2).
    exists w0, h0, w1, h1, w2, h2, repaired, committed.
    repeat split; try assumption.
    rewrite Hc2, Hc1, Hc0, <- app_assoc. reflexivity.
  - intros d key uploadID parts u datas ws fuel h w Hclient Hmin Hfind Hlisted Hlarge Hmax
           _ Hfuel.
    apply (listed_writes w u datas ws fuel h); try assumption; try reflexivity.
    destruct Hlisted as (_ & Hlisted).
    destruct (listed_sizes u parts datas Hlisted) as (_ & Hpos & Hsum).
    unfold w, newWriter. cbv zeta. wsimpl.
    rewrite (newWriter_size parts 0); [lia|lia|exact Hpos|lia].
  - intros fuel w p h v. apply Write_repair.
  - intros fuel w p h Hterm Hlarge.
    destruct (terminal_false w Hterm) as (Hc & Hm & Hx).
    unfold Write. rewrite Hc, Hm, Hx, Hlarge. reflexivity.
Qed.

(** A writer resumes an upload of two parts, one of [minChunkSize] bytes
    and one of three bytes; one byte is written and committed.  The
    [Write] repairs the upload: it completes it with its two parts, and
    re-seeds a new upload with a part copy. *)
Lemma small_part_repair_witness :
  let big := replicate (Z.to_nat minChunkSize) "x"%byte in
  let small := ["a"; "b"; "c"]%byte in
  let h := [Call_Object_InitiateMultipartUpload "blob" None;
            Call_Object_UploadPart "blob" "upload-0" 1 big;
            Call_Object_UploadPart "blob" "upload-0" 2 small] in
  let parts := [mkObject "" "etag-1" minChunkSize 1 ""; mkObject "" "etag-2" 3 2 ""] in
  let w := newWriter (memDriver defaultChunkSize) "blob" "upload-0" parts in
  exists w1 h1 w2 h2 repaired committed,
    writeAll 2 w [["x"%byte]] h = Done (w1, map (fun p => (len p, None)) [["x"%byte]]) h1 /\
    Commit w1 h1 = Done (w2, None) h2 /\
    completions (replay h2) = completions (replay h) ++ repaired ++ [committed] /\
    Forall nonFinalPartsLarge repaired /\
    nonFinalPartsLarge committed /\
    (lastPartIsSmall w = true -> [["x"%byte]] <> [] ->
     exists more, repaired = map len [big; small] :: more).
Proof.
  intros big small h parts w.
  assert (Hbig : len big = minChunkSize).
  { unfold big, len. rewrite length_replicate. apply Z2Nat.id. vm_compute. discriminate. }
  clearbody big.
  apply (proj1 (proj2 small_part_repair) (memDriver defaultChunkSize) "blob" "upload-0" parts
               (mkUpload "blob" (<[2 := small]> (<[1 := big]> ∅))) [big; small]
               [["x"%byte]] 2%nat h).
  - reflexivity.
  - vm_compute. discriminate.
  - apply replay_two_parts.
  - split; [cbn [numberedFrom parts PartNumber]; auto|].
    constructor; [|constructor; [|constructor]]; cbn [PartNumber Size up_parts]; split.
    + rewrite lookup_insert_ne by discriminate. apply lookup_insert_eq.
    + symmetry. exact Hbig.
    + apply lookup_insert_eq.
    + reflexivity.
  - change (removelast [big; small]) with [big].
    constructor; [|constructor]. unfold large. rewrite Hbig. reflexivity.
  - change (concat [big; small]) with (big ++ small). rewrite len_app, Hbig.
    vm_compute. discriminate.
  - constructor; [vm_compute; reflexivity|constructor].
  - constructor; [simpl; lia|constructor].
Defined.

(** C1 as stated fails for a driver whose chunk size is below the
    minimum part size, which [New] accepts.  With a chunk size of two
    bytes on the in-memory store, a fresh writer, one [Write] of five
    bytes and [Commit] succeed, and the committed upload has the parts
    "ab" and "cde": its first part, which is not the last, has two bytes. *)
Lemma small_chunk_commits_small_part :
  let d := memDriver 2 in
  ChunkSize d < minChunkSize /\
  match Writer d "/blob" false [] with
  | Done (Ok w0) h0 =>
      match writeAll 6 w0 [["a"; "b"; "c"; "d"; "e"]%byte] h0 with
      | Done (w1, results) h1 =>
          results = [(5, None)] /\
          match Commit w1 h1 with
          | Done (_, err) h2 =>
              err = None /\
              h2 = [Call_Object_InitiateMultipartUpload "blob" None;
                    Call_Object_UploadPart "blob" "upload-0" 1 ["a"; "b"]%byte;
                    Call_Object_UploadPart "blob" "upload-0" 2 ["c"; "d"; "e"]%byte;
                    Call_Object_CompleteMultipartUpload "blob" "upload-0"
                      [mkObject "" "etag-2" 0 1 ""; mkObject "" "etag-3" 0 2 ""]] /\
              completions (replay h2) = [[2; 3]]
          | _ => False
          end
      | _ => False
      end
  | _ => False
  end /\
  ~ nonFinalPartsLarge [2; 3].
Proof.
  intros d. split; [vm_compute; reflexivity|].
  split; [vm_compute; auto|].
  unfold nonFinalPartsLarge. simpl. intros H. inversion H as [|? ? Hle _]; subst.
  vm_compute in Hle. apply Hle. reflexivity.
Qed.

(** The repair at work on a resumed upload of one part of three bytes:
    the [Write] of one byte completes the upload as it is, initiates a
    new one and reads the three bytes back; [Commit] uploads the four
    bytes as the one part of the new upload. *)
Example resumed_small_part_is_repaired :
  let d := memDriver defaultChunkSize in
  let h := [Call_Object_InitiateMultipartUpload "blob" None;
            Call_Object_UploadPart "blob" "upload-0" 1 ["a"; "b"; "c"]%byte] in
  let w := newWriter d "blob" "upload-0" [mkObject "" "etag-3" 3 1 ""] in
  match callsWriter 2 w [DoWrite ["x"%byte]; DoCommit] h with
  | Done (_, results) h' =>
      results = [(DoWrite ["x"%byte], None); (DoCommit, None)] /\
      h' = h ++ [Call_Object_CompleteMultipartUpload "blob" "upload-0"
                   [mkObject "" "etag-3" 0 1 ""];
                 Call_Object_InitiateMultipartUpload "blob" None;
                 Call_Object_Get "blob" None;
                 Call_Object_UploadPart "blob" "upload-1" 1 ["a"; "b"; "c"; "x"]%byte;
                 Call_Object_CompleteMultipartUpload "blob" "upload-1"
                   [mkObject "" "etag-4" 0 1 ""]] /\
      completions (replay h') = [[3]; [4]]
  | _ => False
  end.
Proof. vm_compute. auto. Qed.
